(** * Heart-rate monitor: the CoreBluetooth listener and the HR decoders

    A shallow embedding of [ble_hr_corebluetooth.py] (the [HRDelegate]
    connection manager and its reconnect scheduler) and of the three copies of
    [parse_hr_measurement] ([ble_hr_corebluetooth.py], [ble_hr_gatt.py],
    [apple_watch_probe.py]), with the properties of the design document
    stated over them.

    The last parts add the decoder and the device filter of
    [ble_hr_broadcast.py], the device selection of [ble_hr_gatt.py] and the
    candidate test of [apple_watch_probe.py], and further properties of the
    callbacks of [HRDelegate].

    Conventions of the embedding.
    - Python [bytes]/[bytearray] values are [list byte]; Python integers are [Z].
    - [dict]s keyed by the device identifier are [gmap string _], [set]s of
      identifiers are [gset string].
    - [time.time()] readings are integers (a fixed clock resolution, one
      unit = one millisecond); a callback runs at one reading [now].
    - Requests to the BLE stack, lines printed and records written are
      collected, in program order, in the list of [Action]s a callback returns.
    - What a callback reads from the objects of the stack (the state of the
      central manager, the name and the services of a peripheral, the value
      of a characteristic) is an argument of the callback.
    - A Python exception escaping a callback is the result [None] of the
      computation; the state keeps the mutations made before the raise.
    - Writing to the output file is taken to succeed.
    - A callback and a tick run from their first statement to their last, one
      after the other ([handle], [run]).  [main] does not lock the delegate;
      [tick_interrupted] and [tick_connect] describe a tick during which a
      callback runs. *)

From Stdlib Require Import ZArith Bool List.
From Stdlib Require Import Strings.Byte Strings.Ascii Strings.String.
From stdpp Require Import gmap strings list fin_maps.

Local Open Scope Z_scope.

(** ** Byte sequences *)

Definition byte_val (b : byte) : Z := Z.of_N (Byte.to_N b).

(** [data[i]] on a byte sequence.  Every use below is guarded by a length
    test, so the [IndexError] of an out-of-range index is never reached; the
    default only makes the function total. *)
Definition getitem (data : list byte) (i : nat) : Z :=
  default 0 (byte_val <$> data !! i).

(** [data[lo:hi]]: Python slices clamp to the sequence and never raise. *)
Definition slice (data : list byte) (lo hi : nat) : list byte :=
  take (hi - lo) (drop lo data).

(** [int.from_bytes(bs, byteorder="little")]. *)
Fixpoint int_from_bytes_little (bs : list byte) : Z :=
  match bs with
  | [] => 0
  | b :: rest => byte_val b + 256 * int_from_bytes_little rest
  end.

(** [not data or len(data) < 2] *)
Definition too_short (data : list byte) : bool :=
  match data with [] => true | _ => false end || (length data <? 2)%nat.

Module ble_hr_corebluetooth.

Definition parse_hr_measurement (data : list byte) : option Z :=
  if too_short data then None
  else
    let flags := getitem data 0 in
    let hr_16bit := Z.land flags 1 in
    if negb (hr_16bit =? 0) then
      if (length data <? 3)%nat then None
      else Some (int_from_bytes_little (slice data 1 3))
    else Some (getitem data 1).

End ble_hr_corebluetooth.

Module ble_hr_gatt.

Definition parse_hr_measurement (data : list byte) : option Z :=
  if too_short data then None
  else
    let flags := getitem data 0 in
    let hr_16bit := Z.land flags 1 in
    if negb (hr_16bit =? 0) then
      if (length data <? 3)%nat then None
      else
        let hr := int_from_bytes_little (slice data 1 3) in
        Some hr
    else Some (getitem data 1).

End ble_hr_gatt.

Module apple_watch_probe.

Definition parse_hr_measurement (data : list byte) : option Z :=
  if too_short data then None
  else
    let flags := getitem data 0 in
    let hr_16bit := Z.land flags 1 in
    if negb (hr_16bit =? 0) then
      if (length data <? 3)%nat then None
      else Some (int_from_bytes_little (slice data 1 3))
    else Some (getitem data 1).

End apple_watch_probe.

(** The decoder as the design document words it (section 4.1): no value under
    two bytes; bit 0 of the flags byte selects a 16-bit little-endian value at
    bytes 1-2 (no value under three bytes), otherwise the value of byte 1. *)
Definition decode_spec (payload : list byte) : option Z :=
  if (length payload <? 2)%nat then None
  else if Z.testbit (getitem payload 0) 0 then
    if (length payload <? 3)%nat then None
    else Some (getitem payload 1 + 256 * getitem payload 2)
  else Some (getitem payload 1).

(** ** Strings

    [str.lower()] on the ASCII letters and the substring test [want in s]. *)

Definition lower_ascii (c : ascii) : ascii :=
  let n := nat_of_ascii c in
  if ((65 <=? n) && (n <=? 90))%nat then ascii_of_nat (n + 32) else c.

Fixpoint lower (s : string) : string :=
  match s with
  | EmptyString => EmptyString
  | String c rest => String (lower_ascii c) (lower rest)
  end.

Fixpoint contains (want s : string) : bool :=
  String.prefix want s
  || match s with
     | EmptyString => false
     | String _ rest => contains want rest
     end.

(** Truthiness of an optional string: [None] and the empty string are falsy. *)
Definition truthy (o : option string) : option string :=
  match o with
  | Some EmptyString => None
  | _ => o
  end.

(** [[n.lower() for n in (names or []) if n]] *)
Definition lowered (names : option (list string)) : list string :=
  lower <$> List.filter (λ n, negb (String.eqb n EmptyString)) (default [] names).

(** ** The objects of the BLE stack

    What the listener reads from a peripheral, a service, a characteristic
    and an advertisement.  UUIDs are their canonical short strings. *)

Definition HR_SERVICE : string := "180D".
Definition HR_MEAS : string := "2A37".

Record Characteristic := {
  char_UUID : string;
  char_value : option (list byte)
}.

Record Service := {
  service_UUID : string;
  service_characteristics : list Characteristic
}.

Record Peripheral := {
  p_identifier : string;
  p_name : option string;
  p_services : list Service
}.

Record AdvertisementData := { kCBAdvDataLocalName : option string }.

Inductive CBManagerState :=
| CBManagerStateUnknown
| CBManagerStateResetting
| CBManagerStateUnsupported
| CBManagerStateUnauthorized
| CBManagerStatePoweredOff
| CBManagerStatePoweredOn.

Definition is_powered_on (s : CBManagerState) : bool :=
  match s with CBManagerStatePoweredOn => true | _ => false end.

(** Status lines printed on stderr, one constructor per format string. *)
Inductive Message :=
| MsgReconnecting (reason : string) (delay : Z) (label : string)
| MsgBluetoothNotReady (delay : Z) (label : string)
| MsgReconnectAttemptConnect (label : string)
| MsgReconnectAttemptScan
| MsgFailedToConnect
| MsgDisconnected
| MsgIgnoring (reason : string) (label : string) (ttl : Z).

(** What a callback asks of the outside world. *)
Inductive Action :=
| ScanForPeripherals (services : option (list string))
| StopScan
| SetDelegate (p : Peripheral)
| ConnectPeripheral (p : Peripheral)
| CancelPeripheralConnection (p : Peripheral)
| DiscoverServices (p : Peripheral) (uuids : list string)
| DiscoverCharacteristics (p : Peripheral) (uuids : list string) (s : Service)
| SetNotifyValue (p : Peripheral) (c : Characteristic)
| PrintErr (m : Message)
| PrintHR (label : string) (hr : Z)
| OpenOutput (path : string)
| WriteRecord (ts bpm : Z) (source device_id : string).

(** ** The delegate's state *)

(** The attributes of [HRDelegate]; [central] is [self.central is not None]
    and [outfh] is [self.outfh is not None]. *)
Record HRDelegate := {
  central : bool;
  peripherals : gmap string Peripheral;
  connected_ids : gset string;
  connecting_ids : gset string;
  name_by_id : gmap string string;
  connected : bool;
  scanning : bool;
  last_scan_start : option Z;
  pending_reconnect : gmap string Z;
  reconnect_interval : Z;
  blocked_ids : gmap string Z;
  blocked_ttl : Z;
  outfile : option string;
  outfh : bool;
  name_filters : list string;
  id_filters : list string;
  preferred_names : list string;
  preferred_grace : Z;
  max_devices : option Z;
  scan_all : bool
}.

(** [HRDelegate.init] *)
Definition init : HRDelegate :=
  {| central := false; peripherals := ∅; connected_ids := ∅; connecting_ids
     := ∅; name_by_id := ∅; connected := false; scanning := false;
     last_scan_start := None; pending_reconnect := ∅; reconnect_interval :=
     5000; blocked_ids := ∅; blocked_ttl := 60000; outfile := None; outfh :=
     false; name_filters := []; id_filters := []; preferred_names := [];
     preferred_grace := 6000; max_devices := None; scan_all := false |}.

(** Attribute assignment [self.f = v] for the attributes the callbacks write. *)
Definition set_central (v : bool) (self : HRDelegate) : HRDelegate :=
  {| central := v; peripherals := peripherals self; connected_ids :=
     connected_ids self; connecting_ids := connecting_ids self; name_by_id
     := name_by_id self; connected := connected self; scanning := scanning
     self; last_scan_start := last_scan_start self; pending_reconnect :=
     pending_reconnect self; reconnect_interval := reconnect_interval self;
     blocked_ids := blocked_ids self; blocked_ttl := blocked_ttl self;
     outfile := outfile self; outfh := outfh self; name_filters :=
     name_filters self; id_filters := id_filters self; preferred_names :=
     preferred_names self; preferred_grace := preferred_grace self;
     max_devices := max_devices self; scan_all := scan_all self |}.

Definition set_peripherals (v : gmap string Peripheral) (self : HRDelegate) : HRDelegate :=
  {| central := central self; peripherals := v; connected_ids :=
     connected_ids self; connecting_ids := connecting_ids self; name_by_id
     := name_by_id self; connected := connected self; scanning := scanning
     self; last_scan_start := last_scan_start self; pending_reconnect :=
     pending_reconnect self; reconnect_interval := reconnect_interval self;
     blocked_ids := blocked_ids self; blocked_ttl := blocked_ttl self;
     outfile := outfile self; outfh := outfh self; name_filters :=
     name_filters self; id_filters := id_filters self; preferred_names :=
     preferred_names self; preferred_grace := preferred_grace self;
     max_devices := max_devices self; scan_all := scan_all self |}.

Definition set_connected_ids (v : gset string) (self : HRDelegate) : HRDelegate :=
  {| central := central self; peripherals := peripherals self; connected_ids
     := v; connecting_ids := connecting_ids self; name_by_id := name_by_id
     self; connected := connected self; scanning := scanning self;
     last_scan_start := last_scan_start self; pending_reconnect :=
     pending_reconnect self; reconnect_interval := reconnect_interval self;
     blocked_ids := blocked_ids self; blocked_ttl := blocked_ttl self;
     outfile := outfile self; outfh := outfh self; name_filters :=
     name_filters self; id_filters := id_filters self; preferred_names :=
     preferred_names self; preferred_grace := preferred_grace self;
     max_devices := max_devices self; scan_all := scan_all self |}.

Definition set_connecting_ids (v : gset string) (self : HRDelegate) : HRDelegate :=
  {| central := central self; peripherals := peripherals self; connected_ids
     := connected_ids self; connecting_ids := v; name_by_id := name_by_id
     self; connected := connected self; scanning := scanning self;
     last_scan_start := last_scan_start self; pending_reconnect :=
     pending_reconnect self; reconnect_interval := reconnect_interval self;
     blocked_ids := blocked_ids self; blocked_ttl := blocked_ttl self;
     outfile := outfile self; outfh := outfh self; name_filters :=
     name_filters self; id_filters := id_filters self; preferred_names :=
     preferred_names self; preferred_grace := preferred_grace self;
     max_devices := max_devices self; scan_all := scan_all self |}.

Definition set_name_by_id (v : gmap string string) (self : HRDelegate) : HRDelegate :=
  {| central := central self; peripherals := peripherals self; connected_ids
     := connected_ids self; connecting_ids := connecting_ids self;
     name_by_id := v; connected := connected self; scanning := scanning
     self; last_scan_start := last_scan_start self; pending_reconnect :=
     pending_reconnect self; reconnect_interval := reconnect_interval self;
     blocked_ids := blocked_ids self; blocked_ttl := blocked_ttl self;
     outfile := outfile self; outfh := outfh self; name_filters :=
     name_filters self; id_filters := id_filters self; preferred_names :=
     preferred_names self; preferred_grace := preferred_grace self;
     max_devices := max_devices self; scan_all := scan_all self |}.

Definition set_connected (v : bool) (self : HRDelegate) : HRDelegate :=
  {| central := central self; peripherals := peripherals self; connected_ids
     := connected_ids self; connecting_ids := connecting_ids self;
     name_by_id := name_by_id self; connected := v; scanning := scanning
     self; last_scan_start := last_scan_start self; pending_reconnect :=
     pending_reconnect self; reconnect_interval := reconnect_interval self;
     blocked_ids := blocked_ids self; blocked_ttl := blocked_ttl self;
     outfile := outfile self; outfh := outfh self; name_filters :=
     name_filters self; id_filters := id_filters self; preferred_names :=
     preferred_names self; preferred_grace := preferred_grace self;
     max_devices := max_devices self; scan_all := scan_all self |}.

Definition set_scanning (v : bool) (self : HRDelegate) : HRDelegate :=
  {| central := central self; peripherals := peripherals self; connected_ids
     := connected_ids self; connecting_ids := connecting_ids self;
     name_by_id := name_by_id self; connected := connected self; scanning :=
     v; last_scan_start := last_scan_start self; pending_reconnect :=
     pending_reconnect self; reconnect_interval := reconnect_interval self;
     blocked_ids := blocked_ids self; blocked_ttl := blocked_ttl self;
     outfile := outfile self; outfh := outfh self; name_filters :=
     name_filters self; id_filters := id_filters self; preferred_names :=
     preferred_names self; preferred_grace := preferred_grace self;
     max_devices := max_devices self; scan_all := scan_all self |}.

Definition set_last_scan_start (v : option Z) (self : HRDelegate) : HRDelegate :=
  {| central := central self; peripherals := peripherals self; connected_ids
     := connected_ids self; connecting_ids := connecting_ids self;
     name_by_id := name_by_id self; connected := connected self; scanning :=
     scanning self; last_scan_start := v; pending_reconnect :=
     pending_reconnect self; reconnect_interval := reconnect_interval self;
     blocked_ids := blocked_ids self; blocked_ttl := blocked_ttl self;
     outfile := outfile self; outfh := outfh self; name_filters :=
     name_filters self; id_filters := id_filters self; preferred_names :=
     preferred_names self; preferred_grace := preferred_grace self;
     max_devices := max_devices self; scan_all := scan_all self |}.

Definition set_pending_reconnect (v : gmap string Z) (self : HRDelegate) : HRDelegate :=
  {| central := central self; peripherals := peripherals self; connected_ids
     := connected_ids self; connecting_ids := connecting_ids self;
     name_by_id := name_by_id self; connected := connected self; scanning :=
     scanning self; last_scan_start := last_scan_start self;
     pending_reconnect := v; reconnect_interval := reconnect_interval self;
     blocked_ids := blocked_ids self; blocked_ttl := blocked_ttl self;
     outfile := outfile self; outfh := outfh self; name_filters :=
     name_filters self; id_filters := id_filters self; preferred_names :=
     preferred_names self; preferred_grace := preferred_grace self;
     max_devices := max_devices self; scan_all := scan_all self |}.

Definition set_blocked_ids (v : gmap string Z) (self : HRDelegate) : HRDelegate :=
  {| central := central self; peripherals := peripherals self; connected_ids
     := connected_ids self; connecting_ids := connecting_ids self;
     name_by_id := name_by_id self; connected := connected self; scanning :=
     scanning self; last_scan_start := last_scan_start self;
     pending_reconnect := pending_reconnect self; reconnect_interval :=
     reconnect_interval self; blocked_ids := v; blocked_ttl := blocked_ttl
     self; outfile := outfile self; outfh := outfh self; name_filters :=
     name_filters self; id_filters := id_filters self; preferred_names :=
     preferred_names self; preferred_grace := preferred_grace self;
     max_devices := max_devices self; scan_all := scan_all self |}.

Definition set_outfh (v : bool) (self : HRDelegate) : HRDelegate :=
  {| central := central self; peripherals := peripherals self; connected_ids
     := connected_ids self; connecting_ids := connecting_ids self;
     name_by_id := name_by_id self; connected := connected self; scanning :=
     scanning self; last_scan_start := last_scan_start self;
     pending_reconnect := pending_reconnect self; reconnect_interval :=
     reconnect_interval self; blocked_ids := blocked_ids self; blocked_ttl
     := blocked_ttl self; outfile := outfile self; outfh := v; name_filters
     := name_filters self; id_filters := id_filters self; preferred_names :=
     preferred_names self; preferred_grace := preferred_grace self;
     max_devices := max_devices self; scan_all := scan_all self |}.

(** [set_output]; creating the directory of the file is left to the sink. *)
Definition set_output (path : option string) (self : HRDelegate) : HRDelegate :=
  {| central := central self; peripherals := peripherals self; connected_ids
     := connected_ids self; connecting_ids := connecting_ids self;
     name_by_id := name_by_id self; connected := connected self; scanning :=
     scanning self; last_scan_start := last_scan_start self;
     pending_reconnect := pending_reconnect self; reconnect_interval :=
     reconnect_interval self; blocked_ids := blocked_ids self; blocked_ttl
     := blocked_ttl self; outfile := path; outfh := outfh self; name_filters
     := name_filters self; id_filters := id_filters self; preferred_names :=
     preferred_names self; preferred_grace := preferred_grace self;
     max_devices := max_devices self; scan_all := scan_all self |}.

Definition set_filters (names ids : option (list string))
    (max : option Z) (all : bool) (self : HRDelegate) : HRDelegate :=
  {| central := central self; peripherals := peripherals self; connected_ids
     := connected_ids self; connecting_ids := connecting_ids self;
     name_by_id := name_by_id self; connected := connected self; scanning :=
     scanning self; last_scan_start := last_scan_start self;
     pending_reconnect := pending_reconnect self; reconnect_interval :=
     reconnect_interval self; blocked_ids := blocked_ids self; blocked_ttl
     := blocked_ttl self; outfile := outfile self; outfh := outfh self;
     name_filters := lowered names; id_filters := lowered ids;
     preferred_names := preferred_names self; preferred_grace :=
     preferred_grace self; max_devices := max; scan_all := all |}.

Definition set_preferred (names : option (list string)) (grace : Z)
    (self : HRDelegate) : HRDelegate :=
  {| central := central self; peripherals := peripherals self; connected_ids
     := connected_ids self; connecting_ids := connecting_ids self;
     name_by_id := name_by_id self; connected := connected self; scanning :=
     scanning self; last_scan_start := last_scan_start self;
     pending_reconnect := pending_reconnect self; reconnect_interval :=
     reconnect_interval self; blocked_ids := blocked_ids self; blocked_ttl
     := blocked_ttl self; outfile := outfile self; outfh := outfh self;
     name_filters := name_filters self; id_filters := id_filters self;
     preferred_names := lowered names; preferred_grace := grace; max_devices
     := max_devices self; scan_all := scan_all self |}.
(** ** Computations of a callback

    A callback reads and writes the delegate, emits actions and may raise. *)

Definition M (A : Type) : Type :=
  HRDelegate → option A * HRDelegate * list Action.

#[global] Instance M_ret : MRet M := λ A a self, (Some a, self, []).

#[global] Instance M_bind : MBind M := λ A B k m self,
  match m self with
  | (Some a, self1, out1) =>
      match k a self1 with
      | (r, self2, out2) => (r, self2, out1 ++ out2)
      end
  | (None, self1, out1) => (None, self1, out1)
  end.

Definition raise {A} : M A := λ self, (None, self, []).
Definition get : M HRDelegate := λ self, (Some self, self, []).
Definition modify (f : HRDelegate → HRDelegate) : M unit :=
  λ self, (Some tt, f self, []).
Definition emit (a : Action) : M unit := λ self, (Some tt, self, [a]).
Definition skip : M unit := mret tt.

(** [try: m  except Exception: pass] *)
Definition try_pass (m : M unit) : M unit := λ self,
  match m self with
  | (None, self1, out1) => (Some tt, self1, out1)
  | r => r
  end.

(** [for x in xs: body(x)] over a list fixed before the loop starts. *)
Fixpoint for_each {A} (xs : list A) (body : A → M unit) : M unit :=
  match xs with
  | [] => skip
  | x :: rest => body x ;; for_each rest body
  end.

(** The three components of a run. *)
Definition result {A} (r : option A * HRDelegate * list Action) : option A := r.1.1.
Definition state_of {A} (r : option A * HRDelegate * list Action) : HRDelegate := r.1.2.
Definition actions {A} (r : option A * HRDelegate * list Action) : list Action := r.2.

(** ** Dictionary and set statements on the attributes *)

(** [self.pending_reconnect[device_id] = ts] *)
Definition pending_setitem (device_id : string) (ts : Z) : M unit :=
  modify (λ self,
    set_pending_reconnect (<[device_id := ts]> (pending_reconnect self)) self).

(** [del self.pending_reconnect[device_id]]: a [KeyError] on a missing key. *)
Definition pending_delitem (device_id : string) : M unit :=
  self ← get;
  if decide (is_Some (pending_reconnect self !! device_id))
  then modify (set_pending_reconnect (delete device_id (pending_reconnect self)))
  else raise.

(** [self.central.connectPeripheral_options_]: an [AttributeError] while
    [self.central] is still [None]. *)
Definition central_connect (peripheral : Peripheral) : M unit :=
  self ← get;
  if central self then emit (ConnectPeripheral peripheral) else raise.

(** [self.central.cancelPeripheralConnection_], with the same failure. *)
Definition central_cancel (peripheral : Peripheral) : M unit :=
  self ← get;
  if central self then emit (CancelPeripheralConnection peripheral) else raise.

(** [self.name_by_id.get(device_id, device_id)] *)
Definition label_of (device_id : string) (self : HRDelegate) : string :=
  default device_id (name_by_id self !! device_id).

(** ** The methods of [HRDelegate] *)

Definition _write_hr (bpm : Z) (source device_id : string) (now : Z) : M unit :=
  self ← get;
  match truthy (outfile self) with
  | None => skip
  | Some path =>
      (if outfh self then skip
       else emit (OpenOutput path) ;; modify (set_outfh true)) ;;
      emit (WriteRecord now bpm source device_id)
  end.

Definition _start_scan (now : Z) : M unit :=
  self ← get;
  if negb (central self) || scanning self then skip
  else
    modify (set_scanning true) ;;
    emit (ScanForPeripherals
            (if scan_all self then None else Some [HR_SERVICE])) ;;
    modify (set_last_scan_start (Some now)).

Definition _stop_scan : M unit :=
  self ← get;
  if negb (central self) || negb (scanning self) then skip
  else
    emit StopScan ;;
    modify (set_scanning false) ;;
    modify (set_last_scan_start None).

Definition _schedule_reconnect (device_id reason : string) (now : Z) : M unit :=
  self ← get;
  if decide (is_Some (pending_reconnect self !! device_id)) then skip
  else
    let delay := reconnect_interval self in
    pending_setitem device_id (now + delay) ;;
    emit (PrintErr (MsgReconnecting reason delay (label_of device_id self))).

Definition _reset_reconnect (device_id : string) : M unit :=
  self ← get;
  if decide (is_Some (pending_reconnect self !! device_id))
  then pending_delitem device_id
  else skip.

(** The body of the loop of [tick] taken when the stack is not ready. *)
Definition tick_not_ready (now : Z) (device_id : string) : M unit :=
  self ← get;
  pending_setitem device_id (now + reconnect_interval self) ;;
  emit (PrintErr (MsgBluetoothNotReady (reconnect_interval self)
                    (label_of device_id self))).

(** The body of the main loop of [tick], for one item of the snapshot. *)
Definition tick_entry (now : Z) (item : string * Z) : M unit :=
  let '(device_id, ts) := item in
  self ← get;
  if now <? ts then skip
  else if decide (device_id ∈ connected_ids self) then
    pending_delitem device_id
  else if decide (device_id ∈ connecting_ids self) then
    pending_setitem device_id (now + reconnect_interval self)
  else
    match peripherals self !! device_id with
    | Some peripheral =>
        try_pass (emit (SetDelegate peripheral)) ;;
        modify (λ self,
          set_connecting_ids ({[device_id]} ∪ connecting_ids self) self) ;;
        emit (PrintErr (MsgReconnectAttemptConnect (label_of device_id self))) ;;
        central_connect peripheral ;;
        pending_setitem device_id (now + reconnect_interval self)
    | None =>
        (if scanning self then _stop_scan else skip) ;;
        emit (PrintErr MsgReconnectAttemptScan) ;;
        _start_scan now ;;
        pending_setitem device_id (now + reconnect_interval self)
    end.

(** [tick]; [state] is what [self.central.state()] answers when it is asked.
    The loops run over a snapshot of the dictionary taken before the first
    iteration.  The snapshot is enumerated in the order of the finite map,
    where Python enumerates in insertion order; what is proved of the main
    loop ([tick_loop_effect]) holds for every enumeration of the snapshot. *)
Definition tick (state : CBManagerState) (now : Z) : M unit :=
  self ← get;
  if decide (pending_reconnect self = ∅) then skip
  else if negb (central self) || negb (is_powered_on state) then
    for_each (map_to_list (pending_reconnect self)).*1 (tick_not_ready now)
  else
    for_each (map_to_list (pending_reconnect self)) (tick_entry now).

(** [(advertisementData.get("kCBAdvDataLocalName") or "").lower()], and [""]
    without advertisement data. *)
Definition adv_name_lower (advertisementData : option AdvertisementData) : string :=
  match advertisementData with
  | Some adv => lower (default EmptyString (truthy (kCBAdvDataLocalName adv)))
  | None => EmptyString
  end.

(** [(peripheral.name() or "").lower()] *)
Definition name_lower (peripheral : Peripheral) : string :=
  lower (default EmptyString (truthy (p_name peripheral))).

Definition _match_device (peripheral : Peripheral)
    (advertisementData : option AdvertisementData) (now : Z) : M bool :=
  let device_id := p_identifier peripheral in
  self ← get;
  blocked ←
    match blocked_ids self !! device_id with
    | Some until =>
        if now <? until then mret true
        else
          modify (set_blocked_ids (delete device_id (blocked_ids self))) ;;
          mret false
    | None => mret false
    end;
  if blocked : bool then mret false
  else if
    match id_filters self with
    | [] => false
    | _ => negb (existsb (λ want, contains want (lower device_id)) (id_filters self))
    end
  then mret false
  else if
    match name_filters self with
    | [] => false
    | _ =>
        let name := name_lower peripheral in
        let adv_name := adv_name_lower advertisementData in
        negb (existsb (λ want, contains want name || contains want adv_name)
                (name_filters self))
    end
  then mret false
  else mret true.

Definition _is_preferred (peripheral : Peripheral)
    (advertisementData : option AdvertisementData) (self : HRDelegate) : bool :=
  match preferred_names self with
  | [] => false
  | _ =>
      let name := name_lower peripheral in
      let adv_name := adv_name_lower advertisementData in
      existsb (λ want, contains want name || contains want adv_name)
        (preferred_names self)
  end.

Definition _should_defer_non_preferred (now : Z) (self : HRDelegate) : bool :=
  match preferred_names self with
  | [] => false
  | _ =>
      match last_scan_start self with
      | None => false
      | Some started => now - started <? preferred_grace self
      end
  end.

Definition _update_name (peripheral : Peripheral)
    (advertisementData : option AdvertisementData) : M unit :=
  let device_id := p_identifier peripheral in
  let adv_name :=
    match advertisementData with
    | Some adv => kCBAdvDataLocalName adv
    | None => None
    end in
  match truthy adv_name with
  | Some adv_name =>
      modify (λ self,
        set_name_by_id (<[device_id := adv_name]> (name_by_id self)) self)
  | None =>
      match truthy (p_name peripheral) with
      | Some name =>
          modify (λ self,
            set_name_by_id (<[device_id := name]> (name_by_id self)) self)
      | None => skip
      end
  end.

Definition _at_capacity (self : HRDelegate) : bool :=
  match max_devices self with
  | None => false
  | Some max =>
      let count :=
        Z.of_nat (size (connected_ids self)) + Z.of_nat (size (connecting_ids self)) in
      max <=? count
  end.

Definition _block_device (device_id reason : string) (now : Z) : M unit :=
  modify (λ self,
    set_blocked_ids (<[device_id := now + blocked_ttl self]> (blocked_ids self)) self) ;;
  self ← get;
  (if decide (is_Some (pending_reconnect self !! device_id))
   then pending_delitem device_id else skip) ;;
  emit (PrintErr (MsgIgnoring reason (label_of device_id self) (blocked_ttl self))).

Definition _connect_peripheral (peripheral : Peripheral)
    (advertisementData : option AdvertisementData) : M unit :=
  let device_id := p_identifier peripheral in
  self ← get;
  if decide (device_id ∈ connected_ids self ∨ device_id ∈ connecting_ids self)
  then skip
  else
    modify (λ self,
      set_peripherals (<[device_id := peripheral]> (peripherals self)) self) ;;
    _update_name peripheral advertisementData ;;
    try_pass (emit (SetDelegate peripheral)) ;;
    modify (λ self,
      set_connecting_ids ({[device_id]} ∪ connecting_ids self) self) ;;
    central_connect peripheral.

(** [self.connecting_ids.remove(device_id)]: a [KeyError] on a missing element. *)
Definition connecting_remove (device_id : string) : M unit :=
  self ← get;
  if decide (device_id ∈ connecting_ids self)
  then modify (set_connecting_ids (connecting_ids self ∖ {[device_id]}))
  else raise.

(** [self.connected_ids.remove(device_id)] *)
Definition connected_remove (device_id : string) : M unit :=
  self ← get;
  if decide (device_id ∈ connected_ids self)
  then modify (set_connected_ids (connected_ids self ∖ {[device_id]}))
  else raise.

(** ** The callbacks of the BLE stack *)

(** The loop of [centralManagerDidUpdateState_] over the peripherals that
    [retrieveConnectedPeripheralsWithServices_] answered. *)
Fixpoint connect_retrieved (connected : list Peripheral) (now : Z) : M unit :=
  match connected with
  | [] => skip
  | peripheral :: rest =>
      self ← get;
      if _at_capacity self then skip
      else
        ok ← _match_device peripheral None now;
        if negb ok then connect_retrieved rest now
        else _connect_peripheral peripheral None ;; connect_retrieved rest now
  end.

Definition centralManagerDidUpdateState_ (state : CBManagerState)
    (retrieved : list Peripheral) (now : Z) : M unit :=
  modify (set_central true) ;;
  if negb (is_powered_on state) then skip
  else
    connect_retrieved retrieved now ;;
    _start_scan now.

Definition centralManager_didDiscoverPeripheral_advertisementData_RSSI_
    (peripheral : Peripheral) (advertisementData : option AdvertisementData)
    (now : Z) : M unit :=
  let device_id := p_identifier peripheral in
  modify (λ self,
    set_peripherals (<[device_id := peripheral]> (peripherals self)) self) ;;
  _update_name peripheral advertisementData ;;
  ok ← _match_device peripheral advertisementData now;
  if negb ok then skip
  else
    self ← get;
    let preferred := _is_preferred peripheral advertisementData self in
    if negb preferred && _should_defer_non_preferred now self then skip
    else if _at_capacity self then skip
    else _connect_peripheral peripheral advertisementData.

Definition centralManager_didConnectPeripheral_ (peripheral : Peripheral) : M unit :=
  let device_id := p_identifier peripheral in
  modify (set_connected true) ;;
  modify (λ self,
    set_connected_ids ({[device_id]} ∪ connected_ids self) self) ;;
  self ← get;
  (if decide (device_id ∈ connecting_ids self)
   then connecting_remove device_id else skip) ;;
  _reset_reconnect device_id ;;
  emit (DiscoverServices peripheral [HR_SERVICE]).

Definition centralManager_didFailToConnectPeripheral_error_
    (peripheral : Peripheral) (now : Z) : M unit :=
  let device_id := p_identifier peripheral in
  modify (set_connected false) ;;
  self ← get;
  (if decide (device_id ∈ connecting_ids self)
   then connecting_remove device_id else skip) ;;
  emit (PrintErr MsgFailedToConnect) ;;
  _schedule_reconnect device_id "Connect failed." now.

Definition centralManager_didDisconnectPeripheral_error_
    (peripheral : Peripheral) (now : Z) : M unit :=
  let device_id := p_identifier peripheral in
  modify (set_connected false) ;;
  self ← get;
  (if decide (device_id ∈ connected_ids self)
   then connected_remove device_id else skip) ;;
  emit (PrintErr MsgDisconnected) ;;
  match blocked_ids self !! device_id with
  | Some until =>
      if now <? until then skip
      else _schedule_reconnect device_id "Disconnected." now
  | None => _schedule_reconnect device_id "Disconnected." now
  end.

Definition peripheral_didDiscoverServices_ (peripheral : Peripheral)
    (error : bool) (now : Z) : M unit :=
  let device_id := p_identifier peripheral in
  if error then _schedule_reconnect device_id "Service discovery failed." now
  else
    let is_hr := λ service, String.eqb (service_UUID service) HR_SERVICE in
    for_each (p_services peripheral) (λ service,
      if is_hr service
      then emit (DiscoverCharacteristics peripheral [HR_MEAS] service)
      else skip) ;;
    let found := existsb is_hr (p_services peripheral) in
    if found then skip
    else
      _block_device device_id "No Heart Rate service." now ;;
      try_pass (central_cancel peripheral).

Definition peripheral_didDiscoverCharacteristicsForService_error_
    (peripheral : Peripheral) (service : Service) (error : bool) (now : Z) : M unit :=
  let device_id := p_identifier peripheral in
  if error then _schedule_reconnect device_id "Characteristic discovery failed." now
  else
    let is_meas := λ char, String.eqb (char_UUID char) HR_MEAS in
    for_each (service_characteristics service) (λ char,
      if is_meas char
      then emit (SetNotifyValue peripheral char)
      else skip) ;;
    let found := existsb is_meas (service_characteristics service) in
    if found then skip
    else
      _block_device device_id "No Heart Rate characteristic." now ;;
      try_pass (central_cancel peripheral).

Definition peripheral_didUpdateValueForCharacteristic_error_
    (peripheral : Peripheral) (characteristic : Characteristic)
    (error : bool) (now : Z) : M unit :=
  if error then skip
  else
    match char_value characteristic with
    | None => skip
    | Some value =>
        match ble_hr_corebluetooth.parse_hr_measurement value with
        | None => skip
        | Some hr =>
            let device_id := p_identifier peripheral in
            _update_name peripheral None ;;
            self ← get;
            let label := label_of device_id self in
            emit (PrintHR label hr) ;;
            _write_hr hr label device_id now
        end
    end.

(** ** The event loop

    [main] configures a fresh delegate and then alternates between the
    callbacks the stack delivers and [tick]. *)

Record Args := {
  arg_file : option string;
  arg_name : option (list string);
  arg_id : option (list string);
  arg_max_devices : option Z;
  arg_scan_all : bool;
  arg_preferred : list string;
  arg_preferred_grace : Z
}.

Definition configure (args : Args) : HRDelegate :=
  set_preferred (Some (arg_preferred args)) (arg_preferred_grace args)
    (set_filters (arg_name args) (arg_id args) (arg_max_devices args)
       (arg_scan_all args)
       (set_output (arg_file args) init)).

Inductive Event :=
| DidUpdateState (state : CBManagerState) (retrieved : list Peripheral)
| DidDiscoverPeripheral (p : Peripheral) (adv : option AdvertisementData)
| DidConnectPeripheral (p : Peripheral)
| DidFailToConnectPeripheral (p : Peripheral)
| DidDisconnectPeripheral (p : Peripheral)
| DidDiscoverServices (p : Peripheral) (error : bool)
| DidDiscoverCharacteristics (p : Peripheral) (s : Service) (error : bool)
| DidUpdateValue (p : Peripheral) (c : Characteristic) (error : bool)
| Tick (state : CBManagerState).

Definition handle (ev : Event) (now : Z) : M unit :=
  match ev with
  | DidUpdateState state retrieved => centralManagerDidUpdateState_ state retrieved now
  | DidDiscoverPeripheral p adv =>
      centralManager_didDiscoverPeripheral_advertisementData_RSSI_ p adv now
  | DidConnectPeripheral p => centralManager_didConnectPeripheral_ p
  | DidFailToConnectPeripheral p => centralManager_didFailToConnectPeripheral_error_ p now
  | DidDisconnectPeripheral p => centralManager_didDisconnectPeripheral_error_ p now
  | DidDiscoverServices p error => peripheral_didDiscoverServices_ p error now
  | DidDiscoverCharacteristics p s error =>
      peripheral_didDiscoverCharacteristicsForService_error_ p s error now
  | DidUpdateValue p c error => peripheral_didUpdateValueForCharacteristic_error_ p c error now
  | Tick state => tick state now
  end.

(** The delegate after a sequence of timestamped events. *)
Fixpoint run (evs : list (Event * Z)) (self : HRDelegate) : HRDelegate :=
  match evs with
  | [] => self
  | (ev, now) :: rest => run rest (state_of (handle ev now self))
  end.

(** All the actions of a sequence of timestamped events, in order. *)
Fixpoint run_actions (evs : list (Event * Z)) (self : HRDelegate) : list Action :=
  match evs with
  | [] => []
  | (ev, now) :: rest =>
      actions (handle ev now self) ++ run_actions rest (state_of (handle ev now self))
  end.

(** The states the delegate goes through. *)
Inductive reachable : HRDelegate → Prop :=
| reachable_start args : reachable (configure args)
| reachable_step self ev now :
    reachable self → reachable (state_of (handle ev now self)).

(** * The vocabulary of the properties *)

(** ** The methods in closed form

    What [_match_device] and the discovery callback compute, written without
    the plumbing of a computation. *)

(** The advertised local name, when the advertisement carries a non-empty
    one. *)
Definition adv_local_name (advertisementData : option AdvertisementData) : option string :=
  truthy (advertisementData ≫= kCBAdvDataLocalName).

(** [_match_device] in closed form: whether an unexpired block holds, the
    delegate after an expired block is forgotten, and the two filters. *)
Definition is_blocked (now : Z) (device_id : string) (self : HRDelegate) : bool :=
  match blocked_ids self !! device_id with
  | Some until => now <? until
  | None => false
  end.

Definition expire_block (now : Z) (device_id : string) (self : HRDelegate) : HRDelegate :=
  match blocked_ids self !! device_id with
  | Some until =>
      if now <? until then self
      else set_blocked_ids (delete device_id (blocked_ids self)) self
  | None => self
  end.

Definition passes_filters (peripheral : Peripheral)
    (advertisementData : option AdvertisementData) (self : HRDelegate) : bool :=
  match id_filters self with
  | [] => true
  | _ => existsb (λ want, contains want (lower (p_identifier peripheral))) (id_filters self)
  end
  && match name_filters self with
     | [] => true
     | _ =>
         existsb (λ want, contains want (name_lower peripheral)
                          || contains want (adv_name_lower advertisementData))
           (name_filters self)
     end.

(** The delegate once a discovery has stored the handle and the name and
    forgotten an expired block, before it decides whether to connect. *)
Definition seen (peripheral : Peripheral) (advertisementData : option AdvertisementData)
    (now : Z) (self : HRDelegate) : HRDelegate :=
  expire_block now (p_identifier peripheral)
    (state_of (_update_name peripheral advertisementData
       (set_peripherals (<[p_identifier peripheral := peripheral]> (peripherals self))
          self))).

(** The request that starts a scan. *)
Definition scan_request (self : HRDelegate) : Action :=
  ScanForPeripherals (if scan_all self then None else Some [HR_SERVICE]).

(** ** Invariants *)

(** Running [m] from a delegate that satisfies [P] ends in one that does,
    whether [m] returns or raises. *)
Definition preserves {A} (P : HRDelegate → Prop) (m : M A) : Prop :=
  ∀ self, P self → P (state_of (m self)).

(** [scanning] is set exactly while a scan-start time is recorded. *)
Definition scan_window_ok (self : HRDelegate) : Prop :=
  scanning self = true ↔ is_Some (last_scan_start self).

(** The bound the limit is meant to keep. *)
Definition capacity_ok (self : HRDelegate) : Prop :=
  ∀ max, max_devices self = Some max →
    Z.of_nat (size (connected_ids self)) + Z.of_nat (size (connecting_ids self)) ≤ max.

(** The callbacks that cannot add a device beyond the limit: all but a
    [tick] with the stack ready, and a connect callback for a device the
    delegate was not connecting to. *)
Definition capacity_safe (self : HRDelegate) (ev : Event) : Prop :=
  match ev with
  | Tick state => central self = false ∨ is_powered_on state = false
  | DidConnectPeripheral p =>
      p_identifier p ∈ connecting_ids self ∨ p_identifier p ∈ connected_ids self
  | _ => True
  end.

(** A device under a block that has not expired at [now] has no pending
    reconnect. *)
Definition block_inv (now : Z) (self : HRDelegate) : Prop :=
  ∀ device_id until,
    blocked_ids self !! device_id = Some until → now < until →
    pending_reconnect self !! device_id = None.

(** The callbacks that schedule a reconnect without looking at the block
    list are left out. *)
Definition block_safe (ev : Event) : Prop :=
  match ev with
  | DidFailToConnectPeripheral _ => False
  | DidDiscoverServices _ error => error = false
  | DidDiscoverCharacteristics _ _ error => error = false
  | _ => True
  end.

(** Every cached handle is stored under the identifier of its peripheral. *)
Definition peripherals_keyed (self : HRDelegate) : Prop :=
  ∀ k p, peripherals self !! k = Some p → p_identifier p = k.

(** The callbacks that report a failure of a device. *)
Inductive failure_event (peripheral : Peripheral) : Event → Prop :=
| failure_connect : failure_event peripheral (DidFailToConnectPeripheral peripheral)
| failure_disconnect : failure_event peripheral (DidDisconnectPeripheral peripheral)
| failure_services : failure_event peripheral (DidDiscoverServices peripheral true)
| failure_characteristics service :
    failure_event peripheral (DidDiscoverCharacteristics peripheral service true).

(** ** One pass of the reconnect scheduler *)

(** What one pass over the snapshot may change: nothing about the devices
    whose keys are not in [keys], and a scan that is active stays active. *)
Definition tick_frame (keys : list string) (before after : HRDelegate) : Prop :=
  connected_ids after = connected_ids before
  ∧ peripherals after = peripherals before
  ∧ reconnect_interval after = reconnect_interval before
  ∧ central after = central before
  ∧ scan_all after = scan_all before
  ∧ max_devices after = max_devices before
  ∧ blocked_ids after = blocked_ids before
  ∧ (scanning before = true → scanning after = true)
  ∧ (∀ k, k ∉ keys →
       pending_reconnect after !! k = pending_reconnect before !! k
       ∧ (k ∈ connecting_ids after ↔ k ∈ connecting_ids before)).

(** What the pass does for the entry [(device_id, dueAt)] of the snapshot. *)
Definition entry_outcome (now : Z) (before after : HRDelegate) (out : list Action)
    (device_id : string) (dueAt : Z) : Prop :=
  let rearmed :=
    pending_reconnect after !! device_id = Some (now + reconnect_interval before) in
  (now < dueAt →
     pending_reconnect after !! device_id = Some dueAt
     ∧ (device_id ∈ connecting_ids after ↔ device_id ∈ connecting_ids before))
  ∧ (dueAt ≤ now → device_id ∈ connected_ids before →
       pending_reconnect after !! device_id = None
       ∧ (device_id ∈ connecting_ids after ↔ device_id ∈ connecting_ids before))
  ∧ (dueAt ≤ now → device_id ∉ connected_ids before →
       device_id ∈ connecting_ids before →
       rearmed ∧ device_id ∈ connecting_ids after)
  ∧ (dueAt ≤ now → device_id ∉ connected_ids before →
       device_id ∉ connecting_ids before →
       ∀ peripheral, peripherals before !! device_id = Some peripheral →
         rearmed
         ∧ device_id ∈ connecting_ids after
         ∧ ConnectPeripheral peripheral ∈ out)
  ∧ (dueAt ≤ now → device_id ∉ connected_ids before →
       device_id ∉ connecting_ids before →
       peripherals before !! device_id = None →
         rearmed
         ∧ (device_id ∉ connecting_ids after)
         ∧ scan_request before ∈ out
         ∧ scanning after = true).

(** When the pass asks the stack to connect. *)
Definition connect_due (now : Z) (before : HRDelegate) (device_id : string)
    (dueAt : Z) (peripheral : Peripheral) : Prop :=
  dueAt ≤ now
  ∧ (device_id ∉ connected_ids before)
  ∧ (device_id ∉ connecting_ids before)
  ∧ peripherals before !! device_id = Some peripheral.

(** ** Devices and sessions

    The concrete devices, options and event sequences the examples run. *)

Definition hr_service : Service :=
  {| service_UUID := HR_SERVICE;
     service_characteristics := [ {| char_UUID := HR_MEAS; char_value := None |} ] |}.

Definition empty_hr_service : Service :=
  {| service_UUID := HR_SERVICE; service_characteristics := [] |}.

Definition polar : Peripheral :=
  {| p_identifier := "AAAA"; p_name := Some "Polar"; p_services := [hr_service] |}.

Definition wahoo : Peripheral :=
  {| p_identifier := "BBBB"; p_name := Some "Wahoo"; p_services := [hr_service] |}.

(** A device that shows two instances of the Heart Rate service, the first of
    them without the measurement characteristic. *)
Definition odd_strap : Peripheral :=
  {| p_identifier := "CCCC"; p_name := Some "Strap";
     p_services := [empty_hr_service; hr_service] |}.

Definition generic_sensor : Peripheral :=
  {| p_identifier := "DDDD"; p_name := Some "Generic Sensor"; p_services := [hr_service] |}.

Definition my_watch : Peripheral :=
  {| p_identifier := "EEEE"; p_name := Some "My Watch"; p_services := [hr_service] |}.

Definition polar_adv : AdvertisementData :=
  {| kCBAdvDataLocalName := Some "Polar H10 1234" |}.

Definition beat : Characteristic :=
  {| char_UUID := HR_MEAS; char_value := Some [x00; x48] |}.

(** A notification that announces a 16-bit value and carries one byte of it. *)
Definition short_beat : Characteristic :=
  {| char_UUID := HR_MEAS; char_value := Some [x01; x01] |}.

Definition default_args : Args :=
  {| arg_file := None; arg_name := None; arg_id := None; arg_max_devices := None;
     arg_scan_all := false; arg_preferred := []; arg_preferred_grace := 6000 |}.

Definition one_device_args : Args :=
  {| arg_file := None; arg_name := None; arg_id := None; arg_max_devices := Some 1;
     arg_scan_all := false; arg_preferred := []; arg_preferred_grace := 6000 |}.

(** A listener that prefers watches. *)
Definition watch_args : Args :=
  {| arg_file := None; arg_name := None; arg_id := None; arg_max_devices := None;
     arg_scan_all := false; arg_preferred := ["Watch"]; arg_preferred_grace := 6000 |}.

(** A session with room for one device: a strap connects and drops out, and
    a second strap takes the free slot. *)
Definition handover : list (Event * Z) :=
  [ (DidUpdateState CBManagerStatePoweredOn [], 0);
    (DidDiscoverPeripheral polar None, 100);
    (DidConnectPeripheral polar, 200);
    (DidDisconnectPeripheral polar, 300);
    (DidDiscoverPeripheral wahoo None, 400);
    (DidConnectPeripheral wahoo, 500) ].

Definition full : HRDelegate := run handover (configure one_device_args).

(** The session of [handover] followed by the tick that is due for the first
    strap. *)
Definition overbooked : HRDelegate :=
  run (handover ++ [(Tick CBManagerStatePoweredOn, 6000)]) (configure one_device_args).

(** A session in which the strap connects and then drops out of range. *)
Definition dropout : list (Event * Z) :=
  [ (DidUpdateState CBManagerStatePoweredOn [], 0);
    (DidDiscoverPeripheral polar (Some polar_adv), 100);
    (DidConnectPeripheral polar, 200);
    (DidDisconnectPeripheral polar, 1000) ].

Definition waiting : HRDelegate := run dropout (configure default_args).

(** The session of [odd_strap]: the callback for the first service instance
    blocks the device, the callback for the second reports an error. *)
Definition odd_session : list (Event * Z) :=
  [ (DidUpdateState CBManagerStatePoweredOn [], 0);
    (DidDiscoverPeripheral odd_strap None, 100);
    (DidConnectPeripheral odd_strap, 200);
    (DidDiscoverServices odd_strap false, 300);
    (DidDiscoverCharacteristics odd_strap empty_hr_service false, 400);
    (DidDiscoverCharacteristics odd_strap hr_service true, 450);
    (DidDisconnectPeripheral odd_strap, 500) ].

Definition cooling : HRDelegate := run odd_session (configure default_args).

(** The listener of [watch_args] once its first scan has started. *)
Definition watching : HRDelegate :=
  state_of (handle (DidUpdateState CBManagerStatePoweredOn []) 0 (configure watch_args)).

(** ** The decoder of [ble_hr_broadcast.py] *)

Definition parse_hr_from_payload (payload : list byte) : option Z :=
  if too_short payload then None
  else
    let flags := getitem payload 0 in
    let hr_16bit := Z.land flags 1 in
    if negb (hr_16bit =? 0) then
      if (length payload <? 3)%nat then None
      else
        let hr := int_from_bytes_little (slice payload 1 3) in
        Some hr
    else
      let hr := getitem payload 1 in
      Some hr.

(** ** The scanners of the bleak scripts

    What [ble_hr_gatt.py], [apple_watch_probe.py], [ble_hr_broadcast.py] and
    [hr_scan_sources.py] read from a scanned device and its advertisement.
    [d_rssi] is the attribute [rssi] of the device object, an integer, when
    the object has one.  The dictionaries of an advertisement are
    association lists in the order in which Python enumerates them; an absent
    dictionary or list ([None]) is the empty one, as [x or {}] makes it. *)

Record BLEDevice := {
  d_address : string;
  d_name : option string;
  d_rssi : option Z
}.

Record BleakAdvertisement := {
  a_local_name : option string;
  a_service_uuids : list string;
  a_service_data : list (string * list byte);
  a_manufacturer_data : list (Z * list byte)
}.

(** [(device.name or "").lower()] *)
Definition dev_name_lower (device : BLEDevice) : string :=
  lower (default EmptyString (truthy (d_name device))).

(** [(getattr(advertisement_data, "local_name", None) or "").lower()] *)
Definition local_name_lower (advertisement_data : BleakAdvertisement) : string :=
  lower (default EmptyString (truthy (a_local_name advertisement_data))).

(** *** [ble_hr_gatt.py] *)

Definition HEART_RATE_SERVICE : string := "0000180d-0000-1000-8000-00805f9b34fb".

Definition match_name (device : BLEDevice) (advertisement_data : BleakAdvertisement)
    (name_substr : option string) : bool :=
  match truthy name_substr with
  | None => true
  | Some name_substr =>
      let want := lower name_substr in
      let dev_name := dev_name_lower device in
      let local_name := local_name_lower advertisement_data in
      contains want dev_name || contains want local_name
  end.

Definition match_service (advertisement_data : BleakAdvertisement)
    (service_uuid : option string) : bool :=
  match truthy service_uuid with
  | None => true
  | Some service_uuid =>
      let uuids := lower <$> a_service_uuids advertisement_data in
      bool_decide (lower service_uuid ∈ uuids)
  end.

(** [getattr(x[0], "rssi", -999)], the sort key of the candidates. *)
Definition rssi_key (x : BLEDevice * BleakAdvertisement) : Z :=
  default (-999) (d_rssi x.1).

(** [l.sort(key=key, reverse=True)]: the sort of Python is stable, also in
    reverse, so that among elements of equal key the earlier stays first.
    [insert_reverse key x l] puts [x] in front of the sorted [l], behind the
    elements of greater key only. *)
Fixpoint insert_reverse {A} (key : A → Z) (x : A) (l : list A) : list A :=
  match l with
  | [] => [x]
  | y :: rest =>
      if key x <? key y then y :: insert_reverse key x rest else x :: y :: rest
  end.

Definition sort_reverse {A} (key : A → Z) (l : list A) : list A :=
  foldr (insert_reverse key) [] l.

(** The loop of [find_device] that collects the candidates. *)
Fixpoint find_candidates (name_substr : option string) (require_service : bool)
    (devices : list (BLEDevice * BleakAdvertisement))
    : list (BLEDevice * BleakAdvertisement) :=
  match devices with
  | [] => []
  | (device, adv) :: rest =>
      if negb (match_name device adv name_substr) then
        find_candidates name_substr require_service rest
      else if require_service && negb (match_service adv (Some HEART_RATE_SERVICE)) then
        find_candidates name_substr require_service rest
      else (device, adv) :: find_candidates name_substr require_service rest
  end.

(** [find_device]; [devices] is what the scan answers, the values of its
    dictionary in the order of their first detection. *)
Definition find_device (name_substr address : option string)
    (devices : list (BLEDevice * BleakAdvertisement)) (require_service : bool)
    : option string :=
  match truthy address with
  | Some address => Some address
  | None =>
      match devices with
      | [] => None
      | _ =>
          let candidates := find_candidates name_substr require_service devices in
          match candidates with
          | [] => None
          | _ =>
              match sort_reverse rssi_key candidates with
              | first :: _ => Some (d_address first.1)
              | [] => None
              end
          end
      end
  end.

(** *** [apple_watch_probe.py] *)

Definition APPLE_MFG_ID : Z := 76.

Definition _name_match (device : BLEDevice) (adv : BleakAdvertisement)
    (needle : string) : bool :=
  match needle with
  | EmptyString => false
  | _ =>
      let needle := lower needle in
      let name := dev_name_lower device in
      let local := local_name_lower adv in
      contains needle name || contains needle local
  end.

Definition is_apple_watch (device : BLEDevice) (adv : BleakAdvertisement)
    (name_hint : string) : bool :=
  let name := dev_name_lower device in
  let local := local_name_lower adv in
  if negb (String.eqb name_hint EmptyString) && _name_match device adv name_hint then true
  else if contains "watch" name || contains "watch" local then true
  else
    let mfg := a_manufacturer_data adv in
    if bool_decide (APPLE_MFG_ID ∈ mfg.*1) then true
    else false.

(** *** [ble_hr_broadcast.py] *)

Definition match_device (name local_name : option string) (address : string)
    (want_name want_addr : option string) : bool :=
  if match truthy want_addr with
     | Some want_addr => negb (String.eqb (lower address) (lower want_addr))
     | None => false
     end
  then false
  else
    match truthy want_name with
    | Some want_name =>
        let name_l := lower (default EmptyString (truthy name)) in
        let local_l := lower (default EmptyString (truthy local_name)) in
        if negb (contains (lower want_name) name_l)
           && negb (contains (lower want_name) local_l)
        then false
        else true
    | None => true
    end.

(** The lines [detection_callback] prints, without their time stamp; the
    dump line stands for the whole advertisement object. *)
Inductive Line :=
| DumpLine (name address : string) (adv : BleakAdvertisement)
| RawLine (name address : string) (svc : list (string * list byte))
    (mfg : list (Z * list byte)) (uuids : list string) (rssi : option Z)
| HRLine (name address : string) (hr : Z).

(** [for _, data in items: candidate = parse_hr_from_payload(bytes(data))],
    left at the first candidate that is not [None]. *)
Fixpoint first_candidate {K} (items : list (K * list byte)) : option Z :=
  match items with
  | [] => None
  | (_, data) :: rest =>
      match parse_hr_from_payload data with
      | Some candidate => Some candidate
      | None => first_candidate rest
      end
  end.

(** [device.name or advertisement_data.local_name or "(unknown)"] *)
Definition shown_name (device : BLEDevice) (advertisement_data : BleakAdvertisement) : string :=
  match truthy (d_name device) with
  | Some name => name
  | None => default "(unknown)" (truthy (a_local_name advertisement_data))
  end.

(** [detection_callback] of [main], under the options [--name], [--address],
    [--raw] and [--dump]. *)
Definition detection_callback (args_name args_address : option string)
    (args_raw args_dump : bool)
    (device : BLEDevice) (advertisement_data : BleakAdvertisement) : list Line :=
  if negb (match_device (d_name device) (a_local_name advertisement_data)
             (d_address device) args_name args_address)
  then []
  else
    let hr := first_candidate (a_service_data advertisement_data) in
    let hr :=
      match hr with
      | None => first_candidate (a_manufacturer_data advertisement_data)
      | Some _ => hr
      end in
    let name := shown_name device advertisement_data in
    if args_dump then [DumpLine name (d_address device) advertisement_data]
    else if args_raw then
      [RawLine name (d_address device) (a_service_data advertisement_data)
         (a_manufacturer_data advertisement_data)
         (a_service_uuids advertisement_data) (d_rssi device)]
    else
      match hr with
      | Some hr => [HRLine name (d_address device) hr]
      | None => []
      end.

(** *** Vocabulary *)

(** A scanned device that [find_device] takes as a candidate. *)
Definition accepted (name_substr : option string) (require_service : bool)
    (x : BLEDevice * BleakAdvertisement) : bool :=
  match_name x.1 x.2 name_substr
  && (negb require_service || match_service x.2 (Some HEART_RATE_SERVICE)).

(** Scanned devices for the examples. *)
Definition strap_far : BLEDevice * BleakAdvertisement :=
  ({| d_address := "AA:01"; d_name := Some "Polar H10"; d_rssi := Some (-80) |},
   {| a_local_name := None; a_service_uuids := [HEART_RATE_SERVICE];
      a_service_data := []; a_manufacturer_data := [] |}).

Definition strap_near : BLEDevice * BleakAdvertisement :=
  ({| d_address := "AA:02"; d_name := None; d_rssi := Some (-50) |},
   {| a_local_name := Some "POLAR Verity"; a_service_uuids := [];
      a_service_data := []; a_manufacturer_data := [] |}).

Definition strap_twin : BLEDevice * BleakAdvertisement :=
  ({| d_address := "AA:03"; d_name := Some "polar oh1"; d_rssi := Some (-50) |},
   {| a_local_name := None; a_service_uuids := [];
      a_service_data := []; a_manufacturer_data := [] |}).

(** A beacon of another kind: manufacturer data that is no heart-rate
    measurement. *)
Definition beacon : BLEDevice * BleakAdvertisement :=
  ({| d_address := "AA:04"; d_name := Some "Tag"; d_rssi := None |},
   {| a_local_name := None; a_service_uuids := [];
      a_service_data := [];
      a_manufacturer_data := [(76, [x02; x15; x00; x01])] |}).

(** ** What the callbacks keep and what they send *)

(** The options of the command line and the two intervals. *)
Definition same_configuration (a b : HRDelegate) : Prop :=
  reconnect_interval a = reconnect_interval b
  ∧ blocked_ttl a = blocked_ttl b
  ∧ outfile a = outfile b
  ∧ name_filters a = name_filters b
  ∧ id_filters a = id_filters b
  ∧ preferred_names a = preferred_names b
  ∧ preferred_grace a = preferred_grace b
  ∧ max_devices a = max_devices b
  ∧ scan_all a = scan_all b.

(** No device is connected and connecting at once, every connecting device
    has a cached handle, and a scan is only ever active on a stored central
    manager. *)
Definition connection_inv (self : HRDelegate) : Prop :=
  (∀ k, k ∈ connected_ids self → k ∉ connecting_ids self)
  ∧ (∀ k, k ∈ connecting_ids self → is_Some (peripherals self !! k))
  ∧ (scanning self = true → central self = true).

(** Every action of [m] satisfies [Q]. *)
Definition emits {A} (Q : Action → Prop) (m : M A) : Prop :=
  ∀ self, Forall Q (actions (m self)).

(** The requests and lines a callback may produce, and the peripheral they
    are about. *)
Definition may_emit (ev : Event) (a : Action) : Prop :=
  match ev, a with
  | DidUpdateState _ retrieved, SetDelegate q => q ∈ retrieved
  | DidUpdateState _ retrieved, ConnectPeripheral q => q ∈ retrieved
  | DidUpdateState _ _, ScanForPeripherals _ => True
  | DidDiscoverPeripheral p _, SetDelegate q => q = p
  | DidDiscoverPeripheral p _, ConnectPeripheral q => q = p
  | DidConnectPeripheral p, DiscoverServices q _ => q = p
  | DidFailToConnectPeripheral _, PrintErr _ => True
  | DidDisconnectPeripheral _, PrintErr _ => True
  | DidDiscoverServices p _, DiscoverCharacteristics q _ s => q = p ∧ s ∈ p_services p
  | DidDiscoverServices p _, CancelPeripheralConnection q => q = p
  | DidDiscoverServices _ _, PrintErr _ => True
  | DidDiscoverCharacteristics p s _, SetNotifyValue q c =>
      q = p ∧ c ∈ service_characteristics s
  | DidDiscoverCharacteristics p _ _, CancelPeripheralConnection q => q = p
  | DidDiscoverCharacteristics _ _ _, PrintErr _ => True
  | DidUpdateValue _ _ _, PrintHR _ _ => True
  | DidUpdateValue _ _ _, OpenOutput _ => True
  | DidUpdateValue p _ _, WriteRecord _ _ _ device_id => device_id = p_identifier p
  | Tick _, PrintErr _ => True
  | Tick _, SetDelegate _ => True
  | Tick _, ConnectPeripheral _ => True
  | Tick _, StopScan => True
  | Tick _, ScanForPeripherals _ => True
  | _, _ => False
  end.

Definition is_open (a : Action) : bool :=
  match a with OpenOutput _ => true | _ => false end.

Definition is_write (a : Action) : bool :=
  match a with WriteRecord _ _ _ _ => true | _ => false end.

(** A device that shows no Heart Rate service. *)
Definition thermometer : Peripheral :=
  {| p_identifier := "FFFF"; p_name := Some "Thermo";
     p_services := [ {| service_UUID := "1809"; service_characteristics := [] |} ] |}.

(** A device that reports no name. *)
Definition nameless : Peripheral :=
  {| p_identifier := "9999"; p_name := None; p_services := [hr_service] |}.

(** A listener that records to a file. *)
Definition recording_args : Args :=
  {| arg_file := Some "hr.jsonl"; arg_name := None; arg_id := None;
     arg_max_devices := None; arg_scan_all := false; arg_preferred := [];
     arg_preferred_grace := 6000 |}.

(** A session in which a thermometer connects and shows its services. *)
Definition thermometer_session : list (Event * Z) :=
  [ (DidUpdateState CBManagerStatePoweredOn [], 0);
    (DidDiscoverPeripheral thermometer None, 100);
    (DidConnectPeripheral thermometer, 200) ].

Definition probing : HRDelegate := run thermometer_session (configure default_args).

(** The discipline of the output file over a trace: the file is opened at
    most once, and a record is written only once it is open.  [opened] says
    whether the file is open before the trace. *)
Fixpoint well_opened (opened : bool) (out : list Action) : bool :=
  match out with
  | [] => true
  | OpenOutput _ :: rest => negb opened && well_opened true rest
  | WriteRecord _ _ _ _ :: rest => opened && well_opened opened rest
  | _ :: rest => well_opened opened rest
  end.

(** The name a notification is printed and recorded under. *)
Definition shown_label (peripheral : Peripheral) (self : HRDelegate) : string :=
  match truthy (p_name peripheral) with
  | Some name => name
  | None => label_of (p_identifier peripheral) self
  end.

(** The session of the thermometer once its services are known: the device
    is blocked until 60300. *)
Definition ignoring : HRDelegate :=
  run (thermometer_session ++ [(DidDiscoverServices thermometer false, 300)])
    (configure default_args).

(** [m] returns, and leaves the central manager stored. *)
Definition returns_ready (m : M unit) (self : HRDelegate) : Prop :=
  result (m self) = Some tt ∧ central (state_of (m self)) = true.

(** ** The name cache after an update

    The cached names once the name of [peripheral] has been updated from
    [advertisementData]: an advertised local name has priority, the device
    name comes next, and with neither the cache stays as it is. *)
Definition names_after (peripheral : Peripheral)
    (advertisementData : option AdvertisementData)
    (names : gmap string string) : gmap string string :=
  match adv_local_name advertisementData, truthy (p_name peripheral) with
  | Some adv_name, _ => <[p_identifier peripheral := adv_name]> names
  | None, Some name => <[p_identifier peripheral := name]> names
  | None, None => names
  end.

(** The names the loop over the retrieved peripherals leaves in the cache:
    an entry is left alone, or it is the device name of a retrieved
    peripheral of that identifier. *)
Definition retrieved_names (retrieved : list Peripheral)
    (before after : gmap string string) : Prop :=
  ∀ device_id,
    after !! device_id = before !! device_id
    ∨ ∃ peripheral name,
        peripheral ∈ retrieved
        ∧ p_identifier peripheral = device_id
        ∧ truthy (p_name peripheral) = Some name
        ∧ after !! device_id = Some name.

(** ** A tick and a callback at once

    [main] has the callbacks delivered on a dispatch queue of their own while
    [tick] runs on the main thread, and nothing locks the delegate: a callback
    can run while a tick is under way, at the calls into the stack and at the
    prints of the loop. *)

(** What is left of an iteration of the main loop of [tick] once it has found
    the device neither connected nor connecting and has read its cached
    handle: the statements from [peripheral.setDelegate_(self)] on. *)
Definition tick_connect (now : Z) (device_id : string) (peripheral : Peripheral) : M unit :=
  try_pass (emit (SetDelegate peripheral)) ;;
  modify (λ self,
    set_connecting_ids ({[device_id]} ∪ connecting_ids self) self) ;;
  self ← get;
  emit (PrintErr (MsgReconnectAttemptConnect (label_of device_id self))) ;;
  central_connect peripheral ;;
  pending_setitem device_id (now + reconnect_interval self).

(** A pass of the main loop of [tick] over the snapshot [before ++ after]
    during which the callback [ev] runs, at the time [when], once the entries
    of [before] have been visited. *)
Definition tick_interrupted (now : Z) (before : list (string * Z))
    (ev : Event) (when : Z) (after : list (string * Z)) : M unit :=
  for_each before (tick_entry now) ;;
  handle ev when ;;
  for_each after (tick_entry now).

(** A session in which two straps drop out and a tick asks the stack to
    connect to both again: both are connecting, with a pending entry for
    11200. *)
Definition two_straps : list (Event * Z) :=
  [ (DidUpdateState CBManagerStatePoweredOn [], 0);
    (DidDiscoverPeripheral polar None, 100);
    (DidConnectPeripheral polar, 200);
    (DidDiscoverPeripheral wahoo None, 300);
    (DidConnectPeripheral wahoo, 400);
    (DidDisconnectPeripheral polar, 1000);
    (DidDisconnectPeripheral wahoo, 1100);
    (Tick CBManagerStatePoweredOn, 6200) ].

Definition retrying : HRDelegate := run two_straps (configure default_args).

(** * Properties *)

(** Unfolds the plumbing of a computation down to pairs and matches. *)
Ltac unfold_M :=
  unfold pending_setitem, pending_delitem, connecting_remove, connected_remove,
    central_connect, central_cancel in *;
  unfold skip, raise, get, modify, emit, try_pass, result, state_of, actions,
    mbind, M_bind, mret, M_ret in *.

Ltac list_mem :=
  repeat first [ by apply elem_of_cons; left | apply elem_of_cons; right ].

Ltac list_not_mem :=
  let H := fresh "Hin" in
  intros H;
  repeat (apply elem_of_cons in H as [H|H]; [discriminate H|]);
  by apply elem_of_nil in H.

(** ** The decoder *)

Lemma land_1_testbit (z : Z) : negb (Z.land z 1 =? 0) = Z.testbit z 0.
Proof.
  change 1 with (Z.ones 1). rewrite Z.land_ones by lia.
  rewrite Z.bit0_odd, Zodd_mod. change (2 ^ 1) with 2.
  destruct (Z.mod_pos_bound z 2 ltac:(lia)) as [? ?].
  destruct (Z.eqb_spec (z mod 2) 0) as [->|?]; [done|].
  destruct (Z.eqb_spec (z mod 2) 1) as [?|?]; [done|lia].
Qed.

Lemma parse_corebluetooth_spec data :
  ble_hr_corebluetooth.parse_hr_measurement data = decode_spec data.
Proof.
  unfold ble_hr_corebluetooth.parse_hr_measurement, decode_spec, too_short.
  rewrite land_1_testbit.
  destruct data as [|f [|b1 [|b2 rest]]]; simpl; try done;
    case_match; simpl; try done.
  unfold getitem; simpl. f_equal. lia.
Qed.

(** The decoded value is a byte or a 16-bit quantity. *)
Lemma byte_val_range b : 0 <= byte_val b < 256.
Proof.
  unfold byte_val. pose proof (Byte.to_N_bounded b) as Hb. lia.
Qed.

Lemma getitem_range data i : 0 <= getitem data i < 256.
Proof.
  unfold getitem. destruct (data !! i) as [b|]; simpl; [apply byte_val_range|lia].
Qed.

Lemma decode_spec_range data bpm : decode_spec data = Some bpm → 0 <= bpm < 65536.
Proof.
  unfold decode_spec. intros H.
  pose proof (getitem_range data 1). pose proof (getitem_range data 2).
  repeat case_match; simplify_eq; lia.
Qed.

(** C4: each of the three copies of [parse_hr_measurement] computes the
    decoder of the design document: no value for a payload shorter than two
    bytes; with bit 0 of byte 0 set, the 16-bit little-endian value of bytes
    1-2, and no value when there are fewer than three bytes; with bit 0 clear,
    the value of byte 1.  The three copies therefore agree on every input. *)
Theorem parse_hr_measurement_decodes (data : list byte) :
  ble_hr_corebluetooth.parse_hr_measurement data = decode_spec data
  ∧ ble_hr_gatt.parse_hr_measurement data = decode_spec data
  ∧ apple_watch_probe.parse_hr_measurement data = decode_spec data
  ∧ ble_hr_corebluetooth.parse_hr_measurement data
    = ble_hr_gatt.parse_hr_measurement data
  ∧ ble_hr_gatt.parse_hr_measurement data
    = apple_watch_probe.parse_hr_measurement data.
Proof.
  pose proof (parse_corebluetooth_spec data) as Hcb.
  assert (ble_hr_gatt.parse_hr_measurement data
          = ble_hr_corebluetooth.parse_hr_measurement data) as Hg by reflexivity.
  assert (apple_watch_probe.parse_hr_measurement data
          = ble_hr_corebluetooth.parse_hr_measurement data) as Hp by reflexivity.
  rewrite Hg, Hp. auto.
Qed.

(** The payloads of the design document's test list. *)
Example decode_8bit :
  ble_hr_corebluetooth.parse_hr_measurement [x00; x48] = Some 72.
Proof. reflexivity. Qed.

Example decode_16bit :
  ble_hr_corebluetooth.parse_hr_measurement [x01; x48; x00] = Some 72.
Proof. reflexivity. Qed.

Example decode_16bit_short :
  ble_hr_corebluetooth.parse_hr_measurement [x01; x01] = None.
Proof. reflexivity. Qed.

Example decode_empty : ble_hr_corebluetooth.parse_hr_measurement [] = None.
Proof. reflexivity. Qed.

(** ** Notifications that do not decode *)

(** C8: a notification whose payload does not decode writes no record and
    prints nothing, and leaves the whole delegate as it was, in particular
    the connected set, the connecting set, the pending reconnects and the
    block list. *)
Theorem undecodable_notification_dropped
    (self : HRDelegate) (peripheral : Peripheral) (characteristic : Characteristic)
    (value : list byte) (error : bool) (now : Z) :
  char_value characteristic = Some value →
  ble_hr_corebluetooth.parse_hr_measurement value = None →
  let r := peripheral_didUpdateValueForCharacteristic_error_
             peripheral characteristic error now self in
  result r = Some tt
  ∧ actions r = []
  ∧ state_of r = self
  ∧ connected_ids (state_of r) = connected_ids self
  ∧ connecting_ids (state_of r) = connecting_ids self
  ∧ pending_reconnect (state_of r) = pending_reconnect self
  ∧ blocked_ids (state_of r) = blocked_ids self.
Proof.
  intros Hvalue Hparse r. subst r.
  unfold peripheral_didUpdateValueForCharacteristic_error_.
  rewrite Hvalue, Hparse. destruct error; unfold_M; simpl; auto 10.
Qed.

Lemma undecodable_notification_dropped_witness :
  state_of (peripheral_didUpdateValueForCharacteristic_error_
              polar short_beat false 700 waiting) = waiting
  ∧ actions (peripheral_didUpdateValueForCharacteristic_error_
               polar short_beat false 700 waiting) = [].
Proof.
  pose proof (undecodable_notification_dropped waiting polar short_beat [x01; x01]
                false 700 eq_refl eq_refl) as (_ & Hout & Hsame & _).
  split; [exact Hsame|exact Hout].
Defined.

(** ** The scan controller *)

(** C9: [_start_scan] while a scan is active, and [_stop_scan] while none is,
    return normally, send nothing to the stack and leave the delegate, with its
    scan-start time, as it was. *)
Theorem scan_start_stop_noop (self : HRDelegate) (now : Z) :
  (scanning self = true → _start_scan now self = (Some tt, self, []))
  ∧ (scanning self = false → _stop_scan self = (Some tt, self, [])).
Proof.
  split; intros Hs; unfold _start_scan, _stop_scan; unfold_M; simpl;
    rewrite Hs; destruct (central self); reflexivity.
Qed.

Lemma scan_start_stop_noop_witness :
  _start_scan 2000 watching = (Some tt, watching, [])
  ∧ _stop_scan init = (Some tt, init, []).
Proof.
  split.
  - apply (proj1 (scan_start_stop_noop watching 2000)). by vm_compute.
  - apply (proj2 (scan_start_stop_noop init 0)). reflexivity.
Defined.

(** ** Scheduling a reconnect *)

Lemma schedule_reconnect_pending self device_id reason now :
  is_Some (pending_reconnect self !! device_id) →
  _schedule_reconnect device_id reason now self = (Some tt, self, []).
Proof.
  intros Hp. unfold _schedule_reconnect. unfold_M. simpl.
  destruct (decide _); [reflexivity|contradiction].
Qed.

(** C10: [_schedule_reconnect] for a device that already has a pending
    entry changes nothing, so the entry keeps its earlier time; hence a
    failure callback for such a device leaves the pending map as it was. *)
Theorem schedule_reconnect_idempotent
    (self : HRDelegate) (device_id reason : string) (ts now : Z) :
  pending_reconnect self !! device_id = Some ts →
  _schedule_reconnect device_id reason now self = (Some tt, self, [])
  ∧ (∀ peripheral ev, p_identifier peripheral = device_id →
       failure_event peripheral ev →
       pending_reconnect (state_of (handle ev now self)) = pending_reconnect self).
Proof.
  intros Hts. assert (is_Some (pending_reconnect self !! device_id)) as Hp by eauto.
  split; [by apply schedule_reconnect_pending|].
  intros peripheral ev <- Hev.
  destruct Hev; simpl.
  - unfold centralManager_didFailToConnectPeripheral_error_. unfold_M. simpl.
    destruct (decide (_ ∈ connecting_ids self)); simpl.
    + destruct (decide (_ ∈ connecting_ids self)); [|contradiction]. simpl.
      rewrite schedule_reconnect_pending by (simpl; done). reflexivity.
    + rewrite schedule_reconnect_pending by (simpl; done). reflexivity.
  - unfold centralManager_didDisconnectPeripheral_error_. unfold_M. simpl.
    destruct (decide (_ ∈ connected_ids self)); simpl.
    + destruct (decide (_ ∈ connected_ids self)); [|contradiction]. simpl.
      destruct (blocked_ids self !! _) as [until|]; [destruct (now <? until)|];
        simpl; rewrite ?schedule_reconnect_pending by (simpl; done); reflexivity.
    + destruct (blocked_ids self !! _) as [until|]; [destruct (now <? until)|];
        simpl; rewrite ?schedule_reconnect_pending by (simpl; done); reflexivity.
  - unfold peripheral_didDiscoverServices_.
    rewrite schedule_reconnect_pending by done. reflexivity.
  - unfold peripheral_didDiscoverCharacteristicsForService_error_.
    rewrite schedule_reconnect_pending by done. reflexivity.
Qed.

Lemma schedule_reconnect_idempotent_witness :
  _schedule_reconnect "AAAA" "Connect failed." 7000 waiting = (Some tt, waiting, [])
  ∧ pending_reconnect (state_of (handle (DidFailToConnectPeripheral polar) 7000 waiting))
    = pending_reconnect waiting.
Proof.
  assert (pending_reconnect waiting !! "AAAA" = Some 6000) as Hpending by (by vm_compute).
  pose proof (schedule_reconnect_idempotent waiting "AAAA" "Connect failed." 6000 7000
                Hpending) as [Hsame Hevents].
  split; [exact Hsame|].
  apply (Hevents polar); [reflexivity|constructor].
Defined.

(** ** The methods in closed form *)

(** What [_update_name] leaves in the name cache. *)
Lemma update_name_result self peripheral advertisementData :
  _update_name peripheral advertisementData self =
  (Some tt,
   match adv_local_name advertisementData, truthy (p_name peripheral) with
   | Some adv_name, _ =>
       set_name_by_id (<[p_identifier peripheral := adv_name]> (name_by_id self)) self
   | None, Some name =>
       set_name_by_id (<[p_identifier peripheral := name]> (name_by_id self)) self
   | None, None => self
   end, []).
Proof.
  unfold _update_name, adv_local_name.
  destruct advertisementData as [adv|]; simpl;
    repeat case_match; simplify_eq; reflexivity.
Qed.

Lemma expire_block_cases now device_id self :
  expire_block now device_id self = self
  ∨ expire_block now device_id self
    = set_blocked_ids (delete device_id (blocked_ids self)) self.
Proof. unfold expire_block. repeat case_match; auto. Qed.

Lemma expire_block_name_by_id now device_id self :
  name_by_id (expire_block now device_id self) = name_by_id self.
Proof. unfold expire_block. repeat case_match; reflexivity. Qed.

Lemma match_device_result self peripheral advertisementData now :
  _match_device peripheral advertisementData now self
  = (Some (negb (is_blocked now (p_identifier peripheral) self)
           && passes_filters peripheral advertisementData self),
     expire_block now (p_identifier peripheral) self, []).
Proof.
  unfold _match_device, is_blocked, expire_block, passes_filters. unfold_M. simpl.
  destruct (blocked_ids self !! p_identifier peripheral) as [until|]; simpl;
    [destruct (now <? until); simpl; [reflexivity|]|];
    destruct (id_filters self) as [|want1 wants1]; simpl;
    destruct (name_filters self) as [|want2 wants2]; simpl;
    repeat (match goal with |- context [negb ?b] => destruct b end; simpl);
    reflexivity.
Qed.

Lemma match_device_blocked peripheral advertisementData now self :
  is_blocked now (p_identifier peripheral) self = true →
  _match_device peripheral advertisementData now self = (Some false, self, []).
Proof.
  intros Hb. rewrite match_device_result, Hb. simpl.
  unfold is_blocked, expire_block in *.
  destruct (blocked_ids self !! p_identifier peripheral); [|done]. by rewrite Hb.
Qed.

(** X28: once its block has expired, a device is matched on the filters
    alone again, and [_match_device] forgets the block. *)
Lemma match_device_after_expiry peripheral advertisementData now until self :
  blocked_ids self !! p_identifier peripheral = Some until → until ≤ now →
  let r := _match_device peripheral advertisementData now self in
  result r = Some (passes_filters peripheral advertisementData self)
  ∧ blocked_ids (state_of r) !! p_identifier peripheral = None.
Proof.
  intros Hb Hexp. rewrite match_device_result. unfold is_blocked, expire_block.
  rewrite Hb. assert ((now <? until) = false) as -> by by apply Z.ltb_ge.
  unfold result, state_of. simpl. by rewrite lookup_delete_eq.
Qed.

Lemma connect_peripheral_result peripheral advertisementData self :
  _connect_peripheral peripheral advertisementData self
  = let device_id := p_identifier peripheral in
    if decide (device_id ∈ connected_ids self ∨ device_id ∈ connecting_ids self)
    then (Some tt, self, [])
    else
      (if central self then Some tt else None,
       set_connecting_ids ({[device_id]} ∪ connecting_ids self)
         (state_of (_update_name peripheral advertisementData
            (set_peripherals (<[device_id := peripheral]> (peripherals self)) self))),
       SetDelegate peripheral
         :: (if central self then [ConnectPeripheral peripheral] else [])).
Proof.
  unfold _connect_peripheral. unfold_M. cbn beta iota zeta.
  destruct (decide _); [done|].
  rewrite update_name_result. simpl.
  destruct (adv_local_name advertisementData), (truthy (p_name peripheral));
    simpl; destruct (central self); reflexivity.
Qed.

Lemma connect_peripheral_name self peripheral advertisementData adv_name :
  adv_local_name advertisementData = Some adv_name →
  name_by_id self !! p_identifier peripheral = Some adv_name →
  name_by_id (state_of (_connect_peripheral peripheral advertisementData self))
    !! p_identifier peripheral = Some adv_name.
Proof.
  intros Hadv Hcached. unfold _connect_peripheral. unfold_M. simpl.
  destruct (decide _); simpl; [done|].
  rewrite update_name_result, Hadv. simpl.
  destruct (central self); simpl; apply lookup_insert_eq.
Qed.

Lemma is_preferred_ext peripheral advertisementData self1 self2 :
  preferred_names self1 = preferred_names self2 →
  _is_preferred peripheral advertisementData self1
  = _is_preferred peripheral advertisementData self2.
Proof. unfold _is_preferred. by intros ->. Qed.

Lemma should_defer_ext now self1 self2 :
  preferred_names self1 = preferred_names self2 →
  last_scan_start self1 = last_scan_start self2 →
  preferred_grace self1 = preferred_grace self2 →
  _should_defer_non_preferred now self1 = _should_defer_non_preferred now self2.
Proof. unfold _should_defer_non_preferred. by intros -> -> ->. Qed.

Lemma at_capacity_ext self1 self2 :
  connected_ids self1 = connected_ids self2 →
  connecting_ids self1 = connecting_ids self2 →
  max_devices self1 = max_devices self2 →
  _at_capacity self1 = _at_capacity self2.
Proof. unfold _at_capacity. by intros -> -> ->. Qed.

Lemma seen_frame peripheral advertisementData now self :
  let self1 := seen peripheral advertisementData now self in
  connected_ids self1 = connected_ids self
  ∧ connecting_ids self1 = connecting_ids self
  ∧ pending_reconnect self1 = pending_reconnect self
  ∧ max_devices self1 = max_devices self
  ∧ preferred_names self1 = preferred_names self
  ∧ last_scan_start self1 = last_scan_start self
  ∧ preferred_grace self1 = preferred_grace self
  ∧ central self1 = central self.
Proof.
  unfold seen. rewrite update_name_result. unfold state_of. simpl.
  match goal with |- context [expire_block ?n ?i ?s] =>
    destruct (expire_block_cases n i s) as [-> | ->] end;
    destruct (adv_local_name advertisementData), (truthy (p_name peripheral));
    simpl; auto 10.
Qed.

Lemma discover_result peripheral advertisementData now self :
  centralManager_didDiscoverPeripheral_advertisementData_RSSI_
    peripheral advertisementData now self
  = let self1 := seen peripheral advertisementData now self in
    if negb (is_blocked now (p_identifier peripheral) self)
       && passes_filters peripheral advertisementData self
       && negb (negb (_is_preferred peripheral advertisementData self)
                && _should_defer_non_preferred now self)
       && negb (_at_capacity self)
    then _connect_peripheral peripheral advertisementData self1
    else (Some tt, self1, []).
Proof.
  pose proof (seen_frame peripheral advertisementData now self)
    as (Hcd & Hcg & Hpd & Hm & Hpn & Hls & Hpg & Hc).
  unfold centralManager_didDiscoverPeripheral_advertisementData_RSSI_.
  unfold_M. cbn beta iota zeta.
  unfold seen in *. rewrite update_name_result in *. unfold state_of in *. simpl in *.
  rewrite match_device_result.
  match goal with |- context [is_blocked ?n ?i ?s] =>
    replace (is_blocked n i s) with (is_blocked now (p_identifier peripheral) self)
      by (unfold is_blocked;
          by destruct (adv_local_name advertisementData), (truthy (p_name peripheral)))
  end.
  match goal with |- context [passes_filters ?p ?a ?s] =>
    replace (passes_filters p a s) with (passes_filters peripheral advertisementData self)
      by (unfold passes_filters;
          by destruct (adv_local_name advertisementData), (truthy (p_name peripheral)))
  end.
  match goal with |- context [expire_block ?n ?i ?s] =>
    set (self1 := expire_block n i s) in * end.
  clearbody self1. cbn beta iota zeta.
  destruct (negb (is_blocked _ _ _) && passes_filters _ _ _); simpl; [|done].
  rewrite (is_preferred_ext peripheral advertisementData self1 self Hpn).
  rewrite (should_defer_ext now self1 self Hpn Hls Hpg).
  rewrite (at_capacity_ext self1 self Hcd Hcg Hm).
  destruct (negb (_is_preferred _ _ _) && _should_defer_non_preferred _ _);
    simpl; [done|].
  destruct (_at_capacity self); simpl; [done|].
  by destruct (_connect_peripheral peripheral advertisementData self1) as [[r s] out].
Qed.

Lemma disconnect_result peripheral now self :
  centralManager_didDisconnectPeripheral_error_ peripheral now self
  = let device_id := p_identifier peripheral in
    let self1 := set_connected_ids (connected_ids self ∖ {[device_id]})
                   (set_connected false self) in
    if is_blocked now device_id self
    then (Some tt, self1, [PrintErr MsgDisconnected])
    else
      match _schedule_reconnect device_id "Disconnected." now self1 with
      | (r, self2, out) => (r, self2, PrintErr MsgDisconnected :: out)
      end.
Proof.
  assert (∀ X : gset string, p_identifier peripheral ∉ X →
            X = X ∖ {[p_identifier peripheral]}) as Hsame.
  { intros X Hout. symmetry. by apply difference_disjoint_L, disjoint_singleton_r. }
  unfold centralManager_didDisconnectPeripheral_error_, is_blocked. unfold_M. simpl.
  destruct (decide (p_identifier peripheral ∈ connected_ids self)) as [Hin|Hout]; simpl.
  - destruct (decide (p_identifier peripheral ∈ connected_ids self)); [|done]. simpl.
    destruct (blocked_ids self !! p_identifier peripheral) as [until|];
      [destruct (now <? until)|]; simpl; try done;
      by destruct (_schedule_reconnect _ _ _ _) as [[? ?] ?].
  - rewrite <- (Hsame _ Hout).
    assert (set_connected_ids (connected_ids self) (set_connected false self)
            = set_connected false self) as -> by (by destruct self).
    destruct (blocked_ids self !! p_identifier peripheral) as [until|];
      [destruct (now <? until)|]; simpl; try done;
      by destruct (_schedule_reconnect _ _ _ _) as [[? ?] ?].
Qed.

(** ** Invariants of the callbacks

    [preserves P m]: running [m] from a delegate that satisfies [P] ends in
    one that does, whether [m] returns or raises. *)

Section Preserves.
Context (P : HRDelegate → Prop).

Lemma preserves_ret {A} (a : A) : preserves P (mret a).
Proof. intros self H. exact H. Qed.

Lemma preserves_skip : preserves P skip.
Proof. intros self H. exact H. Qed.

Lemma preserves_get : preserves P get.
Proof. intros self H. exact H. Qed.

Lemma preserves_emit a : preserves P (emit a).
Proof. intros self H. exact H. Qed.

Lemma preserves_raise {A} : preserves P (@raise A).
Proof. intros self H. exact H. Qed.

Lemma preserves_modify f : (∀ self, P self → P (f self)) → preserves P (modify f).
Proof. intros Hf self H. by apply Hf. Qed.

Lemma preserves_bind {A B} (m : M A) (k : A → M B) :
  preserves P m → (∀ a, preserves P (k a)) → preserves P (m ≫= k).
Proof.
  intros Hm Hk self H. specialize (Hm self H).
  unfold state_of, mbind, M_bind in *.
  destruct (m self) as [[[a|] self1] out1]; simpl in *; [|done].
  specialize (Hk a self1 Hm). unfold state_of in Hk.
  by destruct (k a self1) as [[r self2] out2].
Qed.

Lemma preserves_try_pass m : preserves P m → preserves P (try_pass m).
Proof.
  intros Hm self H. specialize (Hm self H). unfold state_of, try_pass in *.
  by destruct (m self) as [[[[]|] self1] out1].
Qed.

Lemma preserves_for_each {A} (xs : list A) body :
  (∀ x, preserves P (body x)) → preserves P (for_each xs body).
Proof.
  intros Hbody. induction xs as [|x rest IH]; simpl.
  - apply preserves_skip.
  - apply preserves_bind; [apply Hbody|intros _; apply IH].
Qed.
End Preserves.

(** Walks through a computation with the rules above; [leaf] closes the
    obligations of the assignments and of the methods proved apart. *)
Ltac preserves_with leaf :=
  repeat first
    [ solve [leaf]
    | match goal with
      | |- preserves _ skip => apply preserves_skip
      | |- preserves _ (mret _) => apply preserves_ret
      | |- preserves _ get => apply preserves_get
      | |- preserves _ (emit _) => apply preserves_emit
      | |- preserves _ raise => apply preserves_raise
      | |- preserves _ (try_pass _) => apply preserves_try_pass
      | |- preserves _ (for_each _ _) => apply preserves_for_each; intros ?
      | |- preserves _ (_ ≫= _) => apply preserves_bind; [|intros ?]
      | |- preserves _ (modify _) => apply preserves_modify; intros ? ?
      | |- preserves _ (if ?c then _ else _) => destruct c
      | |- preserves _ (match ?x with _ => _ end) => destruct x
      end
    | progress unfold pending_setitem, pending_delitem, connecting_remove,
        connected_remove, central_connect, central_cancel, _write_hr,
        _schedule_reconnect, _reset_reconnect, tick_not_ready, tick_entry, tick,
        _match_device, _update_name, _block_device, _connect_peripheral,
        centralManagerDidUpdateState_,
        centralManager_didDiscoverPeripheral_advertisementData_RSSI_,
        centralManager_didConnectPeripheral_,
        centralManager_didFailToConnectPeripheral_error_,
        centralManager_didDisconnectPeripheral_error_,
        peripheral_didDiscoverServices_,
        peripheral_didDiscoverCharacteristicsForService_error_,
        peripheral_didUpdateValueForCharacteristic_error_ ].

(** ** Display names *)

Lemma update_name_names self peripheral advertisementData :
  name_by_id (state_of (_update_name peripheral advertisementData self))
  = names_after peripheral advertisementData (name_by_id self).
Proof.
  rewrite update_name_result. unfold state_of, names_after. simpl.
  by destruct (adv_local_name advertisementData), (truthy (p_name peripheral)).
Qed.

Lemma names_after_idemp peripheral advertisementData names :
  names_after peripheral advertisementData
    (names_after peripheral advertisementData names)
  = names_after peripheral advertisementData names.
Proof.
  unfold names_after.
  destruct (adv_local_name advertisementData), (truthy (p_name peripheral));
    by rewrite ?insert_insert_eq.
Qed.

Lemma connect_peripheral_names self peripheral advertisementData :
  name_by_id (state_of (_connect_peripheral peripheral advertisementData self))
  = if decide (p_identifier peripheral ∈ connected_ids self
               ∨ p_identifier peripheral ∈ connecting_ids self)
    then name_by_id self
    else names_after peripheral advertisementData (name_by_id self).
Proof.
  rewrite connect_peripheral_result. cbn zeta.
  destruct (decide _); [done|].
  unfold state_of at 1. simpl. by rewrite update_name_names.
Qed.

Lemma discover_names self peripheral advertisementData now :
  name_by_id
    (state_of (centralManager_didDiscoverPeripheral_advertisementData_RSSI_
                 peripheral advertisementData now self))
  = names_after peripheral advertisementData (name_by_id self).
Proof.
  rewrite discover_result. cbn zeta.
  assert (name_by_id (seen peripheral advertisementData now self)
          = names_after peripheral advertisementData (name_by_id self)) as Hseen.
  { unfold seen. by rewrite expire_block_name_by_id, update_name_names. }
  case_match.
  - rewrite connect_peripheral_names, Hseen.
    destruct (decide _); [done|]. apply names_after_idemp.
  - exact Hseen.
Qed.

Lemma retrieved_names_update L names0 peripheral names :
  peripheral ∈ L →
  retrieved_names L names0 names →
  retrieved_names L names0 (names_after peripheral None names).
Proof.
  intros Hin Hnames device_id. unfold names_after, adv_local_name. simpl.
  destruct (truthy (p_name peripheral)) as [name|] eqn:Hname; [|apply Hnames].
  destruct (decide (device_id = p_identifier peripheral)) as [->|Hne].
  - right. exists peripheral, name. by rewrite lookup_insert_eq.
  - rewrite lookup_insert_ne by done. apply Hnames.
Qed.

Lemma connect_peripheral_retrieved L names0 peripheral :
  peripheral ∈ L →
  preserves (λ self, retrieved_names L names0 (name_by_id self))
    (_connect_peripheral peripheral None).
Proof.
  intros Hin self Hnames. cbv beta. rewrite connect_peripheral_names.
  destruct (decide _); [done|]. by apply retrieved_names_update.
Qed.

Ltac names_leaf :=
  idtac;
  lazymatch goal with
  | |- preserves _ _ => fail
  | |- _ =>
      cbv beta in *;
      match goal with
      | H : retrieved_names ?L ?n _ |- retrieved_names ?L ?n _ => exact H
      end
  end.

Lemma start_scan_retrieved L names0 now :
  preserves (λ self, retrieved_names L names0 (name_by_id self)) (_start_scan now).
Proof. unfold _start_scan. preserves_with names_leaf. Qed.

Lemma connect_retrieved_names L names0 retrieved now :
  (∀ peripheral, peripheral ∈ retrieved → peripheral ∈ L) →
  preserves (λ self, retrieved_names L names0 (name_by_id self))
    (connect_retrieved retrieved now).
Proof.
  induction retrieved as [|peripheral rest IH]; intros Hsub; cbn [connect_retrieved].
  - apply preserves_skip.
  - assert (peripheral ∈ L) as Hin by (apply Hsub; by left).
    assert (preserves (λ self, retrieved_names L names0 (name_by_id self))
              (connect_retrieved rest now)) as IH'.
    { apply IH. intros p Hp. apply Hsub. by right. }
    preserves_with ltac:(idtac; lazymatch goal with
                         | |- preserves _ (connect_retrieved _ _) => exact IH'
                         | |- preserves _ (_connect_peripheral _ _) =>
                             by apply connect_peripheral_retrieved
                         | |- _ => names_leaf
                         end).
Qed.

Lemma update_state_names state retrieved now self :
  retrieved_names retrieved (name_by_id self)
    (name_by_id (state_of (centralManagerDidUpdateState_ state retrieved now self))).
Proof.
  assert (retrieved_names retrieved (name_by_id self) (name_by_id self)) as Hstart
    by (intros device_id; by left).
  revert Hstart. generalize (name_by_id self) at 1 3. intros names0. revert self.
  change (preserves (λ self, retrieved_names retrieved names0 (name_by_id self))
            (centralManagerDidUpdateState_ state retrieved now)).
  unfold centralManagerDidUpdateState_.
  preserves_with ltac:(idtac; lazymatch goal with
                       | |- preserves _ (connect_retrieved _ _) =>
                           by apply connect_retrieved_names
                       | |- preserves _ (_start_scan _) => apply start_scan_retrieved
                       | |- _ => names_leaf
                       end).
Qed.

Lemma start_scan_names now self :
  name_by_id (state_of (_start_scan now self)) = name_by_id self.
Proof.
  unfold _start_scan. unfold_M. simpl.
  by destruct (negb (central self) || scanning self).
Qed.

Lemma expire_block_sets now device_id self :
  connected_ids (expire_block now device_id self) = connected_ids self
  ∧ connecting_ids (expire_block now device_id self) = connecting_ids self.
Proof. by destruct (expire_block_cases now device_id self) as [-> | ->]. Qed.

Lemma update_state_single_names state peripheral now self :
  name_by_id (state_of (centralManagerDidUpdateState_ state [peripheral] now self))
  = if is_powered_on state
       && negb (_at_capacity self)
       && negb (is_blocked now (p_identifier peripheral) self)
       && passes_filters peripheral None self
       && negb (bool_decide (p_identifier peripheral ∈ connected_ids self
                             ∨ p_identifier peripheral ∈ connecting_ids self))
    then names_after peripheral None (name_by_id self)
    else name_by_id self.
Proof.
  unfold centralManagerDidUpdateState_. cbn [connect_retrieved].
  destruct (is_powered_on state); [|done]. cbn [negb andb].
  unfold mbind, M_bind, modify, get, skip, mret, M_ret. cbn beta iota.
  change (_at_capacity (set_central true self)) with (_at_capacity self).
  destruct (_at_capacity self); cbn [negb andb]; cbn beta iota.
  { unfold state_of. cbn beta iota.
    destruct (_start_scan now (set_central true self)) as [[r s] out] eqn:Hscan.
    cbn [fst snd].
    pose proof (start_scan_names now (set_central true self)) as Hn.
    rewrite Hscan in Hn. exact Hn. }
  rewrite match_device_result. cbn beta iota.
  change (is_blocked now (p_identifier peripheral) (set_central true self))
    with (is_blocked now (p_identifier peripheral) self).
  change (passes_filters peripheral None (set_central true self))
    with (passes_filters peripheral None self).
  set (s1 := expire_block now (p_identifier peripheral) (set_central true self)).
  assert (name_by_id s1 = name_by_id self) as Hn1
    by (subst s1; by rewrite expire_block_name_by_id).
  destruct (expire_block_sets now (p_identifier peripheral) (set_central true self))
    as [Hcd Hcg]. fold s1 in Hcd, Hcg. simpl in Hcd, Hcg.
  destruct (negb (is_blocked _ _ _) && passes_filters _ _ _); cbn [negb andb];
    cbn beta iota.
  - pose proof (connect_peripheral_names s1 peripheral None) as Hn2.
    rewrite Hcd, Hcg, Hn1 in Hn2.
    unfold state_of in *.
    destruct (_connect_peripheral peripheral None s1) as [[[[]|] s2] out2];
      cbn [fst snd] in *.
    + pose proof (start_scan_names now s2) as Hn3. unfold state_of in Hn3.
      destruct (_start_scan now s2) as [[r3 s3] out3]. cbn [fst snd] in *.
      rewrite Hn3, Hn2. by destruct (decide _); [rewrite bool_decide_true|rewrite bool_decide_false].
    + rewrite Hn2. by destruct (decide _); [rewrite bool_decide_true|rewrite bool_decide_false].
  - pose proof (start_scan_names now s1) as Hn3. unfold state_of in *.
    destruct (_start_scan now s1) as [[r3 s3] out3]. cbn [fst snd] in *.
    by rewrite Hn3.
Qed.

(** C7, as the code has it: within one update an advertised local name has
    priority and overwrites whatever is cached, so a discovery that carries
    one leaves it in the cache; an update without an advertised name writes
    the device name over whatever is cached, whether that came from an
    advertisement or not, and with neither name the cache is left alone.
    This holds of every update: of [_update_name] itself, of the notification
    callback, of a discovery with or without an advertised name, of
    [_connect_peripheral] on a retrieved peripheral, which updates the name
    unless the device is connected or connecting, of a state update that
    retrieves this one peripheral, which updates the name exactly when it
    connects to it, and of the loop over any retrieved peripherals, which
    leaves an entry alone or replaces it by the device name of a retrieved
    peripheral. *)
Theorem display_name_updates
    (self : HRDelegate) (peripheral : Peripheral) (now : Z) :
  let device_id := p_identifier peripheral in
  (∀ adv adv_name,
     adv_local_name (Some adv) = Some adv_name →
     name_by_id
       (state_of (centralManager_didDiscoverPeripheral_advertisementData_RSSI_
                    peripheral (Some adv) now self)) !! device_id = Some adv_name)
  ∧ (∀ characteristic value hr,
       char_value characteristic = Some value →
       ble_hr_corebluetooth.parse_hr_measurement value = Some hr →
       name_by_id
         (state_of (peripheral_didUpdateValueForCharacteristic_error_
                      peripheral characteristic false now self))
       = match truthy (p_name peripheral) with
         | Some name => <[device_id := name]> (name_by_id self)
         | None => name_by_id self
         end)
  ∧ (∀ advertisementData,
       name_by_id (state_of (_update_name peripheral advertisementData self))
       = names_after peripheral advertisementData (name_by_id self))
  ∧ (∀ advertisementData,
       name_by_id
         (state_of (centralManager_didDiscoverPeripheral_advertisementData_RSSI_
                      peripheral advertisementData now self))
       = names_after peripheral advertisementData (name_by_id self))
  ∧ (∀ advertisementData,
       adv_local_name advertisementData = None →
       name_by_id
         (state_of (centralManager_didDiscoverPeripheral_advertisementData_RSSI_
                      peripheral advertisementData now self))
       = match truthy (p_name peripheral) with
         | Some name => <[device_id := name]> (name_by_id self)
         | None => name_by_id self
         end)
  ∧ name_by_id (state_of (_connect_peripheral peripheral None self))
    = (if decide (device_id ∈ connected_ids self ∨ device_id ∈ connecting_ids self)
       then name_by_id self
       else match truthy (p_name peripheral) with
            | Some name => <[device_id := name]> (name_by_id self)
            | None => name_by_id self
            end)
  ∧ (∀ state,
       name_by_id
         (state_of (centralManagerDidUpdateState_ state [peripheral] now self))
       = if is_powered_on state
            && negb (_at_capacity self)
            && negb (is_blocked now device_id self)
            && passes_filters peripheral None self
            && negb (bool_decide (device_id ∈ connected_ids self
                                  ∨ device_id ∈ connecting_ids self))
         then match truthy (p_name peripheral) with
              | Some name => <[device_id := name]> (name_by_id self)
              | None => name_by_id self
              end
         else name_by_id self)
  ∧ (∀ state retrieved,
       retrieved_names retrieved (name_by_id self)
         (name_by_id
            (state_of (centralManagerDidUpdateState_ state retrieved now self)))).
Proof.
  intros device_id. subst device_id.
  split; [|split; [|split; [|split; [|split; [|split; [|split]]]]]].
  - intros adv adv_name Hadv. rewrite discover_names. unfold names_after.
    rewrite Hadv. apply lookup_insert_eq.
  - intros characteristic value hr Hvalue Hparse.
    unfold peripheral_didUpdateValueForCharacteristic_error_.
    rewrite Hvalue, Hparse. unfold_M. simpl.
    rewrite update_name_result. simpl.
    unfold _write_hr. unfold_M.
    destruct (truthy (p_name peripheral)) as [name|]; simpl;
      repeat case_match; simplify_eq/=; reflexivity.
  - intros advertisementData. apply update_name_names.
  - intros advertisementData. apply discover_names.
  - intros advertisementData Hadv. rewrite discover_names. unfold names_after.
    by rewrite Hadv.
  - rewrite connect_peripheral_names. by destruct (decide _).
  - intros state. apply update_state_single_names.
  - intros state retrieved. apply update_state_names.
Qed.

(** C7, the literal reading: the strap advertises one name and reports another
    as its device name; the advertised name is cached at discovery and the
    first notification replaces it by the device name. *)
Lemma device_name_overwrites_advertised_name :
  name_by_id (run [ (DidUpdateState CBManagerStatePoweredOn [], 0);
                    (DidDiscoverPeripheral polar (Some polar_adv), 100) ]
                (configure default_args)) !! "AAAA" = Some "Polar H10 1234"
  ∧ name_by_id (run [ (DidUpdateState CBManagerStatePoweredOn [], 0);
                      (DidDiscoverPeripheral polar (Some polar_adv), 100);
                      (DidConnectPeripheral polar, 200);
                      (DidUpdateValue polar beat false, 300) ]
                  (configure default_args)) !! "AAAA" = Some "Polar"
  ∧ "Polar" ≠ "Polar H10 1234".
Proof. vm_compute; repeat split; discriminate. Qed.

Lemma display_name_updates_witness :
  name_by_id
    (state_of (centralManager_didDiscoverPeripheral_advertisementData_RSSI_
                 polar (Some polar_adv) 100 init)) !! "AAAA" = Some "Polar H10 1234"
  ∧ name_by_id
      (state_of (peripheral_didUpdateValueForCharacteristic_error_
                   polar beat false 300 init))
    = <["AAAA" := "Polar"]> (name_by_id init)
  ∧ name_by_id
      (state_of (centralManager_didDiscoverPeripheral_advertisementData_RSSI_
                   polar None 100 init))
    = <["AAAA" := "Polar"]> (name_by_id init)
  ∧ name_by_id
      (state_of (centralManagerDidUpdateState_ CBManagerStatePoweredOn [polar] 100 init))
    = <["AAAA" := "Polar"]> (name_by_id init).
Proof.
  pose proof (display_name_updates init polar 100)
    as (Hadv & Hnotify & _ & _ & Hplain & _ & Hretrieved & _).
  split; [|split; [|split]].
  - apply (Hadv polar_adv "Polar H10 1234"). reflexivity.
  - apply (Hnotify beat [x00; x48] 72); reflexivity.
  - apply (Hplain None). reflexivity.
  - rewrite (Hretrieved CBManagerStatePoweredOn). vm_compute. reflexivity.
Defined.

(** ** The scan window and the grace period *)

Lemma start_scan_window now : preserves scan_window_ok (_start_scan now).
Proof.
  intros self H. unfold _start_scan, scan_window_ok in *. unfold_M. simpl.
  destruct (central self), (scanning self) eqn:Hs; simpl; rewrite ?Hs; try done.
Qed.

Lemma stop_scan_window : preserves scan_window_ok _stop_scan.
Proof.
  intros self H. unfold _stop_scan, scan_window_ok in *. unfold_M. simpl.
  destruct (central self), (scanning self) eqn:Hs; simpl; rewrite ?Hs; try done.
Qed.

Ltac scan_window_leaf :=
  first [ apply start_scan_window | apply stop_scan_window
        | match goal with H : scan_window_ok _ |- scan_window_ok _ => exact H end ].

Lemma connect_retrieved_window retrieved now :
  preserves scan_window_ok (connect_retrieved retrieved now).
Proof.
  induction retrieved as [|peripheral rest IH]; simpl;
    preserves_with ltac:(first [exact IH | scan_window_leaf]).
Qed.

Lemma handle_scan_window ev now : preserves scan_window_ok (handle ev now).
Proof.
  destruct ev; simpl;
    preserves_with ltac:(first [apply connect_retrieved_window | scan_window_leaf]).
Qed.

Lemma reachable_scan_window self : reachable self → scan_window_ok self.
Proof.
  induction 1 as [args|self ev now _ IH].
  - unfold scan_window_ok. simpl. split; [done|]. by intros [? ?].
  - by apply handle_scan_window.
Qed.

Lemma should_defer_true now self :
  _should_defer_non_preferred now self = true
  ↔ preferred_names self ≠ []
    ∧ ∃ started, last_scan_start self = Some started
                 ∧ now - started < preferred_grace self.
Proof.
  unfold _should_defer_non_preferred.
  destruct (preferred_names self) as [|want wants].
  { split; [done|]. by intros [? _]. }
  destruct (last_scan_start self) as [started|].
  - rewrite Z.ltb_lt. split.
    + intros Hlt. split; [done|]. eauto.
    + intros (_ & started' & [= <-] & Hlt). done.
  - split; [done|]. by intros (_ & ? & ? & _).
Qed.

(** C6: in every state the delegate reaches, [_should_defer_non_preferred]
    answers true exactly when there are preferred names, a scan is active and
    less than the grace period has passed since it started; with no preferred
    names it answers false.  While it answers true, the discovery of a device
    that is not preferred stores the handle and the name of the device and
    does nothing else: no request goes to the stack and the connecting and
    connected sets stay as they were. *)
Theorem should_defer_non_preferred_spec (self : HRDelegate) (now : Z) :
  reachable self →
  (_should_defer_non_preferred now self = true
   ↔ preferred_names self ≠ []
     ∧ scanning self = true
     ∧ ∃ started, last_scan_start self = Some started
                  ∧ now - started < preferred_grace self)
  ∧ (preferred_names self = [] → _should_defer_non_preferred now self = false)
  ∧ (∀ peripheral advertisementData,
       _is_preferred peripheral advertisementData self = false →
       _should_defer_non_preferred now self = true →
       let r := centralManager_didDiscoverPeripheral_advertisementData_RSSI_
                  peripheral advertisementData now self in
       result r = Some tt
       ∧ actions r = []
       ∧ peripherals (state_of r) !! p_identifier peripheral = Some peripheral
       ∧ name_by_id (state_of r)
         = match adv_local_name advertisementData, truthy (p_name peripheral) with
           | Some adv_name, _ => <[p_identifier peripheral := adv_name]> (name_by_id self)
           | None, Some name => <[p_identifier peripheral := name]> (name_by_id self)
           | None, None => name_by_id self
           end
       ∧ connecting_ids (state_of r) = connecting_ids self
       ∧ connected_ids (state_of r) = connected_ids self
       ∧ pending_reconnect (state_of r) = pending_reconnect self).
Proof.
  intros Hreach. pose proof (reachable_scan_window self Hreach) as Hwin.
  split; [|split].
  - rewrite should_defer_true. unfold scan_window_ok in Hwin.
    split.
    + intros (Hpref & started & Hstart & Hlt). split; [done|]. split; [|eauto].
      apply Hwin. eauto.
    + intros (Hpref & _ & Hstart). eauto.
  - intros Hnone. unfold _should_defer_non_preferred. by rewrite Hnone.
  - intros peripheral advertisementData Hpref Hdefer r. subst r.
    rewrite discover_result. cbn zeta. rewrite Hpref, Hdefer. simpl.
    rewrite andb_false_r. simpl.
    pose proof (seen_frame peripheral advertisementData now self)
      as (Hcd & Hcg & Hpd & _).
    unfold result, actions, state_of in *. simpl.
    split; [done|]. split; [done|].
    split; [|split; [|by auto]].
    + unfold seen. rewrite update_name_result. unfold state_of. simpl.
      match goal with |- context [expire_block ?n ?i ?s] =>
        destruct (expire_block_cases n i s) as [-> | ->] end;
        destruct (adv_local_name advertisementData), (truthy (p_name peripheral));
        simpl; apply lookup_insert_eq.
    + unfold seen. rewrite update_name_result. unfold state_of. simpl.
      match goal with |- context [expire_block ?n ?i ?s] =>
        destruct (expire_block_cases n i s) as [-> | ->] end;
        destruct (adv_local_name advertisementData), (truthy (p_name peripheral));
        reflexivity.
Qed.

Lemma should_defer_non_preferred_spec_witness :
  _should_defer_non_preferred 2000 watching = true
  ∧ actions (centralManager_didDiscoverPeripheral_advertisementData_RSSI_
               generic_sensor None 2000 watching) = [].
Proof.
  pose proof (should_defer_non_preferred_spec watching 2000
                (reachable_step _ _ _ (reachable_start watch_args)))
    as (Hiff & _ & Hdiscover).
  assert (_should_defer_non_preferred 2000 watching = true) as Hdefer.
  { apply Hiff. split; [discriminate|]. split; [reflexivity|].
    exists 0. split; [reflexivity|]. reflexivity. }
  split; [exact Hdefer|].
  apply (Hdiscover generic_sensor None); [reflexivity|exact Hdefer].
Defined.

(** The two discoveries of the design document's test list. *)
Example generic_sensor_deferred :
  actions (centralManager_didDiscoverPeripheral_advertisementData_RSSI_
             generic_sensor None 2000 watching) = [].
Proof. vm_compute. reflexivity. Qed.

Example my_watch_not_deferred :
  actions (centralManager_didDiscoverPeripheral_advertisementData_RSSI_
             my_watch None 2000 watching)
  = [SetDelegate my_watch; ConnectPeripheral my_watch].
Proof. vm_compute. reflexivity. Qed.

(** ** The reconnect scheduler *)

(** *** The stack is not ready *)

Lemma set_pending_same self :
  set_pending_reconnect (pending_reconnect self) self = self.
Proof. by destruct self. Qed.

Lemma tick_not_ready_loop now keys self :
  for_each keys (tick_not_ready now) self
  = (Some tt,
     set_pending_reconnect
       (foldl (λ m k, <[k := now + reconnect_interval self]> m)
          (pending_reconnect self) keys) self,
     (λ k, PrintErr (MsgBluetoothNotReady (reconnect_interval self) (label_of k self)))
       <$> keys).
Proof.
  revert self. induction keys as [|k rest IH]; intros self; simpl.
  - unfold skip, mret, M_ret. by rewrite set_pending_same.
  - unfold mbind, M_bind, tick_not_ready at 1. unfold_M. simpl.
    rewrite IH. simpl. reflexivity.
Qed.

Lemma rearm_lookup (v : Z) (keys : list string) (m : gmap string Z) k :
  foldl (λ m k, <[k := v]> m) m keys !! k
  = if decide (k ∈ keys) then Some v else m !! k.
Proof.
  revert m. induction keys as [|k' rest IH]; intros m; cbn [foldl].
  - case_decide as Hin; [by apply elem_of_nil in Hin|done].
  - rewrite IH. destruct (decide (k = k')) as [->|Hne].
    + rewrite lookup_insert_eq.
      rewrite (decide_True (P := k' ∈ k' :: rest)) by (apply elem_of_cons; by left).
      by case_decide.
    + rewrite lookup_insert_ne by done.
      destruct (decide (k ∈ rest)).
      * rewrite decide_True by (apply elem_of_cons; by right). done.
      * rewrite decide_False by (by apply not_elem_of_cons). done.
Qed.

Lemma rearm_all (v : Z) (m : gmap string Z) :
  foldl (λ m k, <[k := v]> m) m (map_to_list m).*1 = (λ _, v) <$> m.
Proof.
  apply map_eq. intros k. rewrite rearm_lookup, lookup_fmap.
  destruct (m !! k) as [ts|] eqn:Hk; simpl.
  - rewrite decide_True; [done|].
    apply list_elem_of_fmap. exists (k, ts). split; [done|].
    by apply elem_of_map_to_list.
  - rewrite decide_False; [done|].
    intros ([k' ts] & -> & Hin)%list_elem_of_fmap.
    apply elem_of_map_to_list in Hin. simpl in Hk. congruence.
Qed.

Lemma tick_not_ready_result state now self :
  negb (central self) || negb (is_powered_on state) = true →
  tick state now self
  = (Some tt,
     set_pending_reconnect
       ((λ _, now + reconnect_interval self) <$> pending_reconnect self) self,
     (λ k, PrintErr (MsgBluetoothNotReady (reconnect_interval self) (label_of k self)))
       <$> (map_to_list (pending_reconnect self)).*1).
Proof.
  intros Hnot. unfold tick. unfold_M. simpl.
  destruct (decide (pending_reconnect self = ∅)) as [Hempty|_].
  - rewrite Hempty, fmap_empty, map_to_list_empty. simpl.
    by rewrite <- Hempty, set_pending_same.
  - rewrite Hnot, tick_not_ready_loop. simpl. by rewrite rearm_all.
Qed.

(** *** The stack is ready *)

(** One iteration of the main loop touches the entry and the connecting
    status of its own device only. *)
Lemma tick_entry_effect now k ts self :
  central self = true →
  pending_reconnect self !! k = Some ts →
  ∃ after out,
    tick_entry now (k, ts) self = (Some tt, after, out)
    ∧ tick_frame [k] self after
    ∧ entry_outcome now self after out k ts
    ∧ (∀ p, ConnectPeripheral p ∈ out → connect_due now self k ts p).
Proof.
  intros Hcentral Hts.
  assert (∀ k', k' ∉ [k] → k ≠ k') as Hother.
  { intros k' Hk' ->. apply Hk', list_elem_of_singleton. done. }
  unfold tick_entry, _stop_scan, _start_scan. unfold_M. simpl.
  destruct (Z.ltb_spec now ts) as [Hlt|Hge]; simpl.
  { do 2 eexists. split; [reflexivity|].
    unfold tick_frame, entry_outcome, connect_due. split; [|split].
    - repeat split; done.
    - repeat split; intros; first [done | lia].
    - intros p Hin. by apply elem_of_nil in Hin. }
  destruct (decide (k ∈ connected_ids self)) as [Hcd|Hcd]; simpl.
  { rewrite Hts. destruct (decide (is_Some (Some ts))) as [_|[]]; [|by eauto]. simpl.
    do 2 eexists. split; [reflexivity|].
    unfold tick_frame, entry_outcome, connect_due. simpl. split; [|split].
    - repeat split; try done.
      match goal with Hk' : ?k' ∉ [k] |- _ => specialize (Hother k' Hk') end.
      by rewrite lookup_delete_ne.
    - repeat split; intros; first [done | lia | by rewrite lookup_delete_eq].
    - intros p Hin. by apply elem_of_nil in Hin. }
  destruct (decide (k ∈ connecting_ids self)) as [Hcg|Hcg]; simpl.
  { do 2 eexists. split; [reflexivity|].
    unfold tick_frame, entry_outcome, connect_due. simpl. split; [|split].
    - repeat split; try done.
      match goal with Hk' : ?k' ∉ [k] |- _ => specialize (Hother k' Hk') end.
      by rewrite lookup_insert_ne.
    - repeat split; intros; first [done | lia | by rewrite lookup_insert_eq].
    - intros p Hin. by apply elem_of_nil in Hin. }
  destruct (peripherals self !! k) as [peripheral|] eqn:Hp; simpl.
  { rewrite Hcentral. simpl.
    do 2 eexists. split; [reflexivity|].
    unfold tick_frame, entry_outcome, connect_due. simpl. split; [|split].
    - repeat split; try done;
        match goal with Hk' : ?k' ∉ [k] |- _ => specialize (Hother k' Hk') end;
        rewrite ?lookup_insert_ne by done; try done;
        rewrite elem_of_union, elem_of_singleton; intuition congruence.
    - repeat split; intros; simplify_eq;
        first [done | lia | by rewrite lookup_insert_eq
              | by apply elem_of_union_l, elem_of_singleton
              | list_mem ].
    - intros p Hin. repeat split; try done.
      rewrite !elem_of_cons in Hin. destruct Hin as [?|[?|[?|Hin]]]; simplify_eq.
      + done.
      + by apply elem_of_nil in Hin. }
  assert (∀ acts self1,
    scanning self1 = true → last_scan_start self1 = Some now →
    central self1 = true → connected_ids self1 = connected_ids self →
    connecting_ids self1 = connecting_ids self →
    peripherals self1 = peripherals self →
    reconnect_interval self1 = reconnect_interval self →
    scan_all self1 = scan_all self → max_devices self1 = max_devices self →
    blocked_ids self1 = blocked_ids self →
    pending_reconnect self1 = pending_reconnect self →
    scan_request self ∈ acts →
    (∀ p, ConnectPeripheral p ∉ acts) →
    let after := set_pending_reconnect
                   (<[k := now + reconnect_interval self]> (pending_reconnect self1))
                   self1 in
    tick_frame [k] self after
    ∧ entry_outcome now self after acts k ts
    ∧ (∀ p, ConnectPeripheral p ∈ acts → connect_due now self k ts p)) as Hscan_case.
  { intros acts self1 Hs1 Hl1 Hc1 Hcd1 Hcg1 Hp1 Hr1 Hsa1 Hm1 Hb1 Hpd1 Hreq Hnone after.
    subst after. unfold tick_frame, entry_outcome. simpl.
    rewrite Hpd1, Hcd1, Hcg1, Hp1, Hr1, Hsa1, Hm1, Hb1, Hc1, lookup_insert_eq.
    split; [|split].
    - repeat split; try done;
        match goal with Hk' : ?k' ∉ [k] |- _ => specialize (Hother k' Hk') end;
        by rewrite ?lookup_insert_ne.
    - repeat split; intros; simplify_eq; first [done | lia].
    - intros p Hin. by apply Hnone in Hin. }
  destruct (scanning self) eqn:Hscan; simpl;
    repeat (progress (rewrite ?Hcentral, ?Hscan; simpl)).
  - do 2 eexists. split; [reflexivity|].
    apply (Hscan_case _ (set_last_scan_start (Some now) (set_scanning true
             (set_last_scan_start None (set_scanning false self)))));
      simpl; try done.
    + unfold scan_request. list_mem.
    + intros p. list_not_mem.
  - do 2 eexists. split; [reflexivity|].
    apply (Hscan_case _ (set_last_scan_start (Some now) (set_scanning true self)));
      simpl; try done.
    + unfold scan_request. list_mem.
    + intros p. list_not_mem.
Qed.

Lemma tick_frame_nil self : tick_frame [] self self.
Proof. unfold tick_frame. repeat split; done. Qed.

Lemma tick_frame_trans keys1 keys2 s0 s1 s2 :
  tick_frame keys1 s0 s1 → tick_frame keys2 s1 s2 →
  tick_frame (keys1 ++ keys2) s0 s2.
Proof.
  unfold tick_frame.
  intros (Hcd1 & Hp1 & Hr1 & Hc1 & Hsa1 & Hm1 & Hb1 & Hs1 & Hk1)
         (Hcd2 & Hp2 & Hr2 & Hc2 & Hsa2 & Hm2 & Hb2 & Hs2 & Hk2).
  repeat split; try congruence; try (by auto);
    apply not_elem_of_app in H as [Ha Hb];
    destruct (Hk1 _ Ha) as [Hx1 Hy1]; destruct (Hk2 _ Hb) as [Hx2 Hy2].
  - congruence.
  - intros. by apply Hy1, Hy2.
  - intros. by apply Hy2, Hy1.
Qed.

Lemma entry_outcome_later now s0 s1 s2 out1 out2 keys k ts :
  entry_outcome now s0 s1 out1 k ts →
  tick_frame keys s1 s2 → k ∉ keys →
  entry_outcome now s0 s2 (out1 ++ out2) k ts.
Proof.
  unfold entry_outcome, tick_frame.
  intros (H1 & H2 & H3 & H4 & H5)
         (Hcd & Hp & Hr & Hc & Hsa & Hm & Hb & Hs & Hk) Hnot.
  destruct (Hk k Hnot) as [-> Hiff].
  split; [|split; [|split; [|split]]].
  - intros Hdue. destruct (H1 Hdue) as [? Hx]. split; [done|]. by rewrite Hiff.
  - intros Hdue Hin. destruct (H2 Hdue Hin) as [? Hx]. split; [done|]. by rewrite Hiff.
  - intros Hdue Hncd Hcg. destruct (H3 Hdue Hncd Hcg) as [? Hx].
    split; [done|]. by apply Hiff.
  - intros Hdue Hncd Hncg p Hper.
    destruct (H4 Hdue Hncd Hncg p Hper) as (? & ? & ?).
    split; [done|]. split; [by apply Hiff|]. apply elem_of_app. by left.
  - intros Hdue Hncd Hncg Hper.
    destruct (H5 Hdue Hncd Hncg Hper) as (? & ? & ? & ?).
    split; [done|]. split; [by rewrite Hiff|].
    split; [apply elem_of_app; by left|]. by apply Hs.
Qed.

Lemma entry_outcome_earlier now s0 s1 s2 out1 out2 k k' ts' :
  entry_outcome now s1 s2 out2 k' ts' →
  tick_frame [k] s0 s1 → k' ≠ k →
  entry_outcome now s0 s2 (out1 ++ out2) k' ts'.
Proof.
  unfold entry_outcome, tick_frame, scan_request.
  intros (H1 & H2 & H3 & H4 & H5)
         (Hcd & Hp & Hr & Hc & Hsa & Hm & Hb & Hs & Hk) Hne.
  assert (k' ∉ [k]) as Hnot by (by intros ->%list_elem_of_singleton).
  destruct (Hk k' Hnot) as [Hpend Hiff].
  rewrite Hcd, Hp, Hr, Hsa in *.
  split; [|split; [|split; [|split]]].
  - intros Hdue. destruct (H1 Hdue) as [? Hx]. split; [done|]. by rewrite Hx.
  - intros Hdue Hin. destruct (H2 Hdue Hin) as [? Hx]. split; [done|]. by rewrite Hx.
  - intros Hdue Hncd Hcg. apply Hiff in Hcg. by apply H3.
  - intros Hdue Hncd Hncg p Hper. rewrite <- Hiff in Hncg.
    destruct (H4 Hdue Hncd Hncg p Hper) as (? & ? & ?).
    split; [done|]. split; [done|]. apply elem_of_app. by right.
  - intros Hdue Hncd Hncg Hper. rewrite <- Hiff in Hncg.
    destruct (H5 Hdue Hncd Hncg Hper) as (? & ? & ? & ?).
    split; [done|]. split; [done|]. split; [apply elem_of_app; by right|done].
Qed.

(** The main loop over any enumeration [items] of the snapshot: it returns,
    and each entry has the outcome of [entry_outcome] whatever the order. *)
Lemma tick_loop_effect now items self :
  NoDup items.*1 →
  central self = true →
  (∀ k ts, (k, ts) ∈ items → pending_reconnect self !! k = Some ts) →
  ∃ after out,
    for_each items (tick_entry now) self = (Some tt, after, out)
    ∧ tick_frame items.*1 self after
    ∧ (∀ k ts, (k, ts) ∈ items → entry_outcome now self after out k ts)
    ∧ (∀ p, ConnectPeripheral p ∈ out →
         ∃ k ts, (k, ts) ∈ items ∧ connect_due now self k ts p).
Proof.
  revert self. induction items as [|[k ts] rest IH]; intros self Hnodup Hcentral Hitems.
  - exists self, []. split; [reflexivity|]. split; [apply tick_frame_nil|].
    split.
    + intros k ts Hin. by apply elem_of_nil in Hin.
    + intros p Hin. by apply elem_of_nil in Hin.
  - cbn [fmap list_fmap fst] in Hnodup. apply NoDup_cons in Hnodup as [Hfresh Hnodup].
    destruct (tick_entry_effect now k ts self Hcentral) as
      (s1 & out1 & Hrun1 & Hframe1 & Hout1 & Hconn1).
    { apply Hitems. by left. }
    assert (∀ k' ts', (k', ts') ∈ rest → k' ≠ k) as Hne.
    { intros k' ts' Hin ->. apply Hfresh.
      apply list_elem_of_fmap. by exists (k, ts'). }
    assert (∀ k', k' ≠ k → k' ∉ [k]) as Hsingle.
    { intros k' Hk' Hin%list_elem_of_singleton. done. }
    pose proof Hframe1 as (Hcd1 & Hp1 & Hr1 & Hc1 & Hsa1 & Hm1 & Hb1 & Hs1 & Hk1).
    destruct (IH s1 Hnodup) as (s2 & out2 & Hrun2 & Hframe2 & Hout2 & Hconn2).
    { congruence. }
    { intros k' ts' Hin. destruct (Hk1 k') as [-> _].
      - eapply Hsingle, Hne, Hin.
      - apply Hitems. by right. }
    exists s2, (out1 ++ out2). split.
    { cbn [for_each]. unfold mbind, M_bind. rewrite Hrun1, Hrun2. reflexivity. }
    split.
    { change ((k, ts) :: rest).*1 with ([k] ++ rest.*1).
      eapply tick_frame_trans; eassumption. }
    split.
    + intros k' ts' [Heq|Hin]%elem_of_cons.
      * simplify_eq. eapply entry_outcome_later; eassumption.
      * eapply entry_outcome_earlier; [by apply Hout2|eassumption|by eapply Hne].
    + intros p [Hin|Hin]%elem_of_app.
      * exists k, ts. split; [by left|by apply Hconn1].
      * destruct (Hconn2 p Hin) as (k' & ts' & Hin' & Hdue & Hncd & Hncg & Hper).
        exists k', ts'. split; [by right|].
        destruct (Hk1 k' (Hsingle k' (Hne k' ts' Hin'))) as [_ Hiff].
        unfold connect_due. rewrite <- Hcd1, <- Hp1, <- Hiff. done.
Qed.

(** The whole of [tick] when the stack is ready. *)
Lemma tick_ready_effect state now self :
  central self = true → is_powered_on state = true →
  ∃ after out,
    tick state now self = (Some tt, after, out)
    ∧ tick_frame (map_to_list (pending_reconnect self)).*1 self after
    ∧ (∀ k ts, pending_reconnect self !! k = Some ts →
         entry_outcome now self after out k ts)
    ∧ (∀ p, ConnectPeripheral p ∈ out →
         ∃ k ts, pending_reconnect self !! k = Some ts ∧ connect_due now self k ts p).
Proof.
  intros Hcentral Hpower. unfold tick. unfold_M. simpl.
  destruct (decide (pending_reconnect self = ∅)) as [Hempty|_].
  - exists self, []. split; [reflexivity|]. rewrite Hempty, map_to_list_empty.
    split; [apply tick_frame_nil|]. split.
    + intros k ts Hk. by rewrite lookup_empty in Hk.
    + intros p Hin. by apply elem_of_nil in Hin.
  - rewrite Hcentral, Hpower. simpl.
    destruct (tick_loop_effect now (map_to_list (pending_reconnect self)) self)
      as (after & out & Hrun & Hframe & Hout & Hconn).
    + apply NoDup_fst_map_to_list.
    + done.
    + intros k ts Hin. by apply elem_of_map_to_list.
    + exists after, out. split; [by rewrite Hrun|]. split; [done|]. split.
      * intros k ts Hk. by apply Hout, elem_of_map_to_list.
      * intros p Hin. destruct (Hconn p Hin) as (k & ts & Hin' & Hdue).
        exists k, ts. split; [by apply elem_of_map_to_list|done].
Qed.

(** *** The scheduler as a whole *)

(** C5, as the code has it.  [tick] always returns.  While the stack is not
    ready, every pending entry is set to [now] plus the backoff, whatever its
    earlier time, and nothing but status lines is produced: no request goes to
    the stack and the connecting set is unchanged.  While the stack is ready,
    an entry that is not yet due is left alone; a due entry of a connected
    device is dropped; a due entry of a connecting device is re-armed to [now]
    plus the backoff; a due entry of any other device with a cached handle is
    re-armed, the device joins the connecting set and a connect request for
    the handle is sent; without a cached handle the entry is re-armed and a
    scan is started again.  Connect requests go only to due entries of
    devices that were neither connected nor connecting. *)
Theorem tick_reconnect_scheduler (self : HRDelegate) (state : CBManagerState) (now : Z) :
  let r := tick state now self in
  let backoff := reconnect_interval self in
  result r = Some tt
  ∧ (central self = false ∨ is_powered_on state = false →
       pending_reconnect (state_of r) = (λ _, now + backoff) <$> pending_reconnect self
       ∧ connecting_ids (state_of r) = connecting_ids self
       ∧ connected_ids (state_of r) = connected_ids self
       ∧ scanning (state_of r) = scanning self
       ∧ ∀ a, a ∈ actions r → ∃ line, a = PrintErr line)
  ∧ (central self = true → is_powered_on state = true →
       (∀ device_id dueAt, pending_reconnect self !! device_id = Some dueAt →
          (now < dueAt →
             pending_reconnect (state_of r) !! device_id = Some dueAt
             ∧ (device_id ∈ connecting_ids (state_of r)
                ↔ device_id ∈ connecting_ids self))
          ∧ (dueAt ≤ now → device_id ∈ connected_ids self →
               pending_reconnect (state_of r) !! device_id = None
               ∧ (device_id ∈ connecting_ids (state_of r)
                  ↔ device_id ∈ connecting_ids self))
          ∧ (dueAt ≤ now → device_id ∉ connected_ids self →
               device_id ∈ connecting_ids self →
               pending_reconnect (state_of r) !! device_id = Some (now + backoff)
               ∧ device_id ∈ connecting_ids (state_of r))
          ∧ (dueAt ≤ now → device_id ∉ connected_ids self →
               device_id ∉ connecting_ids self →
               ∀ peripheral, peripherals self !! device_id = Some peripheral →
                 pending_reconnect (state_of r) !! device_id = Some (now + backoff)
                 ∧ device_id ∈ connecting_ids (state_of r)
                 ∧ ConnectPeripheral peripheral ∈ actions r)
          ∧ (dueAt ≤ now → device_id ∉ connected_ids self →
               device_id ∉ connecting_ids self →
               peripherals self !! device_id = None →
                 pending_reconnect (state_of r) !! device_id = Some (now + backoff)
                 ∧ (device_id ∉ connecting_ids (state_of r))
                 ∧ scan_request self ∈ actions r
                 ∧ scanning (state_of r) = true))
       ∧ (∀ peripheral, ConnectPeripheral peripheral ∈ actions r →
            ∃ device_id dueAt,
              pending_reconnect self !! device_id = Some dueAt
              ∧ dueAt ≤ now
              ∧ (device_id ∉ connected_ids self)
              ∧ (device_id ∉ connecting_ids self)
              ∧ peripherals self !! device_id = Some peripheral)).
Proof.
  intros r backoff. subst r backoff.
  destruct (negb (central self) || negb (is_powered_on state)) eqn:Hready.
  - rewrite (tick_not_ready_result state now self Hready).
    unfold result, state_of, actions. simpl.
    split; [done|]. split.
    + intros _. repeat split; try done.
      intros a (k & -> & _)%list_elem_of_fmap. eauto.
    + intros Hc Hp. rewrite Hc, Hp in Hready. done.
  - apply orb_false_iff in Hready as [Hc Hp].
    apply negb_false_iff in Hc, Hp.
    destruct (tick_ready_effect state now self Hc Hp)
      as (after & out & Hrun & Hframe & Hout & Hconn).
    rewrite Hrun. unfold result, state_of, actions. simpl.
    split; [done|]. split.
    + intros [Hc'|Hp']; congruence.
    + intros _ _. split.
      * intros device_id dueAt Hdue. exact (Hout device_id dueAt Hdue).
      * exact Hconn.
Qed.

(** C5, the literal reading: with the stack not ready, an entry due at 6000
    and seen at 20000 moves to 25000, which is [now] plus the backoff and not
    its earlier time plus the backoff. *)
Lemma tick_not_ready_rearms_from_now :
  pending_reconnect waiting !! "AAAA" = Some 6000
  ∧ reconnect_interval waiting = 5000
  ∧ pending_reconnect (state_of (tick CBManagerStatePoweredOff 20000 waiting)) !! "AAAA"
    = Some 25000
  ∧ Some 25000 ≠ Some (6000 + reconnect_interval waiting).
Proof. vm_compute. repeat split; discriminate. Qed.

Lemma tick_reconnect_scheduler_witness :
  pending_reconnect (state_of (tick CBManagerStatePoweredOff 20000 waiting))
  = (λ _, 20000 + reconnect_interval waiting) <$> pending_reconnect waiting
  ∧ ConnectPeripheral polar ∈ actions (tick CBManagerStatePoweredOn 6000 full).
Proof.
  split.
  - apply (proj1 (proj2 (tick_reconnect_scheduler waiting CBManagerStatePoweredOff 20000))).
    right. reflexivity.
  - pose proof (proj2 (proj2 (tick_reconnect_scheduler full CBManagerStatePoweredOn 6000)))
      as Hready.
    destruct Hready as [Hentries _]; [by vm_compute|reflexivity|].
    destruct (Hentries "AAAA" 5300) as (_ & _ & _ & Hconnect & _); [by vm_compute|].
    apply Hconnect with (peripheral := polar).
    + lia.
    + apply (bool_decide_unpack _). by vm_compute.
    + apply (bool_decide_unpack _). by vm_compute.
    + by vm_compute.
Defined.

(** *** No duplicate connect request *)

Lemma peripherals_keyed_insert peripheral self :
  peripherals_keyed self →
  peripherals_keyed
    (set_peripherals (<[p_identifier peripheral := peripheral]> (peripherals self)) self).
Proof.
  intros Hkeyed k p. simpl. intros [[<- <-]|[_ Hk]]%lookup_insert_Some; [done|].
  by apply Hkeyed.
Qed.

Ltac keyed_assign :=
  first [ by apply peripherals_keyed_insert
        | match goal with H : peripherals_keyed _ |- peripherals_keyed _ => exact H end ].

Lemma start_scan_keyed now : preserves peripherals_keyed (_start_scan now).
Proof. unfold _start_scan. preserves_with keyed_assign. Qed.

Lemma stop_scan_keyed : preserves peripherals_keyed _stop_scan.
Proof. unfold _stop_scan. preserves_with keyed_assign. Qed.

Ltac keyed_leaf :=
  first [ apply start_scan_keyed | apply stop_scan_keyed | keyed_assign ].

Lemma connect_retrieved_keyed retrieved now :
  preserves peripherals_keyed (connect_retrieved retrieved now).
Proof.
  induction retrieved as [|peripheral rest IH]; simpl;
    preserves_with ltac:(first [exact IH | keyed_leaf]).
Qed.

Lemma handle_keyed ev now : preserves peripherals_keyed (handle ev now).
Proof.
  destruct ev; simpl;
    preserves_with ltac:(first [apply connect_retrieved_keyed | keyed_leaf]).
Qed.

Lemma reachable_keyed self : reachable self → peripherals_keyed self.
Proof.
  induction 1 as [args|self ev now _ IH].
  - intros k p Hk. simpl in Hk. by rewrite lookup_empty in Hk.
  - by apply handle_keyed.
Qed.

(** In a state the delegate reaches by whole callbacks and whole ticks, a
    [tick] during which no callback runs sends no connect request for a
    device that is connected or connecting. *)
Lemma tick_no_duplicate_connect self state now peripheral :
  reachable self →
  ConnectPeripheral peripheral ∈ actions (tick state now self) →
  (p_identifier peripheral ∉ connected_ids self)
  ∧ (p_identifier peripheral ∉ connecting_ids self).
Proof.
  intros Hreach Hin. pose proof (reachable_keyed self Hreach) as Hkeyed.
  destruct (negb (central self) || negb (is_powered_on state)) eqn:Hready.
  - rewrite (tick_not_ready_result state now self Hready) in Hin.
    unfold actions in Hin. simpl in Hin.
    apply list_elem_of_fmap in Hin as (k & Heq & _). discriminate Heq.
  - apply orb_false_iff in Hready as [Hc Hp]. apply negb_false_iff in Hc, Hp.
    destruct (tick_ready_effect state now self Hc Hp)
      as (after & out & Hrun & _ & _ & Hconn).
    rewrite Hrun in Hin. unfold actions in Hin. simpl in Hin.
    destruct (Hconn peripheral Hin) as (k & ts & _ & _ & Hncd & Hncg & Hper).
    by rewrite (Hkeyed k peripheral Hper).
Qed.


(** ** The capacity limit *)

(** *** On the discovery paths *)

Lemma capacity_ok_ext self1 self2 :
  connected_ids self1 = connected_ids self2 →
  connecting_ids self1 = connecting_ids self2 →
  max_devices self1 = max_devices self2 →
  capacity_ok self2 → capacity_ok self1.
Proof. unfold capacity_ok. by intros -> -> ->. Qed.

Lemma connect_peripheral_capacity peripheral advertisementData self :
  _at_capacity self = false →
  capacity_ok (state_of (_connect_peripheral peripheral advertisementData self)).
Proof.
  intros Hroom. rewrite connect_peripheral_result. cbn zeta.
  unfold _at_capacity in Hroom. unfold capacity_ok.
  destruct (decide _) as [Hin|Hout]; unfold state_of; simpl.
  - intros max Hmax. rewrite Hmax in Hroom. lia.
  - rewrite update_name_result. simpl.
    assert (p_identifier peripheral ∉ connecting_ids self) as Hfresh by tauto.
    destruct (adv_local_name advertisementData), (truthy (p_name peripheral)); simpl;
      intros max Hmax; rewrite Hmax in Hroom;
      rewrite size_union, size_singleton by (by apply disjoint_singleton_l); lia.
Qed.

Lemma discover_capacity peripheral advertisementData now self :
  capacity_ok self →
  capacity_ok (state_of (centralManager_didDiscoverPeripheral_advertisementData_RSSI_
                           peripheral advertisementData now self)).
Proof.
  intros Hok. rewrite discover_result. cbn zeta.
  pose proof (seen_frame peripheral advertisementData now self)
    as (Hcd & Hcg & Hpd & Hm & Hpn & Hls & Hpg & Hc).
  destruct (_at_capacity self) eqn:Hcap; rewrite ?andb_false_r; simpl.
  - by eapply capacity_ok_ext.
  - rewrite andb_true_r. case_match.
    + apply connect_peripheral_capacity.
      by rewrite (at_capacity_ext _ self Hcd Hcg Hm).
    + by eapply capacity_ok_ext.
Qed.

(** X29: at capacity, a discovery returns and sends nothing to the stack.
    It stores the handle of the device; it caches the advertised local name,
    or else the device name, and leaves the cache alone when the device has
    neither; it forgets a block of the device that has expired; and it
    leaves the connected and connecting sets and the pending reconnects as
    they were. *)
Lemma discover_at_capacity peripheral advertisementData now self :
  _at_capacity self = true →
  let r := centralManager_didDiscoverPeripheral_advertisementData_RSSI_
             peripheral advertisementData now self in
  result r = Some tt
  ∧ actions r = []
  ∧ peripherals (state_of r)
    = <[p_identifier peripheral := peripheral]> (peripherals self)
  ∧ name_by_id (state_of r)
    = match adv_local_name advertisementData, truthy (p_name peripheral) with
      | Some adv_name, _ => <[p_identifier peripheral := adv_name]> (name_by_id self)
      | None, Some name => <[p_identifier peripheral := name]> (name_by_id self)
      | None, None => name_by_id self
      end
  ∧ blocked_ids (state_of r)
    = match blocked_ids self !! p_identifier peripheral with
      | Some until =>
          if now <? until then blocked_ids self
          else delete (p_identifier peripheral) (blocked_ids self)
      | None => blocked_ids self
      end
  ∧ connected_ids (state_of r) = connected_ids self
  ∧ connecting_ids (state_of r) = connecting_ids self
  ∧ pending_reconnect (state_of r) = pending_reconnect self.
Proof.
  intros Hcap r. subst r. rewrite discover_result, Hcap, andb_false_r. cbn zeta.
  unfold result, actions, state_of. cbn [fst snd].
  split; [done|]. split; [done|].
  unfold seen. rewrite update_name_result. unfold state_of, expire_block. cbn [fst snd].
  destruct (adv_local_name advertisementData), (truthy (p_name peripheral)); simpl;
    (destruct (blocked_ids self !! p_identifier peripheral) as [until|];
     [destruct (now <? until)|]); simpl; auto 10.
Qed.

(** At capacity, the loop over the retrieved peripherals stops at once. *)
Lemma connect_retrieved_at_capacity retrieved now self :
  _at_capacity self = true →
  connect_retrieved retrieved now self = (Some tt, self, []).
Proof.
  intros Hcap. destruct retrieved as [|peripheral rest]; [done|].
  simpl. unfold_M. simpl. by rewrite Hcap.
Qed.

Lemma expire_block_capacity now device_id self :
  capacity_ok self → capacity_ok (expire_block now device_id self).
Proof.
  intros Hok. by destruct (expire_block_cases now device_id self) as [-> | ->].
Qed.

Lemma connect_retrieved_capacity retrieved now self :
  capacity_ok self → capacity_ok (state_of (connect_retrieved retrieved now self)).
Proof.
  revert self. induction retrieved as [|peripheral rest IH]; intros self Hok; [done|].
  simpl. unfold_M. cbn beta iota zeta.
  destruct (_at_capacity self) eqn:Hcap; [done|].
  rewrite match_device_result.
  assert (_at_capacity (expire_block now (p_identifier peripheral) self) = false)
    as Hcap1.
  { rewrite <- Hcap. by destruct (expire_block_cases now (p_identifier peripheral) self)
      as [-> | ->]. }
  pose proof (expire_block_capacity now (p_identifier peripheral) self Hok) as Hok1.
  set (self1 := expire_block now (p_identifier peripheral) self) in *. clearbody self1.
  destruct (negb (is_blocked _ _ _) && passes_filters _ _ _); simpl.
  - pose proof (connect_peripheral_capacity peripheral None self1 Hcap1) as Hok2.
    unfold state_of in Hok2.
    destruct (_connect_peripheral peripheral None self1) as [[[[]|] self2] out2];
      simpl in *; [|done].
    specialize (IH self2 Hok2). unfold state_of in IH.
    by destruct (connect_retrieved rest now self2) as [[r self3] out3].
  - specialize (IH self1 Hok1). unfold state_of in IH.
    by destruct (connect_retrieved rest now self1) as [[r self3] out3].
Qed.

(** *** On the other callbacks *)

Lemma connecting_remove_capacity device_id :
  preserves capacity_ok (connecting_remove device_id).
Proof.
  intros self Hok. unfold connecting_remove. unfold_M. simpl.
  destruct (decide _); simpl; [|done].
  intros max Hmax. specialize (Hok max Hmax). simpl in *.
  assert (size (connecting_ids self ∖ {[device_id]}) ≤ size (connecting_ids self))%nat
    by (apply subseteq_size, subseteq_difference_l; done).
  lia.
Qed.

Lemma connected_remove_capacity device_id :
  preserves capacity_ok (connected_remove device_id).
Proof.
  intros self Hok. unfold connected_remove. unfold_M. simpl.
  destruct (decide _); simpl; [|done].
  intros max Hmax. specialize (Hok max Hmax). simpl in *.
  assert (size (connected_ids self ∖ {[device_id]}) ≤ size (connected_ids self))%nat
    by (apply subseteq_size, subseteq_difference_l; done).
  lia.
Qed.

Lemma start_scan_capacity now : preserves capacity_ok (_start_scan now).
Proof.
  intros self Hok. unfold _start_scan. unfold_M. simpl.
  by destruct (negb (central self) || scanning self).
Qed.

Ltac capacity_leaf :=
  first [ apply connecting_remove_capacity | apply connected_remove_capacity
        | apply start_scan_capacity
        | match goal with H : capacity_ok _ |- capacity_ok _ => exact H end ].

Lemma did_connect_capacity peripheral self :
  p_identifier peripheral ∈ connecting_ids self
  ∨ p_identifier peripheral ∈ connected_ids self →
  capacity_ok self →
  capacity_ok (state_of (centralManager_didConnectPeripheral_ peripheral self)).
Proof.
  intros Hknown Hok.
  assert (∀ self1,
    connected_ids self1 = {[p_identifier peripheral]} ∪ connected_ids self →
    connecting_ids self1 = connecting_ids self ∖ {[p_identifier peripheral]} →
    max_devices self1 = max_devices self → capacity_ok self1) as Hgoal.
  { intros self1 Hcd Hcg Hmax max Hm. rewrite Hcd, Hcg. rewrite Hmax in Hm.
    specialize (Hok max Hm).
    destruct (decide (p_identifier peripheral ∈ connected_ids self)) as [Hin|Hout].
    - replace ({[p_identifier peripheral]} ∪ connected_ids self)
        with (connected_ids self)
        by (symmetry; by apply subseteq_union_1_L, singleton_subseteq_l).
      assert (size (connecting_ids self ∖ {[p_identifier peripheral]})
              ≤ size (connecting_ids self))%nat
        by (apply subseteq_size, subseteq_difference_l; done).
      lia.
    - destruct Hknown as [Hin|]; [|done].
      rewrite size_union, size_singleton by (by apply disjoint_singleton_l).
      rewrite size_difference by (by apply singleton_subseteq_l).
      rewrite size_singleton.
      assert (1 ≤ size (connecting_ids self))%nat.
      { rewrite <- (size_singleton (C := gset string) (p_identifier peripheral)).
        by apply subseteq_size, singleton_subseteq_l. }
      lia. }
  unfold centralManager_didConnectPeripheral_, _reset_reconnect. unfold_M. simpl.
  destruct (decide (_ ∈ connecting_ids self)) as [Hin|Hout]; simpl.
  - destruct (decide (_ ∈ connecting_ids self)); [|done]. simpl.
    destruct (decide (is_Some _)); simpl;
      [destruct (decide (is_Some _)); [|done]; simpl|]; by apply Hgoal.
  - destruct (decide (is_Some _)); simpl;
      [destruct (decide (is_Some _)); [|done]; simpl|];
      apply Hgoal; simpl; try done;
      symmetry; by apply difference_disjoint_L, disjoint_singleton_r.
Qed.

(** X24: a callback that is [capacity_safe] keeps the bound of the device
    limit: every callback but a tick with the stack ready, and a connect
    callback for a device the delegate was not connecting to. *)
Lemma capacity_kept self ev now :
  capacity_safe self ev → capacity_ok self →
  capacity_ok (state_of (handle ev now self)).
Proof.
  intros Hsafe Hok. destruct ev; simpl in *.
  - revert self Hsafe Hok. intros self _. revert self.
    change (preserves capacity_ok (centralManagerDidUpdateState_ state retrieved now)).
    unfold centralManagerDidUpdateState_.
    preserves_with ltac:(first [ intros ? ?; by apply connect_retrieved_capacity
                               | capacity_leaf ]).
  - by apply discover_capacity.
  - by apply did_connect_capacity.
  - revert self Hsafe Hok. intros self _. revert self.
    change (preserves capacity_ok (centralManager_didFailToConnectPeripheral_error_ p now)).
    preserves_with capacity_leaf.
  - revert self Hsafe Hok. intros self _. revert self.
    change (preserves capacity_ok (centralManager_didDisconnectPeripheral_error_ p now)).
    preserves_with capacity_leaf.
  - revert self Hsafe Hok. intros self _. revert self.
    change (preserves capacity_ok (peripheral_didDiscoverServices_ p error now)).
    preserves_with capacity_leaf.
  - revert self Hsafe Hok. intros self _. revert self.
    change (preserves capacity_ok
              (peripheral_didDiscoverCharacteristicsForService_error_ p s error now)).
    preserves_with capacity_leaf.
  - revert self Hsafe Hok. intros self _. revert self.
    change (preserves capacity_ok
              (peripheral_didUpdateValueForCharacteristic_error_ p c error now)).
    preserves_with capacity_leaf.
  - rewrite tick_not_ready_result.
    + exact Hok.
    + destruct Hsafe as [-> | ->]; [done|]. by rewrite orb_true_r.
Qed.

(** *** On the reconnect scheduler *)

(** C1, on the code: with [--max-devices 1], one strap connects and drops
    out, a second one takes the free slot, and the next [tick] marks the first
    one connecting again: two devices are counted against a limit of one. *)
Theorem tick_exceeds_max_devices :
  max_devices overbooked = Some 1
  ∧ elements (connected_ids overbooked) = ["BBBB"]
  ∧ elements (connecting_ids overbooked) = ["AAAA"]
  ∧ (size (connected_ids overbooked) + size (connecting_ids overbooked) = 2)%nat
  ∧ ¬ capacity_ok overbooked.
Proof.
  assert (max_devices overbooked = Some 1
          ∧ elements (connected_ids overbooked) = ["BBBB"]
          ∧ elements (connecting_ids overbooked) = ["AAAA"]
          ∧ size (connected_ids overbooked) = 1%nat
          ∧ size (connecting_ids overbooked) = 1%nat)
    as (Hmax & Hcd & Hcg & Hscd & Hscg).
  { vm_compute; repeat split. }
  split; [exact Hmax|]. split; [exact Hcd|]. split; [exact Hcg|].
  rewrite Hscd, Hscg. split; [reflexivity|].
  intros Hok. specialize (Hok 1 Hmax). rewrite Hscd, Hscg in Hok. lia.
Qed.

(** C2, on the code: in the same session the delegate is at capacity when
    the [tick] runs, and the [tick] still sends a connect request. *)
Theorem tick_connects_at_capacity :
  _at_capacity full = true
  ∧ actions (tick CBManagerStatePoweredOn 6000 full)
    = [ SetDelegate polar;
        PrintErr (MsgReconnectAttemptConnect "Polar");
        ConnectPeripheral polar ].
Proof. vm_compute; split; reflexivity. Qed.

(** ** Blocked devices *)

(** *** What the block list guarantees *)

(** X27: [_block_device] returns, records the block until the block time
    has passed, and leaves the device without a pending reconnect. *)
Lemma block_device_clears_pending device_id reason now self :
  let r := _block_device device_id reason now self in
  result r = Some tt
  ∧ blocked_ids (state_of r) !! device_id = Some (now + blocked_ttl self)
  ∧ pending_reconnect (state_of r) !! device_id = None.
Proof.
  unfold _block_device. unfold_M. simpl.
  destruct (decide (is_Some (pending_reconnect self !! device_id))) as [Hp|Hp]; simpl.
  - destruct (decide (is_Some _)); [|done]. simpl.
    by rewrite lookup_insert_eq, lookup_delete_eq.
  - rewrite lookup_insert_eq. repeat split.
    by apply eq_None_not_Some.
Qed.

(** X30: the disconnection of a device under a block that has not expired
    schedules no reconnect. *)
Lemma disconnect_while_blocked peripheral now self :
  is_blocked now (p_identifier peripheral) self = true →
  pending_reconnect
    (state_of (centralManager_didDisconnectPeripheral_error_ peripheral now self))
  = pending_reconnect self.
Proof.
  unfold is_blocked, centralManager_didDisconnectPeripheral_error_. intros Hb.
  unfold_M. simpl.
  destruct (blocked_ids self !! p_identifier peripheral) as [until|]; [|done].
  rewrite Hb.
  destruct (decide (_ ∈ connected_ids self)); simpl;
    [destruct (decide (_ ∈ connected_ids self)); [|done]|]; reflexivity.
Qed.

(** *** The callbacks that keep blocked devices out of the pending reconnects *)

Lemma block_inv_start args now : block_inv now (configure args).
Proof. intros device_id until Hb. simpl in Hb. by rewrite lookup_empty in Hb. Qed.

Lemma block_inv_later now later self :
  now ≤ later → block_inv now self → block_inv later self.
Proof. intros Hle Hinv device_id until Hb Hlt. apply (Hinv device_id until Hb). lia. Qed.

Lemma block_inv_ext now self1 self2 :
  blocked_ids self1 = blocked_ids self2 →
  pending_reconnect self1 = pending_reconnect self2 →
  block_inv now self2 → block_inv now self1.
Proof. unfold block_inv. by intros -> ->. Qed.

Lemma pending_delitem_block now device_id :
  preserves (block_inv now) (pending_delitem device_id).
Proof.
  intros self Hinv. unfold pending_delitem. unfold_M. simpl.
  destruct (decide _); simpl; [|done].
  intros k until Hb Hlt. simpl in *.
  destruct (decide (k = device_id)) as [->|Hne].
  - apply lookup_delete_eq.
  - rewrite lookup_delete_ne by done. by eapply Hinv.
Qed.

Lemma expire_block_inv now device_id self :
  block_inv now self → block_inv now (expire_block now device_id self).
Proof.
  intros Hinv. destruct (expire_block_cases now device_id self) as [-> | ->]; [done|].
  intros k until Hb Hlt. simpl in *.
  apply lookup_delete_Some in Hb as [_ Hb]. by eapply Hinv.
Qed.

Lemma match_device_block peripheral advertisementData now :
  preserves (block_inv now) (_match_device peripheral advertisementData now).
Proof.
  intros self Hinv. rewrite match_device_result. by apply expire_block_inv.
Qed.

Lemma block_device_inv device_id reason now :
  preserves (block_inv now) (_block_device device_id reason now).
Proof.
  intros self Hinv. unfold _block_device. unfold_M. simpl.
  assert (∀ pending : gmap string Z,
    pending !! device_id = None →
    (∀ k, k ≠ device_id → pending !! k = None ∨ pending !! k = pending_reconnect self !! k) →
    ∀ k until,
      <[device_id := now + blocked_ttl self]> (blocked_ids self) !! k = Some until →
      now < until → pending !! k = None) as Hgoal.
  { intros pending Hgone Hrest k until Hb Hlt.
    destruct (decide (k = device_id)) as [->|Hne]; [done|].
    rewrite lookup_insert_ne in Hb by done.
    destruct (Hrest k Hne) as [->| ->]; [done|]. by eapply Hinv. }
  destruct (decide (is_Some (pending_reconnect self !! device_id))) as [Hp|Hp]; simpl.
  - destruct (decide (is_Some _)); [|done]. simpl.
    intros k until Hb Hlt. simpl in *. eapply Hgoal; [| |exact Hb|exact Hlt].
    + apply lookup_delete_eq.
    + intros k' Hne. right. by rewrite lookup_delete_ne.
  - intros k until Hb Hlt. simpl in *. eapply Hgoal; [| |exact Hb|exact Hlt].
    + by apply eq_None_not_Some.
    + intros k' Hne. by right.
Qed.

Lemma start_scan_block now t : preserves (block_inv now) (_start_scan t).
Proof.
  intros self Hinv. unfold _start_scan. unfold_M. simpl.
  by destruct (negb (central self) || scanning self).
Qed.

Ltac block_leaf :=
  first [ apply pending_delitem_block | apply match_device_block
        | apply block_device_inv | apply start_scan_block
        | match goal with H : block_inv _ _ |- block_inv _ _ => exact H end ].

Lemma connect_retrieved_block retrieved now :
  preserves (block_inv now) (connect_retrieved retrieved now).
Proof.
  induction retrieved as [|peripheral rest IH]; simpl;
    preserves_with ltac:(first [exact IH | block_leaf]).
Qed.

Lemma disconnect_block peripheral now :
  preserves (block_inv now) (centralManager_didDisconnectPeripheral_error_ peripheral now).
Proof.
  intros self Hinv. rewrite disconnect_result. cbn zeta.
  destruct (is_blocked now (p_identifier peripheral) self) eqn:Hfree.
  { by eapply block_inv_ext. }
  unfold _schedule_reconnect. unfold_M. simpl.
  destruct (decide _); simpl; [by eapply block_inv_ext|].
  intros k until Hk Hlt. simpl in *.
  destruct (decide (k = p_identifier peripheral)) as [->|Hne].
  - unfold is_blocked in Hfree. rewrite Hk in Hfree.
    apply Z.ltb_ge in Hfree. lia.
  - rewrite lookup_insert_ne by done. by eapply Hinv.
Qed.

Lemma tick_block state now :
  preserves (block_inv now) (tick state now).
Proof.
  intros self Hinv.
  destruct (negb (central self) || negb (is_powered_on state)) eqn:Hready.
  - rewrite (tick_not_ready_result state now self Hready). unfold state_of. simpl.
    intros k until Hk Hlt. simpl in *. rewrite lookup_fmap.
    by rewrite (Hinv k until Hk Hlt).
  - apply orb_false_iff in Hready as [Hc Hp]. apply negb_false_iff in Hc, Hp.
    destruct (tick_ready_effect state now self Hc Hp)
      as (after & out & Hrun & Hframe & _ & _).
    rewrite Hrun. unfold state_of. simpl.
    destruct Hframe as (_ & _ & _ & _ & _ & _ & Hb & _ & Hk).
    intros k until Hblocked Hlt. rewrite Hb in Hblocked.
    pose proof (Hinv k until Hblocked Hlt) as Hnone.
    destruct (Hk k) as [-> _]; [|done].
    intros ([k' ts] & -> & Hin)%list_elem_of_fmap.
    apply elem_of_map_to_list in Hin. simpl in Hnone. congruence.
Qed.

(** X25: every callback but the connect-failure callback and the two
    discovery callbacks that report an error keeps blocked devices out of the
    pending reconnects. *)
Lemma block_inv_kept self ev now :
  block_safe ev → block_inv now self → block_inv now (state_of (handle ev now self)).
Proof.
  intros Hsafe. revert self.
  change (preserves (block_inv now) (handle ev now)).
  destruct ev; simpl in *; try done; subst.
  - unfold centralManagerDidUpdateState_.
    preserves_with ltac:(first [ apply connect_retrieved_block | block_leaf ]).
  - preserves_with block_leaf.
  - preserves_with block_leaf.
  - apply disconnect_block.
  - preserves_with block_leaf.
  - preserves_with block_leaf.
  - preserves_with block_leaf.
  - apply tick_block.
Qed.

(** *** The callbacks that do not *)

(** The connect-failure callback schedules a reconnect whether or not the
    device is blocked. *)
Lemma failure_ignores_block peripheral now self :
  pending_reconnect self !! p_identifier peripheral = None →
  pending_reconnect
    (state_of (centralManager_didFailToConnectPeripheral_error_ peripheral now self))
    !! p_identifier peripheral
  = Some (now + reconnect_interval self).
Proof.
  intros Hnone. unfold centralManager_didFailToConnectPeripheral_error_,
    _schedule_reconnect. unfold_M. simpl.
  destruct (decide (_ ∈ connecting_ids self)); simpl;
    [destruct (decide (_ ∈ connecting_ids self)); [|done]; simpl|];
    (destruct (decide (is_Some _)) as [[? Hsome]|_];
     [rewrite Hnone in Hsome; done|]); simpl; apply lookup_insert_eq.
Qed.

(** C3, on the code: the first characteristic callback blocks the device
    until 60400; the error reported for the second instance then schedules a
    reconnect for 5450, so the device is blocked and pending at once, and the
    [tick] at 5500 asks the stack to connect to it while the block holds. *)
Theorem blocked_device_pending_reconnect :
  blocked_ids cooling !! "CCCC" = Some 60400
  ∧ pending_reconnect cooling !! "CCCC" = Some 5450
  ∧ is_blocked 5500 "CCCC" cooling = true
  ∧ actions (tick CBManagerStatePoweredOn 5500 cooling)
    = [ SetDelegate odd_strap;
        PrintErr (MsgReconnectAttemptConnect "Strap");
        ConnectPeripheral odd_strap ].
Proof. vm_compute; repeat split. Qed.

(** * Further properties of the decoders *)

Lemma parse_payload_spec payload : parse_hr_from_payload payload = decode_spec payload.
Proof. exact (parse_corebluetooth_spec payload). Qed.

(** X1: the decoder of the broadcast scanner, [parse_hr_from_payload], gives
    the result of [parse_hr_measurement] of the three other scripts on every
    byte sequence. *)
Theorem parse_hr_from_payload_agrees (payload : list byte) :
  parse_hr_from_payload payload = ble_hr_corebluetooth.parse_hr_measurement payload
  ∧ parse_hr_from_payload payload = ble_hr_gatt.parse_hr_measurement payload
  ∧ parse_hr_from_payload payload = apple_watch_probe.parse_hr_measurement payload.
Proof. repeat split; reflexivity. Qed.

(** X2: a decoded value lies between 0 and 65535, and between 0 and 255 when
    bit 0 of the flags byte is clear. *)
Theorem parse_hr_measurement_range (data : list byte) (hr : Z) :
  ble_hr_corebluetooth.parse_hr_measurement data = Some hr →
  0 ≤ hr < 65536 ∧ (Z.testbit (getitem data 0) 0 = false → hr < 256).
Proof.
  rewrite parse_corebluetooth_spec. unfold decode_spec. intros H.
  pose proof (getitem_range data 1). pose proof (getitem_range data 2).
  repeat case_match; simplify_eq; split; (done || lia).
Qed.

Lemma parse_hr_measurement_range_witness :
  0 ≤ 72 < 65536 ∧ (Z.testbit (getitem [x00; x48] 0) 0 = false → 72 < 256).
Proof. exact (parse_hr_measurement_range [x00; x48] 72 eq_refl). Defined.

Lemma getitem_app (data more : list byte) (i : nat) :
  (i < length data)%nat → getitem (data ++ more) i = getitem data i.
Proof. intros Hi. unfold getitem. by rewrite lookup_app_l. Qed.

(** X3: the bytes after those the decoder reads do not change its result:
    a payload that decodes, decodes to the same value with any bytes
    appended (energy expended, RR intervals). *)
Theorem parse_hr_measurement_extension (data more : list byte) (hr : Z) :
  ble_hr_corebluetooth.parse_hr_measurement data = Some hr →
  ble_hr_corebluetooth.parse_hr_measurement (data ++ more) = Some hr.
Proof.
  rewrite !parse_corebluetooth_spec. unfold decode_spec.
  rewrite length_app.
  destruct (Nat.ltb_spec (length data) 2) as [?|Hlen2]; [done|].
  destruct (Nat.ltb_spec (length data + length more) 2) as [?|_]; [lia|].
  rewrite !getitem_app by lia.
  destruct (Z.testbit (getitem data 0) 0); [|done].
  destruct (Nat.ltb_spec (length data) 3) as [?|Hlen3]; [done|].
  destruct (Nat.ltb_spec (length data + length more) 3) as [?|_]; [lia|].
  by rewrite !getitem_app by lia.
Qed.

Lemma parse_hr_measurement_extension_witness :
  ble_hr_corebluetooth.parse_hr_measurement ([x10; x48] ++ [x20; x03]) = Some 72.
Proof. exact (parse_hr_measurement_extension [x10; x48] [x20; x03] 72 eq_refl). Defined.

(** X4: of the flags byte the decoder reads bit 0 only. *)
Theorem parse_hr_measurement_flags (flags flags' : byte) (rest : list byte) :
  Z.testbit (byte_val flags) 0 = Z.testbit (byte_val flags') 0 →
  ble_hr_corebluetooth.parse_hr_measurement (flags :: rest)
  = ble_hr_corebluetooth.parse_hr_measurement (flags' :: rest).
Proof.
  rewrite !parse_corebluetooth_spec. unfold decode_spec. intros Hbit.
  replace (getitem (flags :: rest) 0) with (byte_val flags) by reflexivity.
  replace (getitem (flags' :: rest) 0) with (byte_val flags') by reflexivity.
  by rewrite Hbit.
Qed.

Lemma parse_hr_measurement_flags_witness :
  ble_hr_corebluetooth.parse_hr_measurement [x16; x48; x00; x04]
  = ble_hr_corebluetooth.parse_hr_measurement [x00; x48; x00; x04].
Proof. exact (parse_hr_measurement_flags x16 x00 [x48; x00; x04] eq_refl). Defined.

Lemma parse_hr_from_payload_long (payload : list byte) :
  (3 ≤ length payload)%nat → is_Some (parse_hr_from_payload payload).
Proof.
  intros Hlen. rewrite parse_payload_spec. unfold decode_spec.
  destruct (Nat.ltb_spec (length payload) 2) as [?|_]; [lia|].
  destruct (Nat.ltb_spec (length payload) 3) as [?|_]; [lia|].
  by case_match.
Qed.

(** X5: the decoder gives no value exactly for the payloads of fewer than two
    bytes and for the two-byte payloads whose flags announce a 16-bit value;
    every payload of three or more bytes decodes. *)
Theorem parse_hr_from_payload_none (payload : list byte) :
  (parse_hr_from_payload payload = None
   ↔ (length payload < 2)%nat
     ∨ (length payload = 2%nat ∧ Z.testbit (getitem payload 0) 0 = true))
  ∧ ((3 ≤ length payload)%nat → is_Some (parse_hr_from_payload payload)).
Proof.
  rewrite parse_payload_spec. unfold decode_spec.
  destruct (Nat.ltb_spec (length payload) 2) as [?|Hlen2].
  { split; [|lia]. split; [by left|done]. }
  destruct (Z.testbit (getitem payload 0) 0).
  - destruct (Nat.ltb_spec (length payload) 3) as [?|Hlen3].
    + split; [|lia]. split; [right; split; [lia|done]|done].
    + split; [|done]. split; [done|]. intros [?|[? _]]; lia.
  - split; [|done]. split; [done|]. intros [?|[_ ?]]; [lia|done].
Qed.

(** * Substrings and lower case *)

Lemma string_app_nil (s : string) : (EmptyString +:+ s)%string = s.
Proof. reflexivity. Qed.

Lemma string_app_cons (c : ascii) (a b : string) :
  (String c a +:+ b)%string = String c (a +:+ b)%string.
Proof. reflexivity. Qed.

Lemma string_app_assoc (a b c : string) :
  ((a +:+ b) +:+ c = a +:+ (b +:+ c))%string.
Proof.
  induction a as [|x a IH]; [done|].
  by rewrite !string_app_cons, IH.
Qed.

Lemma string_app_nil_r (s : string) : (s +:+ EmptyString)%string = s.
Proof. induction s as [|c s IH]; [done|]. by rewrite string_app_cons, IH. Qed.

Lemma prefix_app (want s : string) :
  String.prefix want s = true ↔ ∃ post, s = (want +:+ post)%string.
Proof.
  revert s. induction want as [|c want IH]; intros s.
  - split; [intros _; by exists s|by destruct s].
  - destruct s as [|d s]; simpl.
    + split; [done|]. by intros [post ?].
    + destruct (Ascii.ascii_dec c d) as [->|Hne].
      * rewrite IH. split; intros [post Hpost]; exists post;
          rewrite string_app_cons in *; congruence.
      * split; [done|]. intros [post Hpost].
        rewrite string_app_cons in Hpost. congruence.
Qed.

(** [want in s] holds exactly when [s] has [want] as a contiguous part. *)
Lemma contains_app (want s : string) :
  contains want s = true ↔ ∃ pre post, s = (pre +:+ want +:+ post)%string.
Proof.
  induction s as [|d s IH].
  - cbn [contains]. rewrite orb_false_r, prefix_app. split.
    + intros [post Hpost]. by exists EmptyString, post.
    + intros (pre & post & Heq). destruct pre as [|? ?]; [|done].
      rewrite string_app_nil in Heq. by exists post.
  - cbn [contains]. rewrite orb_true_iff, prefix_app, IH. split.
    + intros [[post Hpost]|(pre & post & Heq)].
      * by exists EmptyString, post.
      * exists (String d pre), post. by rewrite string_app_cons, Heq.
    + intros (pre & post & Heq). destruct pre as [|c pre].
      * left. by exists post.
      * right. exists pre, post. rewrite string_app_cons in Heq. congruence.
Qed.

Lemma contains_trans (a b c : string) :
  contains a b = true → contains b c = true → contains a c = true.
Proof.
  rewrite !contains_app. intros (p1 & q1 & ->) (p2 & q2 & ->).
  exists (p2 +:+ p1)%string, (q1 +:+ q2)%string.
  by rewrite !string_app_assoc.
Qed.

Lemma contains_refl (s : string) : contains s s = true.
Proof.
  apply contains_app. exists EmptyString, EmptyString.
  by rewrite string_app_nil, string_app_nil_r.
Qed.

Lemma contains_empty (s : string) : contains EmptyString s = true.
Proof. apply contains_app. by exists EmptyString, s. Qed.

Lemma lower_app (a b : string) : lower (a +:+ b) = (lower a +:+ lower b)%string.
Proof.
  induction a as [|c a IH]; [done|].
  rewrite string_app_cons. simpl. by rewrite IH, string_app_cons.
Qed.

Lemma contains_lower (a b : string) :
  contains a b = true → contains (lower a) (lower b) = true.
Proof.
  rewrite !contains_app. intros (pre & post & ->).
  exists (lower pre), (lower post). by rewrite !lower_app.
Qed.

Lemma lower_ascii_idemp (c : ascii) : lower_ascii (lower_ascii c) = lower_ascii c.
Proof.
  unfold lower_ascii.
  destruct ((65 <=? nat_of_ascii c) && (nat_of_ascii c <=? 90))%nat eqn:Hup; [|by rewrite Hup].
  apply andb_true_iff in Hup as [Hlo Hhi].
  apply Nat.leb_le in Hlo, Hhi.
  rewrite nat_ascii_embedding by lia.
  replace ((65 <=? nat_of_ascii c + 32) && (nat_of_ascii c + 32 <=? 90))%nat with false; [done|].
  symmetry. apply andb_false_iff. right. apply Nat.leb_gt. lia.
Qed.

Lemma lower_idemp (s : string) : lower (lower s) = lower s.
Proof. induction s as [|c s IH]; simpl; [done|]. by rewrite lower_ascii_idemp, IH. Qed.

(** * The scanners of the bleak scripts *)

(** ** Name patterns *)

Lemma truthy_Some (o : option string) (s : string) :
  truthy o = Some s → o = Some s ∧ s ≠ EmptyString.
Proof. destruct o as [[|c r]|]; simpl; intros [= <-]; done. Qed.

Lemma lower_nonempty (s : string) : s ≠ EmptyString → lower s ≠ EmptyString.
Proof. by destruct s. Qed.

(** X6: [match_name] compares without regard to case, and a pattern that is
    part of another pattern matches every device the longer one matches. *)
Theorem match_name_substring (device : BLEDevice) (adv : BleakAdvertisement)
    (short long : string) :
  contains (lower short) (lower long) = true →
  match_name device adv (Some long) = true →
  match_name device adv (Some short) = true.
Proof.
  intros Hpart. unfold match_name.
  destruct (truthy (Some short)) as [short'|] eqn:Hs; [|done].
  apply truthy_Some in Hs as [[= <-] _].
  destruct (truthy (Some long)) as [long'|] eqn:Hl.
  - apply truthy_Some in Hl as [[= <-] _]. simpl.
    rewrite !orb_true_iff. intros [H|H]; [left|right]; by eapply contains_trans.
  - destruct long; [|done]. intros _. simpl.
    assert (lower short = EmptyString) as ->.
    { apply contains_app in Hpart as (pre & post & Heq). simpl in Heq.
      destruct pre; [|done]. rewrite string_app_nil in Heq.
      by destruct (lower short). }
    by rewrite contains_empty.
Qed.

Lemma match_name_substring_witness :
  match_name strap_near.1 strap_near.2 (Some "polar") = true.
Proof.
  apply (match_name_substring strap_near.1 strap_near.2 "polar" "Polar VERITY");
    vm_compute; reflexivity.
Defined.

(** ** The choice of [find_device] *)

(** The head of a list sorted in reverse is the first of its elements of
    greatest key. *)
Lemma sort_reverse_head {A} (key : A → Z) (l : list A) (x : A) (rest : list A) :
  sort_reverse key l = x :: rest →
  ∃ pre post, l = pre ++ x :: post
    ∧ Forall (λ y, key y < key x) pre
    ∧ Forall (λ y, key y ≤ key x) post.
Proof.
  revert x rest. induction l as [|a l IH]; intros x rest; [done|].
  cbn [sort_reverse foldr]. fold (sort_reverse key l).
  destruct (sort_reverse key l) as [|h t] eqn:Hsort.
  - simpl. intros [= Hx Hr]. subst x rest. exists [], l. split; [done|].
    split; [constructor|].
    destruct l as [|b l]; [constructor|].
    cbn [sort_reverse foldr] in Hsort.
    by destruct (foldr (insert_reverse key) [] l); simpl in Hsort;
      [|destruct (_ <? _) in Hsort].
  - destruct (IH h t eq_refl) as (pre & post & -> & Hpre & Hpost).
    simpl. destruct (Z.ltb_spec (key a) (key h)) as [Hlt|Hge].
    + intros [= Hx Hr]. subst x rest. exists (a :: pre), post.
      split; [done|]. split; [|done]. by constructor.
    + intros [= Hx Hr]. subst x rest. exists [], (pre ++ h :: post).
      split; [done|]. split; [constructor|]. apply Forall_app. split.
      * eapply Forall_impl; [exact Hpre|]. simpl. lia.
      * constructor; [done|]. eapply Forall_impl; [exact Hpost|]. simpl. lia.
Qed.

Lemma sort_reverse_nil {A} (key : A → Z) (l : list A) :
  sort_reverse key l = [] → l = [].
Proof.
  destruct l as [|a l]; [done|]. cbn [sort_reverse foldr].
  by destruct (foldr (insert_reverse key) [] l); simpl; [|destruct (_ <? _)].
Qed.

Lemma find_candidates_filter name_substr require_service devices :
  find_candidates name_substr require_service devices
  = List.filter (accepted name_substr require_service) devices.
Proof.
  induction devices as [|[device adv] rest IH]; [done|].
  simpl. unfold accepted at 1. simpl.
  destruct (match_name device adv name_substr); simpl; [|done].
  destruct require_service; simpl; [|by rewrite IH].
  destruct (match_service adv (Some HEART_RATE_SERVICE)); simpl; by rewrite ?IH.
Qed.

Lemma filter_split {A} (f : A → bool) (l : list A) (x : A) (pre' post' : list A) :
  List.filter f l = pre' ++ x :: post' →
  ∃ pre post, l = pre ++ x :: post ∧ f x = true
    ∧ List.filter f pre = pre' ∧ List.filter f post = post'.
Proof.
  revert pre'. induction l as [|a l IH]; intros pre'; simpl.
  - by destruct pre'.
  - destruct (f a) eqn:Hfa.
    + destruct pre' as [|b pre'].
      * intros [= Ha Hrest]. subst a. exists [], l. simpl. by rewrite Hrest.
      * intros [= Ha Hrest]. subst b.
        destruct (IH pre' Hrest) as (pre & post & -> & Hx & Hp & Hq).
        exists (a :: pre), post. simpl. by rewrite Hfa, Hp.
    + intros Hrest. destruct (IH pre' Hrest) as (pre & post & -> & Hx & Hp & Hq).
      exists (a :: pre), post. simpl. by rewrite Hfa, Hp.
Qed.

Lemma Forall_filter_inv {A} (f : A → bool) (P : A → Prop) (l : list A) :
  Forall P (List.filter f l) → ∀ y, y ∈ l → f y = true → P y.
Proof.
  intros Hall y Hin Hf. rewrite Forall_forall in Hall. apply Hall.
  apply list_elem_of_In, filter_In. split; [by apply list_elem_of_In|done].
Qed.

(** X7: without an address, [find_device] answers the address of a scanned
    device that passes the name pattern (and advertises the Heart Rate
    service when that is required) and whose signal is strongest among those
    that do: stronger than every such device detected before it, and at least
    as strong as every one detected after it.  A device without a signal
    reading counts as -999. *)
Theorem find_device_strongest (name_substr : option string)
    (devices : list (BLEDevice * BleakAdvertisement)) (require_service : bool)
    (found : string) :
  find_device name_substr None devices require_service = Some found →
  ∃ before chosen after,
    devices = before ++ chosen :: after
    ∧ found = d_address chosen.1
    ∧ accepted name_substr require_service chosen = true
    ∧ (∀ x, x ∈ before → accepted name_substr require_service x = true →
         rssi_key x < rssi_key chosen)
    ∧ (∀ x, x ∈ after → accepted name_substr require_service x = true →
         rssi_key x ≤ rssi_key chosen).
Proof.
  unfold find_device. simpl. rewrite find_candidates_filter.
  destruct devices as [|d0 ds]; [done|].
  set (devices := d0 :: ds). clearbody devices.
  destruct (List.filter _ devices) as [|c cs] eqn:Hfilter; [done|].
  rewrite <- Hfilter.
  destruct (sort_reverse rssi_key (List.filter _ devices)) as [|first rest] eqn:Hsort;
    [done|].
  intros [= <-].
  apply sort_reverse_head in Hsort as (pre' & post' & Hsplit & Hpre & Hpost).
  apply filter_split in Hsplit as (pre & post & -> & Hacc & <- & <-).
  exists pre, first, post. repeat split; try done.
  - by apply Forall_filter_inv.
  - by apply Forall_filter_inv.
Qed.

Lemma find_device_strongest_witness :
  ∃ before chosen after,
    [strap_far; beacon; strap_near; strap_twin] = before ++ chosen :: after
    ∧ "AA:02"%string = d_address chosen.1
    ∧ accepted (Some "Polar") false chosen = true
    ∧ (∀ x, x ∈ before → accepted (Some "Polar") false x = true →
         rssi_key x < rssi_key chosen)
    ∧ (∀ x, x ∈ after → accepted (Some "Polar") false x = true →
         rssi_key x ≤ rssi_key chosen).
Proof.
  apply (find_device_strongest (Some "Polar")
           [strap_far; beacon; strap_near; strap_twin] false "AA:02").
  vm_compute. reflexivity.
Defined.

(** X8: without an address, [find_device] answers [None] exactly when no
    scanned device is accepted; with an address it answers that address
    whatever the scan found. *)
Theorem find_device_none (name_substr : option string)
    (devices : list (BLEDevice * BleakAdvertisement)) (require_service : bool) :
  (find_device name_substr None devices require_service = None
   ↔ Forall (λ x, accepted name_substr require_service x = false) devices)
  ∧ ∀ c address, find_device name_substr (Some (String c address)) devices require_service
                 = Some (String c address).
Proof.
  split; [|done].
  unfold find_device. simpl. rewrite find_candidates_filter.
  assert (List.filter (accepted name_substr require_service) devices = []
          ↔ Forall (λ x, accepted name_substr require_service x = false) devices) as Hnil.
  { induction devices as [|d ds IH]; simpl.
    - split; [constructor|done].
    - destruct (accepted name_substr require_service d) eqn:Hd.
      + split; [done|]. intros Hall. apply Forall_cons in Hall as [? _]. congruence.
      + rewrite IH. split; [by constructor|]. by intros [_ ?]%Forall_cons. }
  destruct devices as [|d0 ds]; [split; [constructor|done]|].
  set (devices := d0 :: ds) in *. clearbody devices.
  rewrite <- Hnil.
  destruct (List.filter _ devices) as [|c cs] eqn:Hfilter; [done|].
  destruct (sort_reverse rssi_key (c :: cs)) as [|first rest] eqn:Hsort; [|done].
  by apply sort_reverse_nil in Hsort.
Qed.

(** ** The Apple Watch probe *)

(** X9: a name hint that contains "watch", in any case, adds no candidate:
    [is_apple_watch] answers as it does without a hint.  The default hint of
    [--name], "Apple Watch", is such a hint. *)
Theorem is_apple_watch_hint_redundant (device : BLEDevice) (adv : BleakAdvertisement)
    (name_hint : string) :
  contains "watch" (lower name_hint) = true →
  is_apple_watch device adv name_hint = is_apple_watch device adv EmptyString.
Proof.
  intros Hhint. unfold is_apple_watch, _name_match. simpl.
  destruct name_hint as [|c hint]; [done|].
  change (negb (String.eqb (String c hint) EmptyString)) with true.
  cbn [andb].
  destruct (contains (lower (String c hint)) (dev_name_lower device)
            || contains (lower (String c hint)) (local_name_lower adv)) eqn:Hmatch;
    [|done].
  apply orb_true_iff in Hmatch.
  assert (contains "watch" (dev_name_lower device)
          || contains "watch" (local_name_lower adv) = true) as ->; [|done].
  apply orb_true_iff.
  destruct Hmatch as [H|H]; [left|right]; by eapply contains_trans.
Qed.

Lemma is_apple_watch_hint_redundant_witness :
  is_apple_watch strap_near.1 strap_near.2 "Apple Watch"
  = is_apple_watch strap_near.1 strap_near.2 EmptyString.
Proof.
  apply (is_apple_watch_hint_redundant strap_near.1 strap_near.2 "Apple Watch").
  vm_compute. reflexivity.
Defined.

(** ** The broadcast scanner *)

(** X10: [match_device] of the broadcast scanner is its address test together
    with the name test [match_name] of the GATT client. *)
Theorem match_device_decomposes (device : BLEDevice) (adv : BleakAdvertisement)
    (want_name want_addr : option string) :
  match_device (d_name device) (a_local_name adv) (d_address device) want_name want_addr
  = match_device (d_name device) (a_local_name adv) (d_address device) None want_addr
    && match_name device adv want_name.
Proof.
  unfold match_device, match_name, dev_name_lower, local_name_lower. simpl.
  destruct (match truthy want_addr with Some _ => _ | None => _ end); [done|].
  simpl. destruct (truthy want_name) as [want|]; [|done].
  by destruct (contains _ _), (contains _ _).
Qed.

Lemma first_candidate_long {K} (items : list (K * list byte)) (k : K) (data : list byte) :
  (k, data) ∈ items → (3 ≤ length data)%nat → is_Some (first_candidate items).
Proof.
  intros Hin Hlen. induction items as [|[k' data'] rest IH].
  - by apply elem_of_nil in Hin.
  - simpl. destruct (parse_hr_from_payload data') as [hr|] eqn:Hparse; [by eexists|].
    apply elem_of_cons in Hin as [[= <- <-]|Hin]; [|by apply IH].
    destruct (parse_hr_from_payload_long data Hlen) as [hr Hhr]. congruence.
Qed.

(** X11: the broadcast scanner reads a heart rate out of any long enough
    payload: with neither [--raw] nor [--dump], for a device that passes the
    filters and whose advertisement carries a service-data or manufacturer
    payload of three bytes or more, [detection_callback] prints one
    heart-rate line. *)
Theorem detection_callback_long_payload (args_name args_address : option string)
    (device : BLEDevice) (adv : BleakAdvertisement) (data : list byte) :
  match_device (d_name device) (a_local_name adv) (d_address device)
    args_name args_address = true →
  data ∈ (a_service_data adv).*2 ++ (a_manufacturer_data adv).*2 →
  (3 ≤ length data)%nat →
  ∃ hr, detection_callback args_name args_address false false device adv
        = [HRLine (shown_name device adv) (d_address device) hr].
Proof.
  intros Hmatch Hin Hlen. unfold detection_callback. rewrite Hmatch. simpl.
  destruct (first_candidate (a_service_data adv)) as [hr|] eqn:Hsvc; [by exists hr|].
  apply elem_of_app in Hin as [Hin|Hin];
    apply list_elem_of_fmap in Hin as ([k data'] & -> & Hin).
  - destruct (first_candidate_long _ k data' Hin Hlen) as [hr Hhr]. congruence.
  - destruct (first_candidate_long _ k data' Hin Hlen) as [hr ->]. by exists hr.
Qed.

Lemma detection_callback_long_payload_witness :
  ∃ hr, detection_callback None None false false beacon.1 beacon.2
        = [HRLine "Tag" "AA:04" hr].
Proof.
  apply (detection_callback_long_payload None None beacon.1 beacon.2 [x02; x15; x00; x01]).
  - reflexivity.
  - simpl. list_mem.
  - vm_compute. lia.
Defined.

(** * The callbacks of the listener *)

Lemma reachable_run evs self : reachable self → reachable (run evs self).
Proof.
  revert self. induction evs as [|[ev now] rest IH]; intros self Hr; simpl; [done|].
  apply IH. by constructor.
Qed.

(** ** The configuration *)

Ltac configuration_leaf :=
  idtac;
  lazymatch goal with
  | |- preserves _ _ => fail
  | |- _ =>
      cbv beta in *;
      match goal with
      | H : same_configuration ?s ?t |- same_configuration _ ?t => exact H
      end
  end.

Lemma start_scan_configuration self0 now :
  preserves (λ self, same_configuration self self0) (_start_scan now).
Proof. unfold _start_scan. preserves_with configuration_leaf. Qed.

Lemma stop_scan_configuration self0 :
  preserves (λ self, same_configuration self self0) _stop_scan.
Proof. unfold _stop_scan. preserves_with configuration_leaf. Qed.

Lemma connect_retrieved_configuration self0 retrieved now :
  preserves (λ self, same_configuration self self0) (connect_retrieved retrieved now).
Proof.
  induction retrieved as [|peripheral rest IH]; simpl;
    preserves_with ltac:(first [exact IH | configuration_leaf]).
Qed.

Lemma handle_configuration self0 ev now :
  preserves (λ self, same_configuration self self0) (handle ev now).
Proof.
  destruct ev; simpl;
    preserves_with ltac:(idtac; lazymatch goal with
                         | |- preserves _ (connect_retrieved _ _) =>
                             apply connect_retrieved_configuration
                         | |- preserves _ (_start_scan _) =>
                             apply start_scan_configuration
                         | |- preserves _ _stop_scan => apply stop_scan_configuration
                         | |- _ => configuration_leaf
                         end).
Qed.

(** X12: no callback and no tick changes the configuration: after any
    sequence of events the reconnect interval, the block time, the output
    path, the filters, the preferred names, the grace period, the device
    limit and the scan mode are those the delegate started with. *)
Theorem configuration_fixed (evs : list (Event * Z)) (self : HRDelegate) :
  same_configuration (run evs self) self.
Proof.
  assert (∀ s, same_configuration s self → same_configuration (run evs s) self) as H.
  { induction evs as [|[ev now] rest IH]; intros s Hs; simpl; [done|].
    apply IH. by apply handle_configuration. }
  apply H. by repeat split.
Qed.

(** ** No exception once the central manager is stored *)

Lemma returns_ready_bind (m k : M unit) self :
  returns_ready m self → (∀ s, central s = true → returns_ready k s) →
  returns_ready (m ;; k) self.
Proof.
  unfold returns_ready, result, state_of. unfold_M.
  intros [Hr Hc] Hk. destruct (m self) as [[r s1] out1]. simpl in *. subst r.
  specialize (Hk s1 Hc). by destruct (k s1) as [[r2 s2] out2].
Qed.

Lemma start_scan_returns now self :
  central self = true → returns_ready (_start_scan now) self.
Proof.
  intros Hc. unfold returns_ready, _start_scan. unfold_M. simpl. rewrite Hc. simpl.
  by destruct (scanning self).
Qed.

Lemma schedule_reconnect_returns device_id reason now self :
  central self = true → returns_ready (_schedule_reconnect device_id reason now) self.
Proof.
  intros Hc. unfold returns_ready, _schedule_reconnect. unfold_M. simpl.
  by destruct (decide (is_Some _)).
Qed.

Lemma connect_peripheral_returns peripheral advertisementData self :
  central self = true →
  returns_ready (_connect_peripheral peripheral advertisementData) self.
Proof.
  intros Hc. unfold returns_ready. rewrite connect_peripheral_result.
  cbn zeta. destruct (decide _); [done|]. rewrite Hc.
  rewrite update_name_result. unfold result, state_of. simpl.
  by destruct (adv_local_name advertisementData), (truthy (p_name peripheral)).
Qed.

Lemma expire_block_central now device_id self :
  central (expire_block now device_id self) = central self.
Proof. by destruct (expire_block_cases now device_id self) as [-> | ->]. Qed.

Lemma connect_retrieved_returns retrieved now self :
  central self = true → returns_ready (connect_retrieved retrieved now) self.
Proof.
  revert self. induction retrieved as [|peripheral rest IH]; intros self Hc; [done|].
  cbn [connect_retrieved]. unfold returns_ready. unfold_M. cbn beta iota.
  destruct (_at_capacity self); [done|].
  rewrite match_device_result. cbn beta iota.
  pose proof (expire_block_central now (p_identifier peripheral) self) as Hc1.
  rewrite Hc in Hc1.
  destruct (negb (is_blocked _ _ _) && passes_filters _ _ _); cbn [negb]; cbn beta iota.
  - destruct (connect_peripheral_returns peripheral None _ Hc1) as [Hr2 Hc2].
    unfold result, state_of in Hr2, Hc2.
    destruct (_connect_peripheral peripheral None _) as [[r2 s2] out2].
    simpl in Hr2, Hc2. subst r2.
    destruct (IH s2 Hc2) as [Hr3 Hc3]. unfold result, state_of in Hr3, Hc3.
    by destruct (connect_retrieved rest now s2) as [[r3 s3] out3].
  - destruct (IH _ Hc1) as [Hr3 Hc3]. unfold result, state_of in Hr3, Hc3.
    by destruct (connect_retrieved rest now _) as [[r3 s3] out3].
Qed.

(** A loop that only sends requests returns and leaves the delegate alone. *)
Lemma for_each_emit_only {A} (xs : list A) (f : A → bool) (g : A → Action) self :
  for_each xs (λ x, if f x then emit (g x) else skip) self
  = (Some tt, self, g <$> List.filter f xs).
Proof.
  set (body := λ x, if f x then emit (g x) else skip) in *.
  induction xs as [|x rest IH]; [done|].
  cbn [for_each List.filter]. unfold mbind, M_bind. unfold body at 1.
  destruct (f x); [unfold emit at 1|unfold skip at 1, mret at 1, M_ret at 1];
    cbn beta iota; by rewrite IH.
Qed.

Lemma block_device_returns device_id reason now self :
  central self = true → returns_ready (_block_device device_id reason now) self.
Proof.
  intros Hc. unfold returns_ready, _block_device. unfold_M. simpl.
  destruct (decide (is_Some _)); simpl; [|done].
  by destruct (decide (is_Some _)).
Qed.

Lemma cancel_returns peripheral self :
  central self = true → returns_ready (try_pass (central_cancel peripheral)) self.
Proof. intros Hc. unfold returns_ready. unfold_M. simpl. by rewrite Hc. Qed.

(** Once the central manager is stored (the first state update stores it),
    a callback or a tick that runs from its first statement to its last,
    with no other callback in between, does not raise, and the manager stays
    stored.  [tick_raises_when_connect_lands] below has a callback in
    between. *)
Theorem callbacks_do_not_raise (ev : Event) (now : Z) (self : HRDelegate) :
  central self = true →
  result (handle ev now self) = Some tt
  ∧ central (state_of (handle ev now self)) = true.
Proof.
  intros Hc. change (returns_ready (handle ev now) self).
  destruct ev as [state retrieved|p adv|p|p|p|p error|p s error|p c error|state];
    cbn [handle].
  - unfold centralManagerDidUpdateState_.
    apply returns_ready_bind; [done|]. intros s1 Hc1.
    destruct (is_powered_on state); cbn [negb]; [|done].
    apply returns_ready_bind; [by apply connect_retrieved_returns|].
    intros s2 Hc2. by apply start_scan_returns.
  - unfold returns_ready. rewrite discover_result. cbn zeta.
    pose proof (seen_frame p adv now self) as (_ & _ & _ & _ & _ & _ & _ & Hc1).
    cbn zeta in Hc1. rewrite Hc in Hc1.
    case_match; [by apply connect_peripheral_returns|done].
  - unfold returns_ready, centralManager_didConnectPeripheral_, _reset_reconnect.
    unfold_M. simpl.
    destruct (decide (_ ∈ connecting_ids self)); simpl;
      [destruct (decide (_ ∈ connecting_ids self)); [|done]; simpl|];
      (destruct (decide (is_Some _)); simpl;
       [destruct (decide (is_Some _)); [|done]; simpl|]); done.
  - unfold returns_ready, centralManager_didFailToConnectPeripheral_error_,
      _schedule_reconnect.
    unfold_M. simpl.
    destruct (decide (_ ∈ connecting_ids self)); simpl;
      [destruct (decide (_ ∈ connecting_ids self)); [|done]; simpl|];
      by destruct (decide (is_Some _)).
  - unfold returns_ready. rewrite disconnect_result. cbn zeta.
    destruct (is_blocked _ _ _); [done|].
    match goal with |- context [_schedule_reconnect ?i ?r ?n ?s] =>
      destruct (schedule_reconnect_returns i r n s Hc) as [Hr1 Hc1];
      unfold result, state_of in Hr1, Hc1;
      by destruct (_schedule_reconnect i r n s) as [[r1 s1] out1]
    end.
  - unfold peripheral_didDiscoverServices_.
    destruct error; [by apply schedule_reconnect_returns|].
    apply returns_ready_bind.
    { unfold returns_ready. by rewrite for_each_emit_only. }
    intros s1 Hc1. destruct (existsb _ _); [done|].
    apply returns_ready_bind; [by apply block_device_returns|].
    intros s2 Hc2. by apply cancel_returns.
  - unfold peripheral_didDiscoverCharacteristicsForService_error_.
    destruct error; [by apply schedule_reconnect_returns|].
    apply returns_ready_bind.
    { unfold returns_ready. by rewrite for_each_emit_only. }
    intros s1 Hc1. destruct (existsb _ _); [done|].
    apply returns_ready_bind; [by apply block_device_returns|].
    intros s2 Hc2. by apply cancel_returns.
  - unfold returns_ready, peripheral_didUpdateValueForCharacteristic_error_.
    destruct error; [done|].
    destruct (char_value c) as [value|] eqn:Hvalue; [|done].
    destruct (ble_hr_corebluetooth.parse_hr_measurement value) as [hr|] eqn:Hparse;
      [|done].
    unfold _write_hr. unfold_M. cbn beta iota. rewrite update_name_result.
    destruct (adv_local_name None), (truthy (p_name p)); simpl;
      destruct (truthy (outfile self)); simpl; try done;
      by destruct (outfh self).
  - destruct (negb (central self) || negb (is_powered_on state)) eqn:Hready.
    + unfold returns_ready. by rewrite (tick_not_ready_result state now self Hready).
    + apply orb_false_iff in Hready as [_ Hp]. apply negb_false_iff in Hp.
      destruct (tick_ready_effect state now self Hc Hp)
        as (after & out & Hrun & Hframe & _).
      unfold returns_ready. rewrite Hrun.
      destruct Hframe as (_ & _ & _ & Hca & _). unfold result, state_of. simpl.
      split; [done|]. by rewrite Hca.
Qed.

Lemma callbacks_do_not_raise_witness :
  result (handle (DidDiscoverPeripheral polar None) 1500 waiting) = Some tt
  ∧ central (state_of (handle (DidDiscoverPeripheral polar None) 1500 waiting)) = true.
Proof.
  apply (callbacks_do_not_raise (DidDiscoverPeripheral polar None) 1500 waiting).
  vm_compute. reflexivity.
Defined.

(** ** The connection sets *)

Lemma connection_inv_ext self1 self2 :
  connected_ids self1 = connected_ids self2 →
  connecting_ids self1 = connecting_ids self2 →
  peripherals self1 = peripherals self2 →
  scanning self1 = scanning self2 →
  central self1 = central self2 →
  connection_inv self2 → connection_inv self1.
Proof. unfold connection_inv. by intros -> -> -> -> ->. Qed.

Ltac connection_assign :=
  cbv beta in *;
  match goal with
  | H : connection_inv ?s |- connection_inv _ =>
      by apply (connection_inv_ext _ s)
  end.

Lemma store_handle_connection peripheral self :
  connection_inv self →
  connection_inv
    (set_peripherals (<[p_identifier peripheral := peripheral]> (peripherals self)) self).
Proof.
  intros (Hd & Hc & Hs). split; [done|]. split; [|done].
  intros k Hk. simpl. destruct (decide (k = p_identifier peripheral)) as [->|Hne].
  - rewrite lookup_insert_eq. by eexists.
  - rewrite lookup_insert_ne by done. by apply Hc.
Qed.

Lemma start_scan_connection now : preserves connection_inv (_start_scan now).
Proof.
  intros self Hinv. pose proof Hinv as (Hd & Hc & Hs).
  unfold _start_scan. unfold_M. simpl.
  destruct (central self) eqn:Hcentral, (scanning self) eqn:Hscan; simpl; done.
Qed.

Lemma stop_scan_connection : preserves connection_inv _stop_scan.
Proof.
  intros self Hinv. pose proof Hinv as (Hd & Hc & Hs).
  unfold _stop_scan. unfold_M. simpl.
  destruct (central self) eqn:Hcentral, (scanning self) eqn:Hscan; simpl; done.
Qed.

Lemma connect_peripheral_connection peripheral advertisementData :
  preserves connection_inv (_connect_peripheral peripheral advertisementData).
Proof.
  intros self Hinv. pose proof Hinv as (Hd & Hc & Hs).
  rewrite connect_peripheral_result. cbn zeta.
  destruct (decide _) as [Hknown|Hnew]; [done|].
  rewrite update_name_result. unfold state_of. simpl.
  assert (connection_inv
            (set_connecting_ids ({[p_identifier peripheral]} ∪ connecting_ids self)
               (set_peripherals
                  (<[p_identifier peripheral := peripheral]> (peripherals self)) self)))
    as Hgoal.
  { split; [|split]; simpl; [| |done].
    - intros k Hk [->%elem_of_singleton|Hin]%elem_of_union; [tauto|by eapply Hd].
    - intros k [->%elem_of_singleton|Hin]%elem_of_union.
      + rewrite lookup_insert_eq. by eexists.
      + destruct (decide (k = p_identifier peripheral)) as [->|Hne].
        * rewrite lookup_insert_eq. by eexists.
        * rewrite lookup_insert_ne by done. by apply Hc. }
  destruct (adv_local_name advertisementData), (truthy (p_name peripheral));
    by eapply connection_inv_ext; [..|exact Hgoal].
Qed.

Lemma connecting_remove_connection device_id :
  preserves connection_inv (connecting_remove device_id).
Proof.
  intros self Hinv. pose proof Hinv as (Hd & Hc & Hs).
  unfold connecting_remove. unfold_M. simpl.
  destruct (decide _); [|done]. simpl. split; [|split]; simpl; [| |done].
  - intros k Hk [Hin _]%elem_of_difference. by eapply Hd.
  - intros k [Hin _]%elem_of_difference. by apply Hc.
Qed.

Lemma connected_remove_connection device_id :
  preserves connection_inv (connected_remove device_id).
Proof.
  intros self Hinv. pose proof Hinv as (Hd & Hc & Hs).
  unfold connected_remove. unfold_M. simpl.
  destruct (decide _); [|done]. simpl. split; [|done]. simpl.
  intros k [Hin _]%elem_of_difference. by apply Hd.
Qed.

Lemma did_connect_connection peripheral :
  preserves connection_inv (centralManager_didConnectPeripheral_ peripheral).
Proof.
  intros self (Hd & Hc & Hs).
  assert (connection_inv
            (set_connecting_ids (connecting_ids self ∖ {[p_identifier peripheral]})
               (set_connected_ids ({[p_identifier peripheral]} ∪ connected_ids self)
                  (set_connected true self)))) as Hgoal.
  { split; [|split]; simpl; [| |done].
    - intros k [->%elem_of_singleton|Hin]%elem_of_union
        [Hin' Hne]%elem_of_difference.
      + by apply Hne, elem_of_singleton.
      + by eapply Hd.
    - intros k [Hin _]%elem_of_difference. by apply Hc. }
  assert (p_identifier peripheral ∉ connecting_ids self →
          connection_inv
            (set_connected_ids ({[p_identifier peripheral]} ∪ connected_ids self)
               (set_connected true self))) as Hgoal'.
  { intros Hout. eapply connection_inv_ext; [..|exact Hgoal]; try done. simpl.
    symmetry. by apply difference_disjoint_L, disjoint_singleton_r. }
  unfold centralManager_didConnectPeripheral_, _reset_reconnect. unfold_M. simpl.
  destruct (decide (_ ∈ connecting_ids self)) as [Hin|Hout]; simpl.
  - destruct (decide (_ ∈ connecting_ids self)); [|done]. simpl.
    destruct (decide (is_Some _)); simpl;
      [destruct (decide (is_Some _)); [|done]; simpl|];
      by eapply connection_inv_ext; [..|exact Hgoal].
  - specialize (Hgoal' Hout).
    destruct (decide (is_Some _)); simpl;
      [destruct (decide (is_Some _)); [|done]; simpl|];
      by eapply connection_inv_ext; [..|exact Hgoal'].
Qed.

Lemma tick_connection state now : preserves connection_inv (tick state now).
Proof.
  intros self Hinv.
  destruct (negb (central self) || negb (is_powered_on state)) eqn:Hready.
  - rewrite (tick_not_ready_result state now self Hready). unfold state_of. simpl.
    by eapply connection_inv_ext; [..|exact Hinv].
  - apply orb_false_iff in Hready as [Hc Hp]. apply negb_false_iff in Hc, Hp.
    destruct (tick_ready_effect state now self Hc Hp)
      as (after & out & Hrun & Hframe & Hout & _).
    rewrite Hrun. unfold state_of. simpl.
    destruct Hframe as (Hcd & Hper & _ & Hcentral & _ & _ & _ & _ & Hk).
    destruct Hinv as (Hd & Hcached & Hs).
    assert (∀ k, k ∈ connecting_ids after →
              k ∈ connecting_ids self
              ∨ (k ∉ connected_ids self) ∧ is_Some (peripherals self !! k)) as Hcases.
    { intros k Hin.
      destruct (pending_reconnect self !! k) as [ts|] eqn:Hpending.
      - destruct (Hout k ts Hpending) as (Hlater & Hdrop & Hbusy & Hconn & Hscan).
        destruct (Z.lt_ge_cases now ts) as [Hlt|Hge].
        { left. by apply (Hlater Hlt). }
        destruct (decide (k ∈ connected_ids self)) as [Hcon|Hncon].
        { left. by apply (Hdrop Hge Hcon). }
        destruct (decide (k ∈ connecting_ids self)) as [Hing|Hning]; [by left|].
        destruct (peripherals self !! k) as [p|] eqn:Hp'.
        + right. split; [done|]. by eexists.
        + by destruct (Hscan Hge Hncon Hning eq_refl) as (_ & Hnot & _).
      - left. apply (Hk k); [|done].
        intros ([k' ts] & -> & Hin')%list_elem_of_fmap.
        apply elem_of_map_to_list in Hin'. simpl in Hpending. congruence. }
    split; [|split].
    + intros k Hcon Hing. rewrite Hcd in Hcon.
      destruct (Hcases k Hing) as [Hbefore|[Hncon _]]; [by eapply Hd|done].
    + intros k Hing. rewrite Hper.
      destruct (Hcases k Hing) as [Hbefore|[_ Hsome]]; [by apply Hcached|done].
    + intros _. by rewrite Hcentral.
Qed.

Lemma set_central_connection self :
  connection_inv self → connection_inv (set_central true self).
Proof. intros (Hd & Hc & Hs). by split; [|split]. Qed.

Ltac connection_leaf :=
  idtac;
  lazymatch goal with
  | |- preserves _ (_start_scan _) => apply start_scan_connection
  | |- preserves _ _stop_scan => apply stop_scan_connection
  | |- preserves _ (_connect_peripheral _ _) => apply connect_peripheral_connection
  | |- preserves _ (connecting_remove _) => apply connecting_remove_connection
  | |- preserves _ (connected_remove _) => apply connected_remove_connection
  | |- preserves _ _ => fail
  | |- _ =>
      cbv beta in *;
      first [ by apply store_handle_connection
            | by apply set_central_connection
            | connection_assign ]
  end.

Lemma connect_retrieved_connection retrieved now :
  preserves connection_inv (connect_retrieved retrieved now).
Proof.
  induction retrieved as [|peripheral rest IH]; simpl;
    preserves_with ltac:(first [exact IH | connection_leaf]).
Qed.

Lemma handle_connection ev now : preserves connection_inv (handle ev now).
Proof.
  destruct ev; cbn [handle].
  - unfold centralManagerDidUpdateState_.
    preserves_with ltac:(first [ apply connect_retrieved_connection
                               | connection_leaf ]).
  - preserves_with connection_leaf.
  - apply did_connect_connection.
  - preserves_with connection_leaf.
  - preserves_with connection_leaf.
  - preserves_with connection_leaf.
  - preserves_with connection_leaf.
  - preserves_with connection_leaf.
  - apply tick_connection.
Qed.

Lemma reachable_connection self : reachable self → connection_inv self.
Proof.
  induction 1 as [args|self ev now _ IH].
  - split; [|split]; simpl; [| |done]; intros k Hk; by apply elem_of_empty in Hk.
  - by apply handle_connection.
Qed.

(** X14: in every state the delegate reaches, no device is in the connected
    set and in the connecting set at once, and every device of the
    connecting set has a cached peripheral handle. *)
Theorem connection_sets_consistent (self : HRDelegate) :
  reachable self →
  connected_ids self ∩ connecting_ids self = ∅
  ∧ connecting_ids self ⊆ dom (peripherals self).
Proof.
  intros (Hd & Hc & _)%reachable_connection. split.
  - apply elem_of_equiv_empty_L. intros k [Hcon Hing]%elem_of_intersection.
    by eapply Hd.
  - intros k Hk. apply elem_of_dom. by apply Hc.
Qed.

Lemma connection_sets_consistent_witness :
  connected_ids overbooked ∩ connecting_ids overbooked = ∅
  ∧ connecting_ids overbooked ⊆ dom (peripherals overbooked).
Proof.
  apply (connection_sets_consistent overbooked).
  apply reachable_run, reachable_start.
Defined.

(** X15: in every state the delegate reaches, a scan is marked active only
    when a central manager is stored; [_stop_scan] can then stop it. *)
Theorem scanning_needs_central (self : HRDelegate) :
  reachable self → scanning self = true →
  central self = true ∧ actions (_stop_scan self) = [StopScan].
Proof.
  intros (_ & _ & Hs)%reachable_connection Hscan. specialize (Hs Hscan).
  split; [done|]. unfold _stop_scan. unfold_M. simpl. by rewrite Hs, Hscan.
Qed.

Lemma scanning_needs_central_witness :
  central waiting = true ∧ actions (_stop_scan waiting) = [StopScan].
Proof.
  apply (scanning_needs_central waiting).
  - apply reachable_run, reachable_start.
  - vm_compute. reflexivity.
Defined.

(** ** After a tick *)

(** X16: with a positive reconnect interval, a tick leaves no pending
    reconnect that is due: every entry that remains lies after the time of
    the tick, whether the stack was ready or not. *)
Theorem tick_leaves_nothing_due (state : CBManagerState) (now : Z) (self : HRDelegate)
    (device_id : string) (ts : Z) :
  0 < reconnect_interval self →
  pending_reconnect (state_of (tick state now self)) !! device_id = Some ts →
  now < ts.
Proof.
  intros Hpos.
  destruct (negb (central self) || negb (is_powered_on state)) eqn:Hready.
  - rewrite (tick_not_ready_result state now self Hready). unfold state_of. simpl.
    rewrite lookup_fmap. destruct (pending_reconnect self !! device_id); simpl; [|done].
    intros [= <-]. lia.
  - apply orb_false_iff in Hready as [Hc Hp]. apply negb_false_iff in Hc, Hp.
    destruct (tick_ready_effect state now self Hc Hp)
      as (after & out & Hrun & Hframe & Hout & _).
    rewrite Hrun. unfold state_of. simpl. intros Hafter.
    destruct Hframe as (_ & _ & _ & _ & _ & _ & _ & _ & Hk).
    destruct (pending_reconnect self !! device_id) as [ts0|] eqn:Hpending.
    + destruct (Hout device_id ts0 Hpending) as (Hlater & Hdrop & Hbusy & Hconn & Hscan).
      destruct (Z.lt_ge_cases now ts0) as [Hlt|Hge].
      { destruct (Hlater Hlt) as [Hsame _]. congruence. }
      destruct (decide (device_id ∈ connected_ids self)) as [Hcon|Hncon].
      { destruct (Hdrop Hge Hcon) as [Hnone _]. congruence. }
      assert (pending_reconnect after !! device_id
              = Some (now + reconnect_interval self)) as Hrearmed.
      { destruct (decide (device_id ∈ connecting_ids self)) as [Hing|Hning].
        { by destruct (Hbusy Hge Hncon Hing). }
        destruct (peripherals self !! device_id) as [p|] eqn:Hp'.
        - by destruct (Hconn Hge Hncon Hning p eq_refl).
        - by destruct (Hscan Hge Hncon Hning eq_refl). }
      rewrite Hrearmed in Hafter. injection Hafter as <-. lia.
    + destruct (Hk device_id) as [Hsame _]; [|congruence].
      intros ([k' ts'] & -> & Hin')%list_elem_of_fmap.
      apply elem_of_map_to_list in Hin'. simpl in Hpending. congruence.
Qed.

Lemma tick_leaves_nothing_due_witness :
  pending_reconnect (state_of (tick CBManagerStatePoweredOn 6500 waiting)) !! "AAAA"
  = Some 11500
  ∧ 6500 < 11500.
Proof.
  assert (pending_reconnect (state_of (tick CBManagerStatePoweredOn 6500 waiting))
            !! "AAAA" = Some 11500) as Hafter by (vm_compute; reflexivity).
  split; [exact Hafter|].
  apply (tick_leaves_nothing_due CBManagerStatePoweredOn 6500 waiting "AAAA" 11500);
    [vm_compute; reflexivity|exact Hafter].
Defined.

(** ** What a callback sends *)

Section Emits.
Context (Q : Action → Prop).

Lemma emits_ret {A} (a : A) : emits Q (mret a).
Proof. intros self. constructor. Qed.

Lemma emits_skip : emits Q skip.
Proof. intros self. constructor. Qed.

Lemma emits_get : emits Q get.
Proof. intros self. constructor. Qed.

Lemma emits_raise {A} : emits Q (@raise A).
Proof. intros self. constructor. Qed.

Lemma emits_modify f : emits Q (modify f).
Proof. intros self. constructor. Qed.

Lemma emits_emit a : Q a → emits Q (emit a).
Proof. intros Ha self. by repeat constructor. Qed.

Lemma emits_bind {A B} (m : M A) (k : A → M B) :
  emits Q m → (∀ a, emits Q (k a)) → emits Q (m ≫= k).
Proof.
  intros Hm Hk self. specialize (Hm self).
  unfold actions, mbind, M_bind in *.
  destruct (m self) as [[[a|] self1] out1]; simpl in *; [|done].
  specialize (Hk a self1). unfold actions in Hk.
  destruct (k a self1) as [[r self2] out2]. simpl in *. by apply Forall_app.
Qed.

Lemma emits_try_pass m : emits Q m → emits Q (try_pass m).
Proof.
  intros Hm self. specialize (Hm self). unfold actions, try_pass in *.
  by destruct (m self) as [[[[]|] self1] out1].
Qed.

Lemma emits_for_each {A} (xs : list A) body :
  (∀ x, x ∈ xs → emits Q (body x)) → emits Q (for_each xs body).
Proof.
  induction xs as [|x rest IH]; intros Hbody; simpl.
  - apply emits_skip.
  - apply emits_bind; [apply Hbody; by left|].
    intros _. apply IH. intros y Hy. apply Hbody. by right.
Qed.
End Emits.

Lemma emits_weaken {A} (Q Q' : Action → Prop) (m : M A) :
  (∀ a, Q a → Q' a) → emits Q m → emits Q' m.
Proof. intros Himpl Hm self. eapply Forall_impl; [apply Hm|done]. Qed.

(** Walks through a computation with the rules above; [leaf] closes the
    obligations of the requests and of the methods proved apart. *)
Ltac emits_with leaf :=
  repeat first
    [ solve [leaf]
    | match goal with
      | |- emits _ skip => apply emits_skip
      | |- emits _ (mret _) => apply emits_ret
      | |- emits _ get => apply emits_get
      | |- emits _ (modify _) => apply emits_modify
      | |- emits _ raise => apply emits_raise
      | |- emits _ (emit _) => apply emits_emit
      | |- emits _ (try_pass _) => apply emits_try_pass
      | |- emits _ (for_each _ _) => apply emits_for_each; intros ? ?
      | |- emits _ (_ ≫= _) => apply emits_bind; [|intros ?]
      | |- emits _ (if ?c then _ else _) => destruct c
      | |- emits _ (match ?x with _ => _ end) => destruct x
      end
    | progress unfold pending_setitem, pending_delitem, connecting_remove,
        connected_remove, central_connect, central_cancel, _write_hr,
        _start_scan, _stop_scan,
        _schedule_reconnect, _reset_reconnect, tick_not_ready, tick_entry, tick,
        _match_device, _update_name, _block_device, _connect_peripheral,
        centralManagerDidUpdateState_,
        centralManager_didDiscoverPeripheral_advertisementData_RSSI_,
        centralManager_didConnectPeripheral_,
        centralManager_didFailToConnectPeripheral_error_,
        centralManager_didDisconnectPeripheral_error_,
        peripheral_didDiscoverServices_,
        peripheral_didDiscoverCharacteristicsForService_error_,
        peripheral_didUpdateValueForCharacteristic_error_ ].

Ltac emits_leaf :=
  idtac;
  lazymatch goal with
  | |- emits _ _ => fail
  | |- _ => by (simpl; auto)
  end.

(** The loop over the retrieved peripherals asks the stack to connect to
    peripherals of the list only. *)
Lemma connect_retrieved_emits retrieved now :
  emits (λ a, match a with
              | SetDelegate q | ConnectPeripheral q => q ∈ retrieved
              | _ => False
              end)
    (connect_retrieved retrieved now).
Proof.
  induction retrieved as [|peripheral rest IH]; cbn [connect_retrieved].
  - apply emits_skip.
  - assert (emits (λ a, match a with
                        | SetDelegate q | ConnectPeripheral q => q ∈ peripheral :: rest
                        | _ => False
                        end)
              (connect_retrieved rest now)) as IH'.
    { eapply emits_weaken; [|exact IH]. intros [] Ha; try done; by right. }
    emits_with ltac:(first [ exact IH' | emits_leaf
                           | by (cbv beta; apply elem_of_cons; left) ]).
Qed.

Lemma handle_emits ev now : emits (may_emit ev) (handle ev now).
Proof.
  destruct ev as [state retrieved|p adv|p|p|p|p error|p s error|p c error|state];
    cbn [handle].
  - unfold centralManagerDidUpdateState_.
    emits_with ltac:(first
      [ (eapply emits_weaken; [|apply connect_retrieved_emits]);
        intros [] Ha; done
      | emits_leaf ]).
  - emits_with emits_leaf.
  - emits_with emits_leaf.
  - emits_with emits_leaf.
  - emits_with emits_leaf.
  - emits_with emits_leaf.
  - emits_with emits_leaf.
  - emits_with emits_leaf.
  - emits_with emits_leaf.
Qed.

(** X17: the requests and lines of a callback are those of [may_emit]: a
    callback of a peripheral sends requests about that peripheral only, a
    state update connects to retrieved peripherals only, heart rates are
    printed and records written by the notification callback only, and only
    a state update and a tick start a scan. *)
Theorem callbacks_emit (ev : Event) (now : Z) (self : HRDelegate) :
  Forall (may_emit ev) (actions (handle ev now self)).
Proof. apply handle_emits. Qed.

(** ** The output file *)

(** A notification that decodes: the name of the device, when it reports one,
    replaces the cached name; the line is printed, and with an output file
    the record is written, after the file is opened if it was not. *)
Lemma update_value_result peripheral characteristic value hr now self :
  char_value characteristic = Some value →
  ble_hr_corebluetooth.parse_hr_measurement value = Some hr →
  peripheral_didUpdateValueForCharacteristic_error_ peripheral characteristic false now self
  = let self1 := state_of (_update_name peripheral None self) in
    let label := shown_label peripheral self in
    (Some tt,
     match truthy (outfile self) with
     | Some _ => if outfh self then self1 else set_outfh true self1
     | None => self1
     end,
     PrintHR label hr
       :: match truthy (outfile self) with
          | Some path =>
              (if outfh self then [] else [OpenOutput path])
              ++ [WriteRecord now hr label (p_identifier peripheral)]
          | None => []
          end).
Proof.
  intros Hvalue Hparse.
  unfold peripheral_didUpdateValueForCharacteristic_error_, shown_label.
  rewrite Hvalue, Hparse. unfold _write_hr. unfold_M. cbn beta iota zeta.
  rewrite update_name_result. unfold adv_local_name, label_of. simpl.
  destruct (truthy (p_name peripheral)) as [name|]; simpl;
    rewrite ?lookup_insert_eq; simpl;
    destruct (truthy (outfile self)); simpl; try done;
    by destruct (outfh self).
Qed.

Ltac outfh_leaf :=
  idtac;
  lazymatch goal with
  | |- preserves _ _ => fail
  | |- _ =>
      cbv beta in *;
      match goal with H : outfh _ = ?b |- outfh _ = ?b => exact H end
  end.

Lemma start_scan_outfh b now : preserves (λ self, outfh self = b) (_start_scan now).
Proof. unfold _start_scan. preserves_with outfh_leaf. Qed.

Lemma stop_scan_outfh b : preserves (λ self, outfh self = b) _stop_scan.
Proof. unfold _stop_scan. preserves_with outfh_leaf. Qed.

Lemma connect_retrieved_outfh b retrieved now :
  preserves (λ self, outfh self = b) (connect_retrieved retrieved now).
Proof.
  induction retrieved as [|peripheral rest IH]; simpl;
    preserves_with ltac:(first [exact IH | outfh_leaf]).
Qed.

(** Every callback but the notification callback leaves the output file as
    it is. *)
Lemma handle_outfh b ev now :
  (∀ p c error, ev ≠ DidUpdateValue p c error) →
  preserves (λ self, outfh self = b) (handle ev now).
Proof.
  intros Hev.
  destruct ev as [state retrieved|p adv|p|p|p|p error|p s error|p c error|state];
    cbn [handle];
    try (exfalso; eapply Hev; reflexivity);
    preserves_with ltac:(idtac; lazymatch goal with
                         | |- preserves _ (connect_retrieved _ _) =>
                             apply connect_retrieved_outfh
                         | |- preserves _ (_start_scan _) => apply start_scan_outfh
                         | |- preserves _ _stop_scan => apply stop_scan_outfh
                         | |- _ => outfh_leaf
                         end).
Qed.

Lemma well_opened_app opened out1 out2 :
  well_opened opened (out1 ++ out2)
  = well_opened opened out1 && well_opened (opened || existsb is_open out1) out2.
Proof.
  revert opened. induction out1 as [|a out1 IH]; intros opened; simpl.
  - by rewrite orb_false_r.
  - destruct a; simpl; rewrite ?IH; try done.
    + by destruct opened.
    + by rewrite andb_assoc.
Qed.

Lemma well_opened_quiet opened out :
  Forall (λ a, is_open a = false ∧ is_write a = false) out →
  well_opened opened out = true ∧ existsb is_open out = false.
Proof.
  induction 1 as [|a out [Ho Hw] _ [IH1 IH2]]; [done|].
  simpl. rewrite Ho, IH2. split; [|done]. by destruct a.
Qed.

Lemma handle_well_opened ev now self :
  well_opened (outfh self) (actions (handle ev now self)) = true
  ∧ outfh (state_of (handle ev now self))
    = outfh self || existsb is_open (actions (handle ev now self)).
Proof.
  assert ((∀ p c error, ev ≠ DidUpdateValue p c error)
          ∨ ∃ p c error, ev = DidUpdateValue p c error) as [Hother|(p & c & error & ->)].
  { destruct ev; eauto. }
  - pose proof (handle_emits ev now self) as Hemits.
    destruct (well_opened_quiet (outfh self) (actions (handle ev now self))) as [Hw Ho].
    { eapply Forall_impl; [exact Hemits|]. intros a Ha.
      destruct ev; try (exfalso; by eapply Hother); by destruct a. }
    rewrite Hw, Ho, orb_false_r. split; [done|].
    by apply (handle_outfh (outfh self) ev now Hother self).
  - cbn [handle].
    destruct error;
      [|destruct (char_value c) as [value|] eqn:Hvalue;
        [destruct (ble_hr_corebluetooth.parse_hr_measurement value) as [hr|] eqn:Hparse|]].
    + unfold peripheral_didUpdateValueForCharacteristic_error_. simpl.
      by rewrite orb_false_r.
    + rewrite (update_value_result p c value hr now self Hvalue Hparse).
      cbn zeta. rewrite update_name_result. unfold actions, state_of. simpl.
      destruct (truthy (outfile self)), (outfh self) eqn:Hfh,
        (adv_local_name None), (truthy (p_name p)); simpl; by rewrite ?Hfh.
    + unfold peripheral_didUpdateValueForCharacteristic_error_.
      rewrite Hvalue, Hparse. simpl. by rewrite orb_false_r.
    + unfold peripheral_didUpdateValueForCharacteristic_error_.
      rewrite Hvalue. simpl. by rewrite orb_false_r.
Qed.

Lemma run_well_opened evs self :
  well_opened (outfh self) (run_actions evs self) = true.
Proof.
  revert self. induction evs as [|[ev now] rest IH]; intros self; [done|].
  cbn [run_actions]. rewrite well_opened_app.
  destruct (handle_well_opened ev now self) as [-> <-]. apply IH.
Qed.

(** X18: over any sequence of events the output file is opened at most once,
    and no record is written before it is opened. *)
Theorem output_opened_once (evs : list (Event * Z)) (args : Args) :
  well_opened false (run_actions evs (configure args)) = true.
Proof. exact (run_well_opened evs (configure args)). Qed.

(** X19: a notification that decodes prints one heart-rate line under the
    name the device reports (the cached name, or the identifier, when it
    reports none); with an output file it writes one record under the same
    name, after opening the file if it was not open; and it changes nothing
    of the connection state. *)
Theorem notification_prints_and_records (peripheral : Peripheral)
    (characteristic : Characteristic) (value : list byte) (hr now : Z)
    (self : HRDelegate) :
  char_value characteristic = Some value →
  ble_hr_corebluetooth.parse_hr_measurement value = Some hr →
  let r := peripheral_didUpdateValueForCharacteristic_error_
             peripheral characteristic false now self in
  let label := shown_label peripheral self in
  result r = Some tt
  ∧ actions r
    = PrintHR label hr
        :: match truthy (outfile self) with
           | Some path =>
               (if outfh self then [] else [OpenOutput path])
               ++ [WriteRecord now hr label (p_identifier peripheral)]
           | None => []
           end
  ∧ connected_ids (state_of r) = connected_ids self
  ∧ connecting_ids (state_of r) = connecting_ids self
  ∧ pending_reconnect (state_of r) = pending_reconnect self
  ∧ blocked_ids (state_of r) = blocked_ids self
  ∧ peripherals (state_of r) = peripherals self.
Proof.
  intros Hvalue Hparse.
  rewrite (update_value_result peripheral characteristic value hr now self Hvalue Hparse).
  cbn zeta. rewrite update_name_result. unfold result, actions, state_of. simpl.
  split; [done|]. split; [done|].
  destruct (truthy (outfile self)), (outfh self), (adv_local_name None),
    (truthy (p_name peripheral)); simpl; done.
Qed.

Lemma notification_prints_and_records_witness :
  actions (peripheral_didUpdateValueForCharacteristic_error_ polar beat false 700
             (configure recording_args))
  = [ PrintHR "Polar" 72; OpenOutput "hr.jsonl"; WriteRecord 700 72 "Polar" "AAAA" ].
Proof.
  pose proof (notification_prints_and_records polar beat [x00; x48] 72 700
                (configure recording_args) eq_refl eq_refl) as (_ & Hout & _).
  exact Hout.
Defined.

(** ** A device without the Heart Rate service *)

Lemma is_blocked_insert now until device_id self :
  now < until →
  is_blocked now device_id
    (set_blocked_ids (<[device_id := until]> (blocked_ids self)) self) = true.
Proof.
  intros Hlt. unfold is_blocked. simpl. rewrite lookup_insert_eq.
  by apply Z.ltb_lt.
Qed.

(** X20: when the services of a connected device show no Heart Rate
    service, the delegate announces that it ignores the device and cancels
    the connection; until the block time has passed, a new discovery of the
    device sends nothing to the stack and leaves the connecting set alone,
    and its disconnection schedules no reconnect. *)
Theorem device_without_hr_service_cools_down (peripheral : Peripheral)
    (advertisementData : option AdvertisementData) (now later : Z)
    (self : HRDelegate) :
  central self = true →
  existsb (λ service, String.eqb (service_UUID service) HR_SERVICE)
    (p_services peripheral) = false →
  later < now + blocked_ttl self →
  let device_id := p_identifier peripheral in
  let r := peripheral_didDiscoverServices_ peripheral false now self in
  let again := centralManager_didDiscoverPeripheral_advertisementData_RSSI_
                 peripheral advertisementData later (state_of r) in
  let gone := centralManager_didDisconnectPeripheral_error_
                peripheral later (state_of r) in
  actions r
  = [ PrintErr (MsgIgnoring "No Heart Rate service." (label_of device_id self)
                  (blocked_ttl self));
      CancelPeripheralConnection peripheral ]
  ∧ pending_reconnect (state_of r) !! device_id = None
  ∧ actions again = []
  ∧ connecting_ids (state_of again) = connecting_ids (state_of r)
  ∧ pending_reconnect (state_of gone) !! device_id = None.
Proof.
  intros Hc Hnone Hlater device_id r again gone. subst device_id.
  assert (List.filter (λ service, String.eqb (service_UUID service) HR_SERVICE)
            (p_services peripheral) = []) as Hfilter.
  { induction (p_services peripheral) as [|s rest IH]; [done|].
    simpl in *. apply orb_false_iff in Hnone as [-> Hrest]. by apply IH. }
  assert (∃ s1,
            r = (Some tt, s1,
                 [ PrintErr (MsgIgnoring "No Heart Rate service."
                               (label_of (p_identifier peripheral) self) (blocked_ttl self));
                   CancelPeripheralConnection peripheral ])
            ∧ blocked_ids s1 !! (p_identifier peripheral) = Some (now + blocked_ttl self)
            ∧ pending_reconnect s1 !! (p_identifier peripheral) = None) as (s1 & Hr & Hblock & Hpend).
  { subst r. unfold peripheral_didDiscoverServices_.
    unfold mbind at 1, M_bind at 1. rewrite for_each_emit_only, Hfilter, Hnone.
    unfold _block_device. unfold_M. simpl.
    destruct (decide (is_Some (pending_reconnect self !! p_identifier peripheral)))
      as [Hp|Hp]; simpl.
    - destruct (decide (is_Some _)); [|done]. simpl. rewrite Hc. simpl.
      eexists. split; [reflexivity|]. simpl.
      by rewrite lookup_insert_eq, lookup_delete_eq.
    - rewrite Hc. simpl. eexists. split; [reflexivity|]. simpl.
      rewrite lookup_insert_eq. split; [done|]. by apply eq_None_not_Some. }
  assert (is_blocked later (p_identifier peripheral) s1 = true) as Hblocked.
  { unfold is_blocked. rewrite Hblock. by apply Z.ltb_lt. }
  assert (state_of r = s1) as Hs by (by rewrite Hr).
  assert (actions r = [ PrintErr (MsgIgnoring "No Heart Rate service."
                                    (label_of (p_identifier peripheral) self)
                                    (blocked_ttl self));
                        CancelPeripheralConnection peripheral ]) as Ha
    by (by rewrite Hr).
  subst again gone. rewrite Hs, Ha. clearbody r. clear Hr Ha Hs r.
  split; [done|]. split; [done|].
  rewrite discover_result. cbn zeta. rewrite Hblocked. simpl.
  split; [done|]. split.
  - by pose proof (seen_frame peripheral advertisementData later s1) as (_ & ? & _).
  - rewrite disconnect_result. cbn zeta. rewrite Hblocked. by unfold state_of.
Qed.

Lemma device_without_hr_service_cools_down_witness :
  actions (peripheral_didDiscoverServices_ thermometer false 300 probing)
  = [ PrintErr (MsgIgnoring "No Heart Rate service." "Thermo" 60000);
      CancelPeripheralConnection thermometer ]
  ∧ actions (centralManager_didDiscoverPeripheral_advertisementData_RSSI_
               thermometer None 30000
               (state_of (peripheral_didDiscoverServices_ thermometer false 300 probing)))
    = [].
Proof.
  pose proof (device_without_hr_service_cools_down thermometer None 300 30000 probing
                eq_refl eq_refl eq_refl) as (Hout & _ & Hagain & _).
  split; [exact Hout|exact Hagain].
Defined.

(** ** Preferred names *)

Lemma lowered_elem (names : list string) (n : string) :
  n ∈ names → n ≠ EmptyString → lower n ∈ lowered (Some names).
Proof.
  intros Hin Hne. unfold lowered. simpl. apply list_elem_of_fmap. exists n.
  split; [done|]. apply list_elem_of_In, filter_In. split; [by apply list_elem_of_In|].
  by destruct n.
Qed.

Lemma lowered_nonempty (names : option (list string)) (want : string) :
  want ∈ lowered names → want ≠ EmptyString.
Proof.
  unfold lowered. intros (n & -> & Hin)%list_elem_of_fmap.
  apply list_elem_of_In, filter_In in Hin as [_ Hne]. by destruct n.
Qed.

Lemma contains_in_empty (want : string) :
  want ≠ EmptyString → contains want EmptyString = false.
Proof. by destruct want. Qed.

(** X21: a device is preferred as soon as its name, or the name it
    advertises, contains one of the non-empty names given to
    [set_preferred], whatever the case of the letters on either side. *)
Theorem listed_name_is_preferred (names : list string) (grace : Z) (self : HRDelegate)
    (peripheral : Peripheral) (advertisementData : option AdvertisementData)
    (n : string) :
  n ∈ names → n ≠ EmptyString →
  contains (lower n) (name_lower peripheral)
  || contains (lower n) (adv_name_lower advertisementData) = true →
  _is_preferred peripheral advertisementData (set_preferred (Some names) grace self)
  = true.
Proof.
  intros Hin Hne Hmatch. unfold _is_preferred. cbn [preferred_names set_preferred].
  pose proof (lowered_elem names n Hin Hne) as Hl.
  destruct (lowered (Some names)) as [|w ws] eqn:Hnames; [by apply elem_of_nil in Hl|].
  apply existsb_exists. exists (lower n). split; [by apply list_elem_of_In|done].
Qed.

Lemma listed_name_is_preferred_witness :
  _is_preferred my_watch None (set_preferred (Some ["WATCH"]) 6000 init) = true.
Proof.
  apply (listed_name_is_preferred ["WATCH"] 6000 init my_watch None "WATCH").
  - list_mem.
  - discriminate.
  - vm_compute. reflexivity.
Defined.

(** X22: a device that reports no name and advertises none is never
    preferred, whatever names were given to [set_preferred]; the identifier
    of the device is not looked at. *)
Theorem unnamed_device_never_preferred (names : option (list string)) (grace : Z)
    (self : HRDelegate) (peripheral : Peripheral)
    (advertisementData : option AdvertisementData) :
  truthy (p_name peripheral) = None →
  adv_local_name advertisementData = None →
  _is_preferred peripheral advertisementData (set_preferred names grace self) = false.
Proof.
  intros Hname Hadv. unfold _is_preferred. cbn [preferred_names set_preferred].
  assert (name_lower peripheral = EmptyString) as ->.
  { unfold name_lower. by rewrite Hname. }
  assert (adv_name_lower advertisementData = EmptyString) as ->.
  { unfold adv_name_lower, adv_local_name in *.
    destruct advertisementData as [adv|]; [|done]. simpl in Hadv. by rewrite Hadv. }
  pose proof (lowered_nonempty names) as Hne.
  destruct (lowered names) as [|w ws]; [done|].
  apply not_true_is_false. intros (want & Hin & Hmatch)%existsb_exists.
  apply list_elem_of_In, Hne in Hin. by rewrite contains_in_empty in Hmatch.
Qed.

Lemma unnamed_device_never_preferred_witness :
  _is_preferred nameless None (set_preferred (Some ["9999"]) 6000 init) = false.
Proof.
  apply (unnamed_device_never_preferred (Some ["9999"]) 6000 init nameless None);
    reflexivity.
Defined.

(** X23: with a name filter, a device that reports no name and advertises
    none never matches, whatever its identifier: [_match_device] answers
    [False] for it. *)
Theorem name_filter_rejects_unnamed (names ids : option (list string))
    (max : option Z) (all : bool) (self : HRDelegate) (peripheral : Peripheral)
    (advertisementData : option AdvertisementData) (now : Z) :
  lowered names ≠ [] →
  truthy (p_name peripheral) = None →
  adv_local_name advertisementData = None →
  result (_match_device peripheral advertisementData now
            (set_filters names ids max all self)) = Some false.
Proof.
  intros Hfilter Hname Hadv. rewrite match_device_result. unfold result. simpl.
  f_equal. apply andb_false_iff. right.
  unfold passes_filters. cbn [name_filters id_filters set_filters].
  apply andb_false_iff. right.
  assert (name_lower peripheral = EmptyString) as ->.
  { unfold name_lower. by rewrite Hname. }
  assert (adv_name_lower advertisementData = EmptyString) as ->.
  { unfold adv_name_lower, adv_local_name in *.
    destruct advertisementData as [adv|]; [|done]. simpl in Hadv. by rewrite Hadv. }
  pose proof (lowered_nonempty names) as Hne.
  destruct (lowered names) as [|w ws]; [done|].
  apply not_true_is_false. intros (want & Hin & Hmatch)%existsb_exists.
  apply list_elem_of_In, Hne in Hin. by rewrite contains_in_empty in Hmatch.
Qed.

Lemma name_filter_rejects_unnamed_witness :
  result (_match_device nameless None 100
            (set_filters (Some ["polar"]) None None false init)) = Some false.
Proof.
  apply (name_filter_rejects_unnamed (Some ["polar"]) None None false init nameless None 100).
  - discriminate.
  - reflexivity.
  - reflexivity.
Defined.

(** ** Instances of the capacity and block lemmas *)

Lemma capacity_kept_witness :
  Z.of_nat (size (connected_ids
                    (state_of (handle (DidDiscoverPeripheral polar None) 600 full))))
  + Z.of_nat (size (connecting_ids
                      (state_of (handle (DidDiscoverPeripheral polar None) 600 full))))
  ≤ 1.
Proof.
  assert (capacity_ok full) as Hok.
  { intros max Hmax. vm_compute in Hmax. injection Hmax as <-. by vm_compute. }
  apply (capacity_kept full (DidDiscoverPeripheral polar None) 600 I Hok 1).
  vm_compute. reflexivity.
Defined.

Lemma block_inv_kept_witness :
  pending_reconnect (state_of (handle (DidDisconnectPeripheral thermometer) 400 ignoring))
    !! "FFFF" = None.
Proof.
  assert (block_inv 400 ignoring) as Hinv.
  { intros device_id until _ _.
    assert (pending_reconnect ignoring = ∅) as -> by (vm_compute; reflexivity).
    apply lookup_empty. }
  apply (block_inv_kept ignoring (DidDisconnectPeripheral thermometer) 400 I Hinv
           "FFFF" 60300).
  - vm_compute. reflexivity.
  - reflexivity.
Defined.

Lemma tick_no_duplicate_connect_witness :
  (p_identifier polar ∉ connected_ids full) ∧ (p_identifier polar ∉ connecting_ids full).
Proof.
  apply (tick_no_duplicate_connect full CBManagerStatePoweredOn 6000 polar).
  - apply reachable_run, reachable_start.
  - assert (actions (tick CBManagerStatePoweredOn 6000 full)
            = [ SetDelegate polar;
                PrintErr (MsgReconnectAttemptConnect "Polar");
                ConnectPeripheral polar ]) as -> by (vm_compute; reflexivity).
    list_mem.
Defined.

Lemma match_device_after_expiry_witness :
  result (_match_device thermometer None 70000 ignoring)
  = Some (passes_filters thermometer None ignoring)
  ∧ blocked_ids (state_of (_match_device thermometer None 70000 ignoring))
      !! p_identifier thermometer = None.
Proof.
  apply (match_device_after_expiry thermometer None 70000 60300 ignoring).
  - vm_compute. reflexivity.
  - vm_compute. discriminate.
Defined.

Lemma discover_at_capacity_witness :
  actions (centralManager_didDiscoverPeripheral_advertisementData_RSSI_
             polar None 600 full) = []
  ∧ name_by_id (state_of (centralManager_didDiscoverPeripheral_advertisementData_RSSI_
                            polar None 600 full))
    = <["AAAA" := "Polar"]> (name_by_id full)
  ∧ connecting_ids (state_of (centralManager_didDiscoverPeripheral_advertisementData_RSSI_
                                polar None 600 full))
    = connecting_ids full.
Proof.
  assert (_at_capacity full = true) as Hcap by (vm_compute; reflexivity).
  pose proof (discover_at_capacity polar None 600 full Hcap)
    as (_ & Hout & _ & Hname & _ & _ & Hing & _).
  split; [exact Hout|]. split; [|exact Hing].
  rewrite Hname. generalize (name_by_id full). intros names. reflexivity.
Defined.

Lemma disconnect_while_blocked_witness :
  pending_reconnect
    (state_of (centralManager_didDisconnectPeripheral_error_ thermometer 400 ignoring))
  = pending_reconnect ignoring.
Proof.
  apply (disconnect_while_blocked thermometer 400 ignoring). vm_compute. reflexivity.
Defined.

(** ** A callback while a tick is under way *)

Lemma did_connect_effect peripheral self :
  ∃ after,
    centralManager_didConnectPeripheral_ peripheral self
    = (Some tt, after, [DiscoverServices peripheral [HR_SERVICE]])
    ∧ p_identifier peripheral ∈ connected_ids after
    ∧ pending_reconnect after !! p_identifier peripheral = None
    ∧ central after = central self.
Proof.
  unfold centralManager_didConnectPeripheral_, _reset_reconnect. unfold_M. simpl.
  destruct (decide (_ ∈ connecting_ids self)); simpl;
    [destruct (decide (_ ∈ connecting_ids self)); [|done]; simpl|];
    (destruct (decide (is_Some _)) as [Hsome|Hnone]; simpl;
     [destruct (decide (is_Some _)); [|done]; simpl|]);
    eexists; (split; [reflexivity|]); simpl;
    (split; [apply elem_of_union; left; by apply elem_of_singleton|]);
    (split; [|done]);
    first [ apply lookup_delete_eq | by apply eq_None_not_Some ].
Qed.

(** An iteration for a due entry of a device that is connected and has no
    pending reconnect any more: [del self.pending_reconnect[device_id]]
    raises. *)
Lemma tick_entry_stale now device_id ts self :
  ts ≤ now →
  device_id ∈ connected_ids self →
  pending_reconnect self !! device_id = None →
  tick_entry now (device_id, ts) self = (None, self, []).
Proof.
  intros Hdue Hcon Hnone. unfold tick_entry. unfold_M. simpl.
  assert ((now <? ts) = false) as -> by (by apply Z.ltb_ge).
  destruct (decide (device_id ∈ connected_ids self)); [|done].
  destruct (decide (is_Some _)) as [[? Hsome]|_]; [congruence|done].
Qed.

(** X13: [main] has the callbacks delivered on a dispatch queue of their own
    while [tick] runs on the main thread, and nothing locks the delegate.
    When the connect callback of a device runs while a tick is under way,
    before the iteration that visits the due entry of that device, the
    callback removes the entry and the iteration, which goes by the snapshot
    taken when the loop started, finds the device connected and deletes the
    entry again: [del self.pending_reconnect[device_id]] raises [KeyError].
    The tick ends there, with the rest of the snapshot not visited. *)
Theorem tick_raises_when_connect_lands (now when : Z) (before rest : list (string * Z))
    (peripheral : Peripheral) (ts : Z) (self : HRDelegate) :
  central self = true →
  NoDup before.*1 →
  (∀ k t, (k, t) ∈ before → pending_reconnect self !! k = Some t) →
  ts ≤ now →
  let visited := for_each before (tick_entry now) self in
  let landed := centralManager_didConnectPeripheral_ peripheral (state_of visited) in
  let r := tick_interrupted now before (DidConnectPeripheral peripheral) when
             ((p_identifier peripheral, ts) :: rest) self in
  result visited = Some tt
  ∧ result landed = Some tt
  ∧ result r = None
  ∧ state_of r = state_of landed
  ∧ actions r = actions visited ++ actions landed.
Proof.
  intros Hcentral Hnodup Hitems Hdue visited landed r.
  destruct (tick_loop_effect now before self Hnodup Hcentral Hitems)
    as (s1 & out1 & Hrun1 & _).
  destruct (did_connect_effect peripheral s1) as (s2 & Hrun2 & Hcon & Hnone & _).
  pose proof (tick_entry_stale now (p_identifier peripheral) ts s2 Hdue Hcon Hnone)
    as Hrun3.
  subst r landed visited. unfold tick_interrupted. cbn [handle for_each].
  unfold mbind, M_bind, result, state_of, actions.
  rewrite Hrun1. cbn beta iota. cbn [fst snd].
  rewrite Hrun2. cbn beta iota. cbn [fst snd].
  rewrite Hrun3. cbn beta iota. cbn [fst snd]. by rewrite app_nil_r.
Qed.

Lemma tick_raises_when_connect_lands_witness :
  result (tick_interrupted 11300 [("AAAA", 11200)] (DidConnectPeripheral wahoo) 11300
            [(p_identifier wahoo, 11200)] retrying) = None.
Proof.
  assert (central retrying = true) as Hcentral by (vm_compute; reflexivity).
  assert (NoDup [("AAAA", 11200)].*1) as Hnodup.
  { apply NoDup_singleton. }
  assert (∀ k t, (k, t) ∈ [("AAAA", 11200)] → pending_reconnect retrying !! k = Some t)
    as Hitems.
  { intros k t [= -> ->]%list_elem_of_singleton. vm_compute. reflexivity. }
  assert (11200 ≤ 11300) as Hdue by (vm_compute; discriminate).
  exact (proj1 (proj2 (proj2
    (tick_raises_when_connect_lands 11300 11300 [("AAAA", 11200)] [] wahoo 11200
       retrying Hcentral Hnodup Hitems Hdue)))).
Defined.

(** The iteration of a due entry whose device is neither connected nor
    connecting and has a cached handle is [tick_connect]. *)
Lemma tick_entry_connect now device_id ts peripheral self :
  ts ≤ now →
  device_id ∉ connected_ids self →
  device_id ∉ connecting_ids self →
  peripherals self !! device_id = Some peripheral →
  tick_entry now (device_id, ts) self = tick_connect now device_id peripheral self.
Proof.
  intros Hdue Hcon Hing Hcached. unfold tick_entry, tick_connect. unfold_M. simpl.
  assert ((now <? ts) = false) as -> by (by apply Z.ltb_ge).
  destruct (decide (device_id ∈ connected_ids self)); [done|].
  destruct (decide (device_id ∈ connecting_ids self)); [done|].
  rewrite Hcached. simpl. by destruct (central self).
Qed.

Lemma discover_connects peripheral advertisementData now self :
  ConnectPeripheral peripheral
    ∈ actions (centralManager_didDiscoverPeripheral_advertisementData_RSSI_
                 peripheral advertisementData now self) →
  let after := state_of (centralManager_didDiscoverPeripheral_advertisementData_RSSI_
                           peripheral advertisementData now self) in
  p_identifier peripheral ∈ connecting_ids after
  ∧ central after = true
  ∧ reconnect_interval after = reconnect_interval self.
Proof.
  rewrite discover_result. cbn zeta.
  pose proof (seen_frame peripheral advertisementData now self)
    as (_ & _ & _ & _ & _ & _ & _ & Hc).
  cbn zeta in Hc.
  assert (reconnect_interval (seen peripheral advertisementData now self)
          = reconnect_interval self) as Hr.
  { unfold seen. rewrite update_name_result. unfold state_of. simpl.
    match goal with |- context [expire_block ?n ?i ?s] =>
      destruct (expire_block_cases n i s) as [-> | ->] end;
      by destruct (adv_local_name advertisementData), (truthy (p_name peripheral)). }
  case_match; [|by intros ?%elem_of_nil].
  rewrite connect_peripheral_result. cbn zeta.
  destruct (decide _); [by intros ?%elem_of_nil|].
  rewrite update_name_result. unfold actions, state_of. cbn [fst snd].
  destruct (central (seen peripheral advertisementData now self)) eqn:Hcentral.
  - intros _. split; [apply elem_of_union; left; by apply elem_of_singleton|].
    revert Hcentral Hr. unfold seen. rewrite update_name_result. unfold state_of. simpl.
    match goal with |- context [expire_block ?n ?i ?s] =>
      destruct (expire_block_cases n i s) as [-> | ->] end;
      by destruct (adv_local_name advertisementData), (truthy (p_name peripheral)).
  - intros Hin. apply elem_of_cons in Hin as [Heq|Hin]; [discriminate Heq|].
    by apply elem_of_nil in Hin.
Qed.

(** X26: when a discovery of a device runs while a tick is under way, after
    the iteration for the due entry of that device has found it neither
    connected nor connecting and before the iteration marks it connecting,
    and the discovery asks the stack to connect, the device is connecting
    when the iteration goes on, and the iteration asks the stack to connect
    to it once more: the stack gets two connect requests for one device. *)
Theorem tick_connects_again_when_discovery_lands (now when ts : Z)
    (peripheral cached : Peripheral) (advertisementData : option AdvertisementData)
    (self : HRDelegate) :
  ts ≤ now →
  p_identifier peripheral ∉ connected_ids self →
  p_identifier peripheral ∉ connecting_ids self →
  peripherals self !! p_identifier peripheral = Some cached →
  ConnectPeripheral peripheral
    ∈ actions (centralManager_didDiscoverPeripheral_advertisementData_RSSI_
                 peripheral advertisementData when self) →
  let device_id := p_identifier peripheral in
  let landed := state_of (centralManager_didDiscoverPeripheral_advertisementData_RSSI_
                            peripheral advertisementData when self) in
  tick_entry now (device_id, ts) self = tick_connect now device_id cached self
  ∧ device_id ∈ connecting_ids landed
  ∧ result (tick_connect now device_id cached landed) = Some tt
  ∧ actions (tick_connect now device_id cached landed)
    = [ SetDelegate cached;
        PrintErr (MsgReconnectAttemptConnect (label_of device_id landed));
        ConnectPeripheral cached ].
Proof.
  intros Hdue Hcon Hing Hcached Hconnects device_id landed.
  destruct (discover_connects peripheral advertisementData when self Hconnects)
    as (Hlanded & Hcentral & _).
  fold landed in Hlanded, Hcentral.
  split; [by apply tick_entry_connect|]. split; [exact Hlanded|].
  unfold tick_connect. unfold_M. simpl. by rewrite Hcentral.
Qed.

Lemma tick_connects_again_when_discovery_lands_witness :
  p_identifier polar
    ∈ connecting_ids
        (state_of (centralManager_didDiscoverPeripheral_advertisementData_RSSI_
                     polar (Some polar_adv) 6500 waiting))
  ∧ actions (tick_connect 6500 (p_identifier polar) polar
               (state_of (centralManager_didDiscoverPeripheral_advertisementData_RSSI_
                            polar (Some polar_adv) 6500 waiting)))
    = [ SetDelegate polar;
        PrintErr (MsgReconnectAttemptConnect "Polar H10 1234");
        ConnectPeripheral polar ].
Proof.
  assert (6000 ≤ 6500) as Hdue by (vm_compute; discriminate).
  assert (p_identifier polar ∉ connected_ids waiting) as Hcon.
  { assert (elements (connected_ids waiting) = []) as Hnone by (vm_compute; reflexivity).
    intros Hin%elem_of_elements. rewrite Hnone in Hin. by apply elem_of_nil in Hin. }
  assert (p_identifier polar ∉ connecting_ids waiting) as Hing.
  { assert (elements (connecting_ids waiting) = []) as Hnone by (vm_compute; reflexivity).
    intros Hin%elem_of_elements. rewrite Hnone in Hin. by apply elem_of_nil in Hin. }
  assert (peripherals waiting !! p_identifier polar = Some polar) as Hcached
    by (vm_compute; reflexivity).
  assert (ConnectPeripheral polar
            ∈ actions (centralManager_didDiscoverPeripheral_advertisementData_RSSI_
                         polar (Some polar_adv) 6500 waiting)) as Hconnects.
  { assert (actions (centralManager_didDiscoverPeripheral_advertisementData_RSSI_
                       polar (Some polar_adv) 6500 waiting)
            = [SetDelegate polar; ConnectPeripheral polar]) as ->
      by (vm_compute; reflexivity).
    list_mem. }
  pose proof (tick_connects_again_when_discovery_lands 6500 6500 6000 polar polar
                (Some polar_adv) waiting Hdue Hcon Hing Hcached Hconnects)
    as (_ & Hlanded & _ & Hout).
  split; [exact Hlanded|].
  rewrite Hout. vm_compute. reflexivity.
Defined.
